(** * ascifight: the board simulation engine

    A shallow embedding of [ascifight/board_actions.py] (the order
    resolution engine), of [ascifight/board/setup.py] (the map
    generator) and of the command queue of [ascifight/main.py], with
    their properties stated and proved over it.

    Python dictionaries keep their insertion order, and the engine
    depends on it (iteration over the flags, inversion of a dictionary),
    so a dictionary is an association list in insertion order.  The
    [flag] attribute of the Actor objects is mutable shared state: it is
    kept in the board state, keyed by the actor.  Functions that can
    raise ([d[k]] on a missing key, [random.choice] on an empty list)
    live in a state-and-error monad.  Random draws are explicit
    arguments.  The one float expression of the map generator is
    computed on IEEE 754 binary64 numbers. *)

From Stdlib Require Import ZArith List String QArith Bool Arith Lia Permutation.
From Stdlib Require Import SpecFloat.
Import ListNotations.
Local Open Scope Z_scope.

Set Implicit Arguments.

(* ================================================================== *)
(** * Keys: Python's [__eq__]/[__hash__] protocol *)

Class Hashable (K : Type) := { key_eqb : K -> K -> bool }.

(* ================================================================== *)
(** * Insertion-ordered dictionaries *)

Module Dict.
Section Ops.
Context {K V : Type} {HK : Hashable K}.

(** [d.get(k)] *)
Fixpoint get (d : list (K * V)) (k : K) : option V :=
  match d with
  | [] => None
  | (k', v) :: d' => if key_eqb k' k then Some v else get d' k
  end.

(** [d[k] = v]: an existing key keeps its place, a new one is appended. *)
Fixpoint set (d : list (K * V)) (k : K) (v : V) : list (K * V) :=
  match d with
  | [] => [(k, v)]
  | (k', v') :: d' =>
      if key_eqb k' k then (k', v) :: d' else (k', v') :: set d' k v
  end.

Definition keys (d : list (K * V)) : list K := map fst d.
Definition values (d : list (K * V)) : list V := map snd d.
End Ops.

Section Inverse.
Context {K V : Type} {HV : Hashable V}.

(** [{v: k for k, v in d.items()}.get(c)]: of the keys that hold the
    value [c], the one inserted last wins. *)
Fixpoint inverse_get (d : list (K * V)) (c : V) : option K :=
  match d with
  | [] => None
  | (k, v) :: d' =>
      match inverse_get d' c with
      | Some k' => Some k'
      | None => if key_eqb v c then Some k else None
      end
  end.
End Inverse.
End Dict.

(** [c in l] *)
Definition contains {A : Type} {HA : Hashable A} (l : list A) (c : A) : bool :=
  existsb (key_eqb c) l.

(** [set(l)], listed in the order of first occurrence. *)
Fixpoint dedup {A : Type} {HA : Hashable A} (l : list A) : list A :=
  match l with
  | [] => []
  | a :: l' => if contains l' a then dedup l' else a :: dedup l'
  end.

(** [range(a, b)] *)
Definition zrange (a b : Z) : list Z :=
  map (fun i => a + Z.of_nat i) (seq 0 (Z.to_nat (b - a))).

(* ================================================================== *)
(** * Data model *)

(** Modelled from the spec: the module [board_data] (the classes Team,
    Coordinates, Flag, Base, Actor and BoardData) is not among the
    sources.  A Team's identity is its name. *)
Definition Team := string.

(** Modelled from the spec: an integer pair; a pair outside
    [0, map_size - 1] cannot be constructed (see [mk_coordinates]). *)
Record Coordinates := { x : Z; y : Z }.

(** Modelled from the spec: a Flag's identity is its owning Team. *)
Record Flag := { flag_team : Team }.

(** Modelled from the spec: a Base's identity is its owning Team. *)
Record Base := { base_team : Team }.

(** Modelled from the spec: an Actor belongs to one Team, has an
    [ident] unique within the team, a grab and an attack probability.
    The probabilities are rationals: the code only compares them with a
    random draw and tests them for zero.  The mutable attribute [flag]
    is kept in [actors_flag] of the board state.  Two Actors are the
    same key when their fields agree; a board holds one Actor for each
    pair of a team and an [ident]. *)
Record Actor := { ident : nat; team : Team; grab : Q; attack : Q }.

(** The attribute [attack], by a name that the method [attack] of the
    engine does not hide. *)
Abbreviation attack_probability := attack.

Module Directions.
Inductive t := left | right | down | up.
End Directions.

Definition coordinates_eqb (a b : Coordinates) : bool :=
  (x a =? x b) && (y a =? y b).

Definition Q_eqb (p q : Q) : bool :=
  (Qnum p =? Qnum q) && (Qden p =? Qden q)%positive.

Definition actor_eqb (a b : Actor) : bool :=
  (ident a =? ident b)%nat && String.eqb (team a) (team b)
  && Q_eqb (grab a) (grab b) && Q_eqb (attack a) (attack b).

#[export] Instance Hashable_Team : Hashable Team :=
  {| key_eqb := String.eqb |}.
#[export] Instance Hashable_Coordinates : Hashable Coordinates :=
  {| key_eqb := coordinates_eqb |}.
#[export] Instance Hashable_Flag : Hashable Flag :=
  {| key_eqb := fun a b => String.eqb (flag_team a) (flag_team b) |}.
#[export] Instance Hashable_Base : Hashable Base :=
  {| key_eqb := fun a b => String.eqb (base_team a) (base_team b) |}.
#[export] Instance Hashable_Actor : Hashable Actor :=
  {| key_eqb := actor_eqb |}.

(** The board state.  [actors_flag] holds the attribute [flag] of the
    Actor objects (an absent entry is [None]); [home_flag_required] is
    the configuration entry [config["game"]["home_flag_required"]],
    which the engine only reads. *)
Record BoardData := {
  map_size : Z;
  actors_coordinates : list (Actor * Coordinates);
  flags_coordinates : list (Flag * Coordinates);
  bases_coordinates : list (Base * Coordinates);
  walls_coordinates : list Coordinates;
  actors_flag : list (Actor * option Flag);
  home_flag_required : bool
}.

(** [Coordinates(x=x, y=y)]: [None] stands for the ValidationError of a
    pair outside the board. *)
Definition mk_coordinates (n : Z) (cx cy : Z) : option Coordinates :=
  if (0 <=? cx) && (cx <=? n - 1) && (0 <=? cy) && (cy <=? n - 1)
  then Some {| x := cx; y := cy |} else None.

(** Modelled from the spec: the position-to-occupant indexes of
    BoardData ([coordinates_actors], [coordinates_flags],
    [coordinates_bases]) are not among the sources.  The engine writes
    only the occupant-to-position dictionaries, so the indexes are the
    inverted dictionaries. *)
Definition coordinates_actors (s : BoardData) (c : Coordinates) : option Actor :=
  Dict.inverse_get (actors_coordinates s) c.
Definition coordinates_flags (s : BoardData) (c : Coordinates) : option Flag :=
  Dict.inverse_get (flags_coordinates s) c.
Definition coordinates_bases (s : BoardData) (c : Coordinates) : option Base :=
  Dict.inverse_get (bases_coordinates s) c.

(** [actor.flag] *)
Definition flag_of (s : BoardData) (a : Actor) : option Flag :=
  match Dict.get (actors_flag s) a with
  | Some f => f
  | None => None
  end.

(** The three writes of the engine. *)
Definition set_actors_coordinates (a : Actor) (c : Coordinates) (s : BoardData) : BoardData :=
  {| map_size := map_size s;
     actors_coordinates := Dict.set (actors_coordinates s) a c;
     flags_coordinates := flags_coordinates s;
     bases_coordinates := bases_coordinates s;
     walls_coordinates := walls_coordinates s;
     actors_flag := actors_flag s;
     home_flag_required := home_flag_required s |}.

Definition set_flags_coordinates (f : Flag) (c : Coordinates) (s : BoardData) : BoardData :=
  {| map_size := map_size s;
     actors_coordinates := actors_coordinates s;
     flags_coordinates := Dict.set (flags_coordinates s) f c;
     bases_coordinates := bases_coordinates s;
     walls_coordinates := walls_coordinates s;
     actors_flag := actors_flag s;
     home_flag_required := home_flag_required s |}.

Definition set_flag_of (a : Actor) (f : option Flag) (s : BoardData) : BoardData :=
  {| map_size := map_size s;
     actors_coordinates := actors_coordinates s;
     flags_coordinates := flags_coordinates s;
     bases_coordinates := bases_coordinates s;
     walls_coordinates := walls_coordinates s;
     actors_flag := Dict.set (actors_flag s) a f;
     home_flag_required := home_flag_required s |}.

(** The write of the map generator. *)
Definition set_bases_coordinates (b : Base) (c : Coordinates) (s : BoardData) : BoardData :=
  {| map_size := map_size s;
     actors_coordinates := actors_coordinates s;
     flags_coordinates := flags_coordinates s;
     bases_coordinates := Dict.set (bases_coordinates s) b c;
     walls_coordinates := walls_coordinates s;
     actors_flag := actors_flag s;
     home_flag_required := home_flag_required s |}.

(* ================================================================== *)
(** * The state-and-error monad of the engine *)

Inductive exn := KeyError | IndexError | ZeroDivisionError | OverflowError | ValueError.

Inductive result (A : Type) :=
| Ok (a : A)
| Raise (e : exn).
Arguments Raise {A} e.

Definition M (A : Type) := BoardData -> result (A * BoardData).

Definition ret {A} (a : A) : M A := fun s => Ok (a, s).

Definition bind {A B} (m : M A) (f : A -> M B) : M B :=
  fun s => match m s with
           | Ok (a, s') => f a s'
           | Raise e => Raise e
           end.

Definition gets {A} (f : BoardData -> A) : M A := fun s => Ok (f s, s).

Definition modify (f : BoardData -> BoardData) : M unit := fun s => Ok (tt, f s).

(** [d[k]], a KeyError when [k] is missing. *)
Definition subscript {K V} {HK : Hashable K}
  (d : BoardData -> list (K * V)) (k : K) : M V :=
  fun s => match Dict.get (d s) k with
           | Some v => Ok (v, s)
           | None => Raise KeyError
           end.

Declare Scope engine_scope.
Delimit Scope engine_scope with engine.
Notation "x <- c ;; k" := (bind c (fun x => k))
  (at level 61, c at next level, right associativity) : engine_scope.
Notation "c ;;; k" := (bind c (fun _ => k))
  (at level 61, right associativity) : engine_scope.
Local Open Scope engine_scope.

(** [random.random() < p] for the draw [r]. *)
Definition Qlt_bool (r p : Q) : bool := negb (Qle_bool p r).

(** The truth value of a float: false exactly for zero. *)
Definition truthy (p : Q) : bool := negb (Qeq_bool p 0).

(** [random.choice(l)] for the draw [k]; an IndexError on the empty list. *)
Definition choice {A} (k : nat) (l : list A) : M A :=
  fun s => match nth_error l (k mod List.length l)%nat with
           | Some a => Ok (a, s)
           | None => Raise IndexError
           end.

(* ================================================================== *)
(** * The order resolution engine ([board_actions.py]) *)

Module BoardActions.

(** The clamped unit step of [calc_target_coordinates]. *)
Definition step (n : Z) (coordinates : Coordinates) (direction : Directions.t)
  : Coordinates :=
  match direction with
  | Directions.right =>
      {| x := Z.min (x coordinates + 1) (n - 1); y := y coordinates |}
  | Directions.left =>
      {| x := Z.max (x coordinates - 1) 0; y := y coordinates |}
  | Directions.up =>
      {| x := x coordinates; y := Z.min (y coordinates + 1) (n - 1) |}
  | Directions.down =>
      {| x := x coordinates; y := Z.max (y coordinates - 1) 0 |}
  end.

Definition calc_target_coordinates (actor : Actor) (direction : Directions.t)
  : M Coordinates :=
  coordinates <- subscript actors_coordinates actor ;;
  n <- gets map_size ;;
  ret (step n coordinates direction).

(** The loop of [_check_score_conditions]: [team_that_scored] is
    overwritten by every flag that scores. *)
Fixpoint score_loop (flags : list Flag) (team_that_scored : option Team)
  : M (option Team) :=
  match flags with
  | [] => ret team_that_scored
  | flag_to_score :: rest =>
      score_flag_coordinates <- subscript flags_coordinates flag_to_score ;;
      base_at_flag_coordinates <-
        gets (fun s => coordinates_bases s score_flag_coordinates) ;;
      match base_at_flag_coordinates with
      | Some b =>
          if negb (key_eqb (flag_team flag_to_score) (base_team b)) then
            let scoring_team := base_team b in
            own_flag <- subscript flags_coordinates {| flag_team := scoring_team |} ;;
            own_base <- subscript bases_coordinates {| base_team := scoring_team |} ;;
            required <- gets home_flag_required ;;
            if key_eqb own_flag own_base || negb required
            then score_loop rest (Some scoring_team)
            else score_loop rest team_that_scored
          else score_loop rest team_that_scored
      | None => score_loop rest team_that_scored
      end
  end.

Definition _check_score_conditions (flag_to_score : option Flag)
  : M (option Team) :=
  flags <- match flag_to_score with
           | Some f => ret [f]
           | None => gets (fun s => Dict.keys (flags_coordinates s))
           end ;;
  score_loop flags None.

Definition _return_flag_to_base (flag : Flag) : M unit :=
  c <- subscript bases_coordinates {| base_team := flag_team flag |} ;;
  modify (set_flags_coordinates flag c).

Definition _check_flag_return_conditions (actor : Actor) : M (option Team) :=
  coordinates <- subscript actors_coordinates actor ;;
  flag_positions <- gets (fun s => Dict.values (flags_coordinates s)) ;;
  if contains flag_positions coordinates then
    flag <- (fun s => match coordinates_flags s coordinates with
                      | Some f => Ok (f, s)
                      | None => Raise KeyError
                      end) ;;
    if key_eqb (flag_team flag) (team actor) then
      _return_flag_to_base flag ;;;
      team_that_scored <- _check_score_conditions None ;;
      carried <- gets (fun s => flag_of s actor) ;;
      match carried with
      | Some _ => modify (set_flag_of actor None) ;;; ret team_that_scored
      | None => ret team_that_scored
      end
    else ret None
  else ret None.

Definition _try_put_actor (actor : Actor) (new_coordinates : Coordinates)
  : M bool :=
  coordinates <- subscript actors_coordinates actor ;;
  occupant <- gets (fun s => coordinates_actors s new_coordinates) ;;
  base <- gets (fun s => coordinates_bases s new_coordinates) ;;
  walls <- gets walls_coordinates ;;
  if key_eqb coordinates new_coordinates then ret false
  else if match occupant with Some _ => true | None => false end then ret false
  else if match base with Some _ => true | None => false end then ret false
  else if contains walls new_coordinates then ret false
  else
    modify (set_actors_coordinates actor new_coordinates) ;;;
    carried <- gets (fun s => flag_of s actor) ;;
    match carried with
    | Some flag => modify (set_flags_coordinates flag new_coordinates) ;;; ret true
    | None => ret true
    end.

Definition move (actor : Actor) (direction : Directions.t)
  : M (bool * option Team) :=
  new_coordinates <- calc_target_coordinates actor direction ;;
  moved <- _try_put_actor actor new_coordinates ;;
  if moved then
    team_that_scored <- _check_flag_return_conditions actor ;;
    ret (moved, team_that_scored)
  else ret (moved, None).

(** [_get_area_positions]: the window is inclusive below and exclusive
    above; pairs outside the board are skipped. *)
Definition _get_area_positions (n : Z) (center : Coordinates) (distance : Z)
  : list Coordinates :=
  flat_map
    (fun cx =>
       flat_map
         (fun cy => match mk_coordinates n cx cy with
                    | Some c => [c]
                    | None => []
                    end)
         (zrange (y center - distance) (y center + distance)))
    (zrange (x center - distance) (x center + distance)).

(** The spawn points that [_respawn] enumerates with its own loops,
    [range(base.x - 2, base.x + 3)] and [range(base.y - 2, base.y + 3)]. *)
Definition possible_spawn_points (n : Z) (base_coordinates : Coordinates)
  : list Coordinates :=
  flat_map
    (fun cx =>
       flat_map
         (fun cy => match mk_coordinates n cx cy with
                    | Some c => [c]
                    | None => []
                    end)
         (zrange (y base_coordinates - 2) (y base_coordinates + 3)))
    (zrange (x base_coordinates - 2) (x base_coordinates + 3)).

(** [set(possible_spawn_points) - set(forbidden_positions)], as a list.
    The order in which Python lists a set is not fixed; as the draw [k]
    of [random.choice] ranges over all numbers, every allowed position
    can be chosen, whatever the order. *)
Definition allowed_positions (possible forbidden : list Coordinates)
  : list Coordinates :=
  filter (fun c => negb (contains forbidden c)) (dedup possible).

Definition _place_actor_in_area (k : nat) (actor : Actor)
  (possible forbidden : list Coordinates) : M unit :=
  target_coordinates <- choice k (allowed_positions possible forbidden) ;;
  carried <- gets (fun s => flag_of s actor) ;;
  match carried with
  | Some _ => modify (set_flag_of actor None)
  | None => ret tt
  end ;;;
  modify (set_actors_coordinates actor target_coordinates).

Definition forbidden_positions (s : BoardData) : list Coordinates :=
  Dict.values (flags_coordinates s) ++ Dict.values (actors_coordinates s)
  ++ Dict.values (bases_coordinates s) ++ walls_coordinates s.

Definition _respawn (k : nat) (actor : Actor) : M unit :=
  base_coordinates <- subscript bases_coordinates {| base_team := team actor |} ;;
  n <- gets map_size ;;
  forbidden <- gets forbidden_positions ;;
  _place_actor_in_area k actor (possible_spawn_points n base_coordinates) forbidden.

(** [attack]: [r] is the draw of [random.random()], [k] the draw of the
    [random.choice] of the respawn. *)
Definition attack (r : Q) (k : nat) (actor : Actor) (direction : Directions.t)
  : M bool :=
  if negb (truthy (attack actor)) then ret false
  else
    target_coordinates <- calc_target_coordinates actor direction ;;
    target <- gets (fun s => coordinates_actors s target_coordinates) ;;
    match target with
    | None => ret false
    | Some target =>
        if negb (Qlt_bool r (attack actor)) then ret false
        else _respawn k target ;;; ret true
    end.

(** [grabput_flag]: [r] is the draw of [random.random()]. *)
Definition grabput_flag (r : Q) (actor : Actor) (direction : Directions.t)
  : M (bool * option Team) :=
  target_coordinates <- calc_target_coordinates actor direction ;;
  let grab_successful := Qlt_bool r (grab actor) in
  target_actor <- gets (fun s => coordinates_actors s target_coordinates) ;;
  carried <- gets (fun s => flag_of s actor) ;;
  match carried with
  | Some flag =>
      match target_actor with
      | Some target_actor =>
          target_carried <- gets (fun s => flag_of s target_actor) ;;
          if negb (truthy (grab target_actor)) then ret (false, None)
          else match target_carried with
               | Some _ => ret (false, None)
               | None =>
                   modify (set_flags_coordinates flag target_coordinates) ;;;
                   modify (set_flag_of actor None) ;;;
                   modify (set_flag_of target_actor (Some flag)) ;;;
                   team_that_scored <- _check_flag_return_conditions target_actor ;;
                   ret (true, team_that_scored)
               end
      | None =>
          walls <- gets walls_coordinates ;;
          if contains walls target_coordinates then ret (false, None)
          else
            modify (set_flags_coordinates flag target_coordinates) ;;;
            modify (set_flag_of actor None) ;;;
            team_that_scored <- _check_score_conditions (Some flag) ;;
            ret (true, team_that_scored)
      end
  | None =>
      flag <- gets (fun s => coordinates_flags s target_coordinates) ;;
      match flag with
      | None => ret (false, None)
      | Some flag =>
          if grab_successful then
            own <- subscript actors_coordinates actor ;;
            modify (set_flags_coordinates flag own) ;;;
            modify (set_flag_of actor (Some flag)) ;;;
            match target_actor with
            | Some target_actor => modify (set_flag_of target_actor None)
            | None => ret tt
            end ;;;
            team_that_scored <- _check_flag_return_conditions actor ;;
            ret (true, team_that_scored)
          else ret (false, None)
      end
  end.

End BoardActions.

(* ================================================================== *)
(** * Lists as the map generator uses them *)

(** [l[i] = v] for an index of the list. *)
Fixpoint list_set {A : Type} (l : list A) (i : nat) (v : A) : list A :=
  match l, i with
  | [], _ => []
  | _ :: l', O => v :: l'
  | a :: l', S i' => a :: list_set l' i' v
  end.

(** [l[i], l[j] = l[j], l[i]] for two indexes of the list. *)
Definition swap {A : Type} (l : list A) (i j : nat) : list A :=
  match nth_error l i, nth_error l j with
  | Some a, Some b => list_set (list_set l i b) j a
  | _, _ => l
  end.

(** [random.shuffle(l)], as the standard library has it:
    [for i in reversed(range(1, len(l))): j = randbelow(i + 1);
     l[i], l[j] = l[j], l[i]].  [draws k] is the [k]-th draw. *)
Fixpoint shuffle_from {A : Type} (draws : nat -> nat) (drawn : nat) (i : nat)
  (l : list A) : list A :=
  match i with
  | O => l
  | S i' => shuffle_from draws (S drawn) i' (swap l i (draws drawn mod S i)%nat)
  end.

Definition shuffle {A : Type} (draws : nat -> nat) (l : list A) : list A :=
  shuffle_from draws 0 (List.length l - 1) l.

(** [l.remove(a)]: the first occurrence goes; [None] is the ValueError
    of a list without [a]. *)
Fixpoint list_remove {A : Type} {HA : Hashable A} (a : A) (l : list A)
  : option (list A) :=
  match l with
  | [] => None
  | b :: l' =>
      if key_eqb b a then Some l'
      else match list_remove a l' with
           | Some r => Some (b :: r)
           | None => None
           end
  end.

(** [l[:k]] for an integer [k]: a negative [k] counts from the end. *)
Definition slice_to {A : Type} (k : Z) (l : list A) : list A :=
  if k <? 0 then firstn (List.length l - Z.to_nat (- k)) l
  else firstn (Z.to_nat k) l.

(** Modelled from the spec: the actor classes (Generalist, Runner, ...)
    are declared in [board_data], which is not among the sources.  A
    class is its label and its two probabilities; calling it with an
    [ident] and a team makes the Actor. *)
Record ActorClass := {
  class_type : string;
  class_grab : Q;
  class_attack : Q
}.

Definition new_actor (cls : ActorClass) (number : nat) (t : Team) : Actor :=
  {| ident := number; team := t; grab := class_grab cls; attack := class_attack cls |}.

#[export] Instance Hashable_nat : Hashable nat := {| key_eqb := Nat.eqb |}.

#[export] Instance Hashable_pair {A B : Type} {HA : Hashable A} {HB : Hashable B}
  : Hashable (A * B) :=
  {| key_eqb := fun p q => key_eqb (fst p) (fst q) && key_eqb (snd p) (snd q) |}.

(** The write of [_place_walls]. *)
Definition set_walls_coordinates (walls : list Coordinates) (s : BoardData) : BoardData :=
  {| map_size := map_size s;
     actors_coordinates := actors_coordinates s;
     flags_coordinates := flags_coordinates s;
     bases_coordinates := bases_coordinates s;
     walls_coordinates := walls;
     actors_flag := actors_flag s;
     home_flag_required := home_flag_required s |}.

(** The write of [initialize_map] that the modelled code reads. *)
Definition set_map_size (n : Z) (s : BoardData) : BoardData :=
  {| map_size := n;
     actors_coordinates := actors_coordinates s;
     flags_coordinates := flags_coordinates s;
     bases_coordinates := bases_coordinates s;
     walls_coordinates := walls_coordinates s;
     actors_flag := actors_flag s;
     home_flag_required := home_flag_required s |}.

(* ================================================================== *)
(** * Floats as the map generator uses them *)

(** Python's [float] is the IEEE 754 binary64 format: 53 bits of
    precision, exponents below 1024, every operation rounded to the
    nearest float, ties to even.  [SpecFloat] of the standard library
    computes these operations on integers. *)
Definition float_prec : Z := 53.
Definition float_emax : Z := 1024.

(** [a / b] for two [int]s: the quotient of the two integers, rounded
    once.  A zero divisor is a ZeroDivisionError, a quotient beyond the
    floats an OverflowError. *)
Definition int_true_divide (a b : Z) : result spec_float :=
  match a, b with
  | _, 0 => Raise ZeroDivisionError
  | 0, _ => Ok (S754_zero (b <? 0))
  | _, _ =>
      match SFdiv float_prec float_emax
              (S754_finite (a <? 0) (Z.to_pos (Z.abs a)) 0)
              (S754_finite (b <? 0) (Z.to_pos (Z.abs b)) 0) with
      | S754_infinity _ => Raise OverflowError
      | quotient => Ok quotient
      end
  end.

(** [x ** 0.5] for a float [x] that is not negative.  CPython hands the
    operation to [pow] of the C library; its result is taken to be the
    correctly rounded square root. *)
Definition float_pow_half (x : spec_float) : spec_float :=
  SFsqrt float_prec float_emax x.

(** The float that the literal [1.2] denotes: the float nearest to 6/5,
    5404319552844595 * 2^-52. *)
Definition float_1_2 : spec_float := S754_finite false 5404319552844595 (-52).

(** [x / y] for two floats; a zero divisor is a ZeroDivisionError. *)
Definition float_divide (x y : spec_float) : result spec_float :=
  match y with
  | S754_zero _ => Raise ZeroDivisionError
  | _ => Ok (SFdiv float_prec float_emax x y)
  end.

(** [int(x)] for a float: the digits after the point are cut off. *)
Definition int_of_float (x : spec_float) : result Z :=
  match x with
  | S754_zero _ => Ok 0
  | S754_finite negative m e =>
      let magnitude :=
        if e <? 0 then Z.shiftr (Z.pos m) (- e) else Z.shiftl (Z.pos m) e in
      Ok (if negative then - magnitude else magnitude)
  | S754_infinity _ => Raise OverflowError
  | S754_nan => Raise ValueError
  end.

(* ================================================================== *)
(** * The map generator ([board/setup.py]) *)

Module BoardSetup.

(** [_get_area_positions], the same method as in the engine. *)
Definition _get_area_positions (n : Z) (center : Coordinates) (distance : Z)
  : list Coordinates :=
  flat_map
    (fun cx =>
       flat_map
         (fun cy => match mk_coordinates n cx cy with
                    | Some c => [c]
                    | None => []
                    end)
         (zrange (y center - distance) (y center + distance)))
    (zrange (x center - distance) (x center + distance)).

(** The candidate pool: [Coordinates(x=i, y=j)] for [i] and [j] in
    [range(2, map_size - 2)]. *)
Definition interior (n : Z) : list Coordinates :=
  flat_map (fun i => map (fun j => {| x := i; y := j |}) (zrange 2 (n - 2)))
           (zrange 2 (n - 2)).

(** [int((map_size**2 / len(teams)) ** 0.5 / 1.2) - 1], computed in
    floats as the code computes it.  An empty team list is a
    ZeroDivisionError. *)
Definition minimum_distance (n : Z) (team_count : nat) : result Z :=
  match int_true_divide (n ^ 2) (Z.of_nat team_count) with
  | Raise e => Raise e
  | Ok quotient =>
      match float_divide (float_pow_half quotient) float_1_2 with
      | Raise e => Raise e
      | Ok x =>
          match int_of_float x with
          | Raise e => Raise e
          | Ok k => Ok (k - 1)
          end
      end
  end.

(** The [while] loop of [_place_bases_and_flags].  [draws j] is the
    [j]-th draw of [random.choice], [drawn] counts the draws made so
    far; [None] is a loop that did not finish within [fuel] iterations. *)
Fixpoint place_loop (fuel : nat) (teams : list Team) (n d : Z)
  (draws : nat -> nat) (drawn : nat) (i : nat)
  (available_places : list Coordinates) (bd : BoardData) : option BoardData :=
  match fuel with
  | O => None
  | S fuel' =>
      match nth_error teams i with
      | None => Some bd
      | Some team =>
          match available_places with
          | [] => place_loop fuel' teams n d draws drawn 0%nat (interior n) bd
          | c0 :: _ =>
              let place_chosen :=
                nth (draws drawn mod List.length available_places)%nat
                    available_places c0 in
              let area := _get_area_positions n place_chosen d in
              let available_places' :=
                filter (fun c => negb (contains area c)) available_places in
              let bd' :=
                set_flags_coordinates {| flag_team := team |} place_chosen
                  (set_bases_coordinates {| base_team := team |} place_chosen bd) in
              place_loop fuel' teams n d draws (S drawn) (S i) available_places' bd'
          end
      end
  end.

(** [_place_bases_and_flags]: [Raise] is an exception of the first
    line, [Ok None] a loop that did not finish within [fuel]
    iterations, [Ok (Some bd)] the board that the method leaves. *)
Definition _place_bases_and_flags (fuel : nat) (teams : list Team) (n : Z)
  (draws : nat -> nat) (bd : BoardData) : result (option BoardData) :=
  match minimum_distance n (List.length teams) with
  | Raise e => Raise e
  | Ok d => Ok (place_loop fuel teams n d draws 0%nat 0%nat (interior n) bd)
  end.

(** The cells that [_place_actors] hands out: the area of distance 2
    around the base without the base, shuffled, cut to the number of
    actors.  [None] is the ValueError of [starting_places.remove(base)]. *)
Definition starting_places (n : Z) (base : Coordinates) (draws : nat -> nat)
  (count : nat) : option (list Coordinates) :=
  match list_remove base (_get_area_positions n base 2) with
  | Some places => Some (firstn count (shuffle draws places))
  | None => None
  end.

(** [_place_actors]: [zip] stops at the shorter of the two lists. *)
Definition _place_actors (n : Z) (draws : nat -> nat) (actors : list Actor)
  (base : Coordinates) (bd : BoardData) : option BoardData :=
  match starting_places n base draws (List.length actors) with
  | Some places =>
      Some (fold_left (fun bd' p => set_actors_coordinates (fst p) (snd p) bd')
                      (combine actors places) bd)
  | None => None
  end.

(** [{Coordinates(x=i[0], y=i[1]) for i in itertools.product(range(n), range(n))}] *)
Definition all_positions (n : Z) : list Coordinates :=
  flat_map (fun i => map (fun j => {| x := i; y := j |}) (zrange 0 n)) (zrange 0 n).

(** The cells that [_place_walls] keeps free: the areas of distance 3
    around the bases. *)
Definition walls_forbidden (n : Z) (bd : BoardData) : list Coordinates :=
  flat_map (fun base_coordinates => _get_area_positions n base_coordinates 3)
           (Dict.values (bases_coordinates bd)).

(** [_place_walls].  The order in which Python lists the set
    [all_positions - forbidden_positions] is not fixed; the list is
    shuffled next, and the shuffle can bring it into any order. *)
Definition _place_walls (n : Z) (walls : Z) (draws : nat -> nat) (bd : BoardData)
  : BoardData :=
  let possible_coordinates :=
    filter (fun c => negb (contains (walls_forbidden n bd) c))
           (dedup (all_positions n)) in
  set_walls_coordinates
    (dedup (slice_to walls (shuffle draws possible_coordinates))) bd.

(** The actors of one team, [actor_class(ident=number, team=team)] for
    the classes in their order. *)
Definition team_actors (actor_classes : list ActorClass) (t : Team) : list Actor :=
  map (fun p => new_actor (snd p) (fst p) t)
      (combine (seq 0 (List.length actor_classes)) actor_classes).

(** The body of the loop of [_place_board_objects] for one team: the
    actors go into [teams_actors] and are placed around the team's
    base.  [None] is a KeyError (no base for the team) or the
    ValueError of [_place_actors]. *)
Definition place_team (n : Z) (actor_classes : list ActorClass)
  (draws : nat -> nat) (t : Team)
  (st : list ((Team * nat) * Actor) * BoardData)
  : option (list ((Team * nat) * Actor) * BoardData) :=
  let actors := team_actors actor_classes t in
  let teams_actors :=
    fold_left (fun d a => Dict.set d (t, ident a) a) actors (fst st) in
  match Dict.get (bases_coordinates (snd st)) {| base_team := t |} with
  | Some coordinates =>
      match _place_actors n draws actors coordinates (snd st) with
      | Some bd' => Some (teams_actors, bd')
      | None => None
      end
  | None => None
  end.

Fixpoint place_teams (n : Z) (actor_classes : list ActorClass)
  (draws : nat -> nat -> nat) (i : nat) (teams : list Team)
  (st : list ((Team * nat) * Actor) * BoardData)
  : option (list ((Team * nat) * Actor) * BoardData) :=
  match teams with
  | [] => Some st
  | t :: rest =>
      match place_team n actor_classes (draws i) t st with
      | Some st' => place_teams n actor_classes draws (S i) rest st'
      | None => None
      end
  end.

(** [_place_board_objects].  The draws of the three stages are separate
    arguments: [draws_bases] for the choices of the bases,
    [draws_actors i] for the shuffle of the team of index [i],
    [draws_walls] for the shuffle of the walls.  [None] is a loop of
    [_place_bases_and_flags] that did not finish within [fuel]
    iterations, or an error raised for a team. *)
Definition _place_board_objects (fuel : nat) (teams : list Team)
  (actor_classes : list ActorClass) (n : Z) (walls : Z)
  (draws_bases : nat -> nat) (draws_actors : nat -> nat -> nat)
  (draws_walls : nat -> nat)
  (st : list ((Team * nat) * Actor) * BoardData)
  : option (list ((Team * nat) * Actor) * BoardData) :=
  match _place_bases_and_flags fuel teams n draws_bases (snd st) with
  | Ok (Some bd1) =>
      match place_teams n actor_classes draws_actors 0 teams (fst st, bd1) with
      | Some (teams_actors, bd2) =>
          Some (teams_actors, _place_walls n walls draws_walls bd2)
      | None => None
      end
  | Ok None | Raise _ => None
  end.

(** [initialize_map]: the board takes the map size of the setup, then
    the objects are placed. *)
Definition initialize_map (fuel : nat) (teams : list Team)
  (actor_classes : list ActorClass) (n : Z) (walls : Z)
  (draws_bases : nat -> nat) (draws_actors : nat -> nat -> nat)
  (draws_walls : nat -> nat)
  (st : list ((Team * nat) * Actor) * BoardData)
  : option (list ((Team * nat) * Actor) * BoardData) :=
  _place_board_objects fuel teams actor_classes n walls
    draws_bases draws_actors draws_walls (fst st, set_map_size n (snd st)).

End BoardSetup.

(* ================================================================== *)
(** * The command queue of the tick loop ([main.py]) *)

Module Main.

(** The [asyncio.Queue] of commands: the entries in their order, [None]
    for the object [SENTINEL], and the count of unfinished tasks, which
    [put] raises and [task_done] lowers. *)
Record Queue (A : Type) := {
  entries : list (option A);
  unfinished : nat
}.
Arguments entries {A} q.
Arguments unfinished {A} q.

(** [queue.put_nowait(item)] on the unbounded queue. *)
Definition put_nowait {A : Type} (item : option A) (q : Queue A) : Queue A :=
  {| entries := entries q ++ [item]; unfinished := S (unfinished q) |}.

(** [queue.task_done()]: [None] is the ValueError of a call too many. *)
Definition task_done {A : Type} (q : Queue A) : option (Queue A) :=
  match unfinished q with
  | O => None
  | S u => Some {| entries := entries q; unfinished := u |}
  end.

(** The loop of [get_all_queue_items] over the entries at hand, with
    [u] unfinished tasks: the items up to the sentinel, the entries
    behind it and the tasks left.  [None] is a loop that does not
    return: [queue.get()] waits on an empty queue (no sentinel came),
    or [task_done] raises. *)
Fixpoint drain {A : Type} (pending : list (option A)) (u : nat)
  : option (list A * Queue A) :=
  match pending with
  | [] => None
  | item :: rest =>
      match task_done {| entries := rest; unfinished := u |} with
      | None => None
      | Some q =>
          match item with
          | None => Some ([], q)
          | Some order =>
              match drain rest (unfinished q) with
              | Some (items, q') => Some (order :: items, q')
              | None => None
              end
          end
      end
  end.

Definition get_all_queue_items {A : Type} (q : Queue A) : option (list A * Queue A) :=
  drain (entries q) (unfinished q).

(** The two lines of [single_game] that open a tick:
    [await command_queue.put(SENTINEL)] and
    [commands = await get_all_queue_items(command_queue)]. *)
Definition collect_commands {A : Type} (q : Queue A) : option (list A * Queue A) :=
  get_all_queue_items (put_nowait None q).

End Main.

(* ================================================================== *)
(** * Well-formed boards and sample data *)

Fixpoint nodupb {A : Type} {HA : Hashable A} (l : list A) : bool :=
  match l with
  | [] => true
  | a :: l' => negb (contains l' a) && nodupb l'
  end.

Definition is_some {A : Type} (o : option A) : bool :=
  match o with Some _ => true | None => false end.

(** A dictionary has each key once; every Team has one Base and one
    Flag; a carried Flag is a Flag of the board. *)
Definition board_wfb (s : BoardData) : bool :=
  nodupb (Dict.keys (actors_coordinates s))
  && nodupb (Dict.keys (flags_coordinates s))
  && nodupb (Dict.keys (bases_coordinates s))
  && forallb (fun b => is_some (Dict.get (flags_coordinates s)
                                         {| flag_team := base_team b |}))
             (Dict.keys (bases_coordinates s))
  && forallb (fun f => is_some (Dict.get (bases_coordinates s)
                                         {| base_team := flag_team f |}))
             (Dict.keys (flags_coordinates s))
  && forallb (fun e => match snd e with
                       | Some f => is_some (Dict.get (flags_coordinates s) f)
                       | None => true
                       end)
             (actors_flag s).

Definition board_wf (s : BoardData) : Prop := board_wfb s = true.

(** At most one Actor occupies a given cell. *)
Definition one_actor_per_cell (s : BoardData) : Prop :=
  forall a1 a2 c,
    Dict.get (actors_coordinates s) a1 = Some c ->
    Dict.get (actors_coordinates s) a2 = Some c -> a1 = a2.

(** The cell [c] holds an Actor other than [a]. *)
Definition occupied_by_other (s : BoardData) (a : Actor) (c : Coordinates) : Prop :=
  exists a', a' <> a /\ Dict.get (actors_coordinates s) a' = Some c.

Definition occupied (s : BoardData) (c : Coordinates) : Prop :=
  exists a, Dict.get (actors_coordinates s) a = Some c.

Definition is_base (s : BoardData) (c : Coordinates) : Prop :=
  exists b, Dict.get (bases_coordinates s) b = Some c.

Definition is_wall (s : BoardData) (c : Coordinates) : Prop :=
  In c (walls_coordinates s).

Definition has_flag (s : BoardData) (c : Coordinates) : Prop :=
  exists f, Dict.get (flags_coordinates s) f = Some c.

Module Sample.
Definition A : Team := "A"%string.
Definition B : Team := "B"%string.
Definition flagA : Flag := {| flag_team := A |}.
Definition flagB : Flag := {| flag_team := B |}.
Definition baseA : Base := {| base_team := A |}.
Definition baseB : Base := {| base_team := B |}.
Definition at_ (cx cy : Z) : Coordinates := {| x := cx; y := cy |}.

(** A Generalist of each team. *)
Definition a0 : Actor := {| ident := 0; team := A; grab := 1; attack := 1 |}.
Definition b0 : Actor := {| ident := 0; team := B; grab := 1; attack := 1 |}.

(** A Blocker of team A: it can neither grab nor attack. *)
Definition z0 : Actor := {| ident := 1; team := A; grab := 0; attack := 0 |}.

(** A 10 x 10 board, two teams, no walls, the flags at home. *)
Definition board : BoardData :=
  {| map_size := 10;
     actors_coordinates := [(a0, at_ 3 2); (b0, at_ 6 7)];
     flags_coordinates := [(flagA, at_ 2 2); (flagB, at_ 7 7)];
     bases_coordinates := [(baseA, at_ 2 2); (baseB, at_ 7 7)];
     walls_coordinates := [];
     actors_flag := [];
     home_flag_required := true |}.

(** Each flag rests on the other team's base, and the flag at home is
    not required for scoring. *)
Definition swapped : BoardData :=
  {| map_size := 10;
     actors_coordinates := [(a0, at_ 3 2); (b0, at_ 6 7)];
     flags_coordinates := [(flagA, at_ 7 7); (flagB, at_ 2 2)];
     bases_coordinates := [(baseA, at_ 2 2); (baseB, at_ 7 7)];
     walls_coordinates := [];
     actors_flag := [];
     home_flag_required := false |}.

(** a0 stands on the enemy flag, which rests at (3,2); next to it, b0
    carries the flag of team A. *)
Definition face_off : BoardData :=
  {| map_size := 10;
     actors_coordinates := [(a0, at_ 3 2); (b0, at_ 4 2)];
     flags_coordinates := [(flagA, at_ 4 2); (flagB, at_ 3 2)];
     bases_coordinates := [(baseA, at_ 2 2); (baseB, at_ 7 7)];
     walls_coordinates := [];
     actors_flag := [(b0, Some flagA)];
     home_flag_required := true |}.

(** The board after a0 has taken its own flag from b0: a0 carries the
    flag of its own team. *)
Definition own_flag_carried : BoardData :=
  {| map_size := 10;
     actors_coordinates := [(a0, at_ 3 2); (b0, at_ 4 2)];
     flags_coordinates := [(flagA, at_ 3 2); (flagB, at_ 3 2)];
     bases_coordinates := [(baseA, at_ 2 2); (baseB, at_ 7 7)];
     walls_coordinates := [];
     actors_flag := [(b0, None); (a0, Some flagA)];
     home_flag_required := true |}.

(** a0 carries the enemy flag and faces a wall; the flag of team A
    rests on the cell above a0. *)
Definition walled : BoardData :=
  {| map_size := 10;
     actors_coordinates := [(a0, at_ 3 2); (b0, at_ 6 7)];
     flags_coordinates := [(flagA, at_ 3 3); (flagB, at_ 3 2)];
     bases_coordinates := [(baseA, at_ 2 2); (baseB, at_ 7 7)];
     walls_coordinates := [at_ 4 2];
     actors_flag := [(a0, Some flagB)];
     home_flag_required := true |}.

(** The Blocker z0 stands above the base of its team. *)
Definition guarded : BoardData :=
  {| map_size := 10;
     actors_coordinates := [(a0, at_ 3 2); (z0, at_ 2 3); (b0, at_ 6 7)];
     flags_coordinates := [(flagA, at_ 2 2); (flagB, at_ 7 7)];
     bases_coordinates := [(baseA, at_ 2 2); (baseB, at_ 7 7)];
     walls_coordinates := [];
     actors_flag := [];
     home_flag_required := true |}.

(** b0 stands above the base of team A, where the flag of team A
    rests. *)
Definition raid : BoardData :=
  {| map_size := 10;
     actors_coordinates := [(a0, at_ 3 2); (b0, at_ 2 3)];
     flags_coordinates := [(flagA, at_ 2 2); (flagB, at_ 7 7)];
     bases_coordinates := [(baseA, at_ 2 2); (baseB, at_ 7 7)];
     walls_coordinates := [];
     actors_flag := [];
     home_flag_required := true |}.

(** a0 carries the enemy flag; the flag of its own team rests on the
    cell to its right. *)
Definition own_flag_ahead : BoardData :=
  {| map_size := 10;
     actors_coordinates := [(a0, at_ 3 2); (b0, at_ 6 7)];
     flags_coordinates := [(flagA, at_ 4 2); (flagB, at_ 3 2)];
     bases_coordinates := [(baseA, at_ 2 2); (baseB, at_ 7 7)];
     walls_coordinates := [];
     actors_flag := [(a0, Some flagB)];
     home_flag_required := true |}.

(** The board after a0 has stepped onto the flag of its own team: both
    flags are on a0's cell. *)
Definition stacked : BoardData :=
  {| map_size := 10;
     actors_coordinates := [(a0, at_ 4 2); (b0, at_ 6 7)];
     flags_coordinates := [(flagA, at_ 4 2); (flagB, at_ 4 2)];
     bases_coordinates := [(baseA, at_ 2 2); (baseB, at_ 7 7)];
     walls_coordinates := [];
     actors_flag := [(a0, Some flagB)];
     home_flag_required := true |}.

(** a0 stands at the left edge of the board, b0 next to it. *)
Definition edge : BoardData :=
  {| map_size := 10;
     actors_coordinates := [(a0, at_ 0 4); (b0, at_ 1 4)];
     flags_coordinates := [(flagA, at_ 2 2); (flagB, at_ 7 7)];
     bases_coordinates := [(baseA, at_ 2 2); (baseB, at_ 7 7)];
     walls_coordinates := [];
     actors_flag := [];
     home_flag_required := true |}.

(** A board of size 2 that is full: every cell holds an actor or a
    base. *)
Definition full : BoardData :=
  {| map_size := 2;
     actors_coordinates := [(a0, at_ 0 0); (b0, at_ 1 0)];
     flags_coordinates := [(flagA, at_ 0 1); (flagB, at_ 1 1)];
     bases_coordinates := [(baseA, at_ 0 1); (baseB, at_ 1 1)];
     walls_coordinates := [];
     actors_flag := [];
     home_flag_required := true |}.
(** a0 carries the enemy flag and stands right of the base of its team,
    where the flag of team A rests. *)
Definition capture : BoardData :=
  {| map_size := 10;
     actors_coordinates := [(a0, at_ 3 2); (b0, at_ 6 7)];
     flags_coordinates := [(flagA, at_ 2 2); (flagB, at_ 3 2)];
     bases_coordinates := [(baseA, at_ 2 2); (baseB, at_ 7 7)];
     walls_coordinates := [];
     actors_flag := [(a0, Some flagB)];
     home_flag_required := true |}.
(** The flag of team A lies on the cell right of a0, away from its
    base; nobody carries a flag. *)
Definition stray : BoardData :=
  {| map_size := 10;
     actors_coordinates := [(a0, at_ 3 2); (b0, at_ 6 7)];
     flags_coordinates := [(flagA, at_ 4 2); (flagB, at_ 7 7)];
     bases_coordinates := [(baseA, at_ 2 2); (baseB, at_ 7 7)];
     walls_coordinates := [];
     actors_flag := [];
     home_flag_required := true |}.
(** A board on which nothing has been placed yet. *)
Definition fresh : BoardData :=
  {| map_size := 0;
     actors_coordinates := [];
     flags_coordinates := [];
     bases_coordinates := [];
     walls_coordinates := [];
     actors_flag := [];
     home_flag_required := true |}.

(** The class of a0 and b0, and the class of z0. *)
Definition generalist : ActorClass :=
  {| class_type := "Generalist"; class_grab := 1; class_attack := 1 |}.
Definition blocker : ActorClass :=
  {| class_type := "Blocker"; class_grab := 0; class_attack := 0 |}.
(** Two more teams, and a league of 25 teams "A" to "Y". *)
Definition C : Team := "C"%string.
Definition D : Team := "D"%string.
Definition league : list Team :=
  map (fun k => String (Ascii.ascii_of_nat (65 + k)) EmptyString) (seq 0 25).

(** a0 stands at the left edge of the board and carries the enemy
    flag. *)
Definition edge_carrier : BoardData :=
  {| map_size := 10;
     actors_coordinates := [(a0, at_ 0 4); (b0, at_ 1 4)];
     flags_coordinates := [(flagA, at_ 2 2); (flagB, at_ 0 4)];
     bases_coordinates := [(baseA, at_ 2 2); (baseB, at_ 7 7)];
     walls_coordinates := [];
     actors_flag := [(a0, Some flagB)];
     home_flag_required := true |}.
End Sample.

(** The test of [_try_put_actor] and its effect, for an actor at
    [coordinates]. *)
Definition can_enter (s : BoardData) (coordinates new_coordinates : Coordinates) : bool :=
  negb (key_eqb coordinates new_coordinates)
  && negb (is_some (coordinates_actors s new_coordinates))
  && negb (is_some (coordinates_bases s new_coordinates))
  && negb (contains (walls_coordinates s) new_coordinates).

Definition relocate (actor : Actor) (new_coordinates : Coordinates) (s : BoardData)
  : BoardData :=
  let s1 := set_actors_coordinates actor new_coordinates s in
  match flag_of s actor with
  | Some flag => set_flags_coordinates flag new_coordinates s1
  | None => s1
  end.

(** Every Flag of the board has its Base and every Base its Flag. *)
Definition teams_ok (s : BoardData) : Prop :=
  (forall f, In f (Dict.keys (flags_coordinates s)) ->
             exists c, Dict.get (bases_coordinates s) {| base_team := flag_team f |} = Some c)
  /\ (forall b, In b (Dict.keys (bases_coordinates s)) ->
                exists c, Dict.get (flags_coordinates s) {| flag_team := base_team b |} = Some c).

(** The Flag [f] scores for the Team [t]: it rests on the Base of [t],
    belongs to another Team, and the Flag of [t] is at home unless the
    rule is switched off. *)
Definition scores_for (s : BoardData) (f : Flag) (t : Team) : Prop :=
  (exists c, Dict.get (flags_coordinates s) f = Some c
             /\ Dict.get (bases_coordinates s) {| base_team := t |} = Some c)
  /\ flag_team f <> t
  /\ (home_flag_required s = false
      \/ exists c, Dict.get (flags_coordinates s) {| flag_team := t |} = Some c
                   /\ Dict.get (bases_coordinates s) {| base_team := t |} = Some c).

(** The body of the loop of [_check_score_conditions] for one Flag:
    the team that this Flag scores for, if any. *)
Definition scoring_team_of (s : BoardData) (f : Flag) : option Team :=
  match Dict.get (flags_coordinates s) f with
  | Some c =>
      match coordinates_bases s c with
      | Some b =>
          if negb (key_eqb (flag_team f) (base_team b)) then
            match Dict.get (flags_coordinates s) {| flag_team := base_team b |},
                  Dict.get (bases_coordinates s) {| base_team := base_team b |} with
            | Some own_flag, Some own_base =>
                if key_eqb own_flag own_base || negb (home_flag_required s)
                then Some (base_team b) else None
            | _, _ => None
            end
          else None
      | None => None
      end
  | None => None
  end.

(** The last Flag of a list that scores decides the team. *)
Definition last_scoring (s : BoardData) (flags : list Flag) (acc : option Team)
  : option Team :=
  fold_left (fun acc f => match scoring_team_of s f with
                          | Some t => Some t
                          | None => acc
                          end) flags acc.

(** The Flag that [_check_flag_return_conditions] sends home for an
    actor at [c]: the Flag that the index resolves at [c], when it
    belongs to the actor's team. *)
Definition returned_flag (s : BoardData) (a : Actor) (c : Coordinates) : option Flag :=
  match coordinates_flags s c with
  | Some f => if key_eqb (flag_team f) (team a) then Some f else None
  | None => None
  end.

(** The board after [_check_flag_return_conditions] has sent [f] to
    [home] for the actor [a]. *)
Definition after_return (a : Actor) (f : Flag) (home : Coordinates) (s : BoardData)
  : BoardData :=
  let s1 := set_flags_coordinates f home s in
  match flag_of s a with
  | Some _ => set_flag_of a None s1
  | None => s1
  end.

(** A computation of the engine relates the board before to the board
    after by [R], whenever it returns. *)
Definition frame {A : Type} (R : BoardData -> BoardData -> Prop) (m : M A) : Prop :=
  forall s a s', m s = Ok (a, s') -> R s s'.

(** The actors are where they were. *)
Definition same_actors (s s' : BoardData) : Prop :=
  actors_coordinates s' = actors_coordinates s.

(** The board after [_place_actor_in_area] has put [a] on [c]. *)
Definition respawned (a : Actor) (c : Coordinates) (s : BoardData) : BoardData :=
  set_actors_coordinates a c
    match flag_of s a with
    | Some _ => set_flag_of a None s
    | None => s
    end.

(** The cells among which [_respawn] chooses for the actor [a]. *)
Definition spawn_candidates (s : BoardData) (base_coordinates : Coordinates)
  : list Coordinates :=
  BoardActions.allowed_positions
    (BoardActions.possible_spawn_points (map_size s) base_coordinates)
    (BoardActions.forbidden_positions s).

(** The writes of [grabput_flag]: the flag put down on [target], the
    flag handed to the actor [t] on [target], and the flag [f] taken to
    the grabber's cell [own] from a cell whose occupant is [occupant]. *)
Definition put_down (a : Actor) (f : Flag) (target : Coordinates) (s : BoardData)
  : BoardData :=
  set_flag_of a None (set_flags_coordinates f target s).

Definition handed (a : Actor) (f : Flag) (target : Coordinates) (t : Actor)
  (s : BoardData) : BoardData :=
  set_flag_of t (Some f) (put_down a f target s).

Definition after_grab (a : Actor) (f : Flag) (own : Coordinates)
  (occupant : option Actor) (s : BoardData) : BoardData :=
  let s2 := set_flag_of a (Some f) (set_flags_coordinates f own s) in
  match occupant with
  | Some t => set_flag_of t None s2
  | None => s2
  end.


(** The squared Euclidean distance of two cells, and "the Euclidean
    distance of [c1] and [c2] is at least [d]". *)
Definition sq_distance (c1 c2 : Coordinates) : Z :=
  (x c1 - x c2) * (x c1 - x c2) + (y c1 - y c2) * (y c1 - y c2).

Definition at_least_apart (d : Z) (c1 c2 : Coordinates) : Prop :=
  Z.max 0 d * Z.max 0 d <= sq_distance c1 c2.

(** The window of [_get_area_positions] around [center]. *)
Definition in_window (d : Z) (center c : Coordinates) : Prop :=
  x center - d <= x c < x center + d /\ y center - d <= y c < y center + d.

Definition on_board (n : Z) (c : Coordinates) : Prop :=
  0 <= x c <= n - 1 /\ 0 <= y c <= n - 1.

(** The team [t] has its Base and its Flag, on the same cell. *)
Definition assigned (bd : BoardData) (t : Team) : Prop :=
  exists c, Dict.get (bases_coordinates bd) {| base_team := t |} = Some c
            /\ Dict.get (flags_coordinates bd) {| flag_team := t |} = Some c.

(** The invariant of the placement loop, before the team of index [i]
    is placed: the teams before it are assigned and spaced, and no cell
    of the pool lies in the window of one of their bases. *)
Record placement_inv (teams : list Team) (n d : Z) (i : nat)
  (available_places : list Coordinates) (bd : BoardData) : Prop := {
  inv_assigned :
    forall j t, (j < i)%nat -> nth_error teams j = Some t -> assigned bd t;
  inv_spaced :
    forall j1 j2 t1 t2 c1 c2,
      (j1 < i)%nat -> (j2 < i)%nat -> j1 <> j2 ->
      nth_error teams j1 = Some t1 -> nth_error teams j2 = Some t2 ->
      Dict.get (bases_coordinates bd) {| base_team := t1 |} = Some c1 ->
      Dict.get (bases_coordinates bd) {| base_team := t2 |} = Some c2 ->
      at_least_apart d c1 c2;
  inv_pool :
    forall c j t cb,
      In c available_places -> (j < i)%nat -> nth_error teams j = Some t ->
      Dict.get (bases_coordinates bd) {| base_team := t |} = Some cb ->
      ~ in_window d cb c;
  inv_board : forall c, In c available_places -> on_board n c
}.

(** The number of cells of a window of [_get_area_positions] that lies
    on the board: the window has side [2 * d]. *)
Definition window_cells (d : Z) : nat := (Z.to_nat (2 * d) * Z.to_nat (2 * d))%nat.

(** Only an actor that can grab holds a Flag: its grab probability is
    not zero. *)
Definition holders_can_grab (s : BoardData) : Prop :=
  forall a f, flag_of s a = Some f -> truthy (grab a) = true.

Definition keeps_holders (s s' : BoardData) : Prop :=
  holders_can_grab s -> holders_can_grab s'.

(** The actor at [c] stands at the edge of the board that the direction
    points to. *)
Definition at_edge (n : Z) (c : Coordinates) (d : Directions.t) : Prop :=
  match d with
  | Directions.right => x c = n - 1
  | Directions.left => x c = 0
  | Directions.up => y c = n - 1
  | Directions.down => y c = 0
  end.

(** The fixed part of the board: size, bases, walls and the rule. *)
Definition same_static (s s' : BoardData) : Prop :=
  map_size s' = map_size s
  /\ bases_coordinates s' = bases_coordinates s
  /\ walls_coordinates s' = walls_coordinates s
  /\ home_flag_required s' = home_flag_required s.

(** The same actors are on the board, in the same order. *)
Definition same_cast (s s' : BoardData) : Prop :=
  Dict.keys (actors_coordinates s') = Dict.keys (actors_coordinates s).

(** A held Flag is where its holder is. *)
Definition held_flags_follow (s : BoardData) : Prop :=
  forall a f,
    flag_of s a = Some f ->
    exists c, Dict.get (actors_coordinates s) a = Some c
              /\ Dict.get (flags_coordinates s) f = Some c.

(** [held_flags_follow], decided over the flag references. *)
Definition held_flags_followb (s : BoardData) : bool :=
  forallb (fun e => match snd e with
                    | Some f =>
                        match Dict.get (actors_coordinates s) (fst e),
                              Dict.get (flags_coordinates s) f with
                        | Some c, Some c' => key_eqb c c'
                        | _, _ => false
                        end
                    | None => true
                    end)
          (actors_flag s).

(** The starting cells of a base: the cells of its window of distance 2
    that are on the board, without the base itself. *)
Definition starting_cell (n : Z) (base c : Coordinates) : Prop :=
  in_window 2 base c /\ on_board n c /\ c <> base.

(** The writes of [_place_actors], one per pair of [zip]. *)
Definition place_all (pairs : list (Actor * Coordinates)) (bd : BoardData) : BoardData :=
  fold_left (fun bd' p => set_actors_coordinates (fst p) (snd p) bd') pairs bd.

(** The cells among which [_place_walls] chooses: the board without
    the areas of distance 3 around the bases. *)
Definition wall_candidates (n : Z) (bd : BoardData) : list Coordinates :=
  filter (fun c => negb (contains (BoardSetup.walls_forbidden n bd) c))
         (dedup (BoardSetup.all_positions n)).

(** What the placement loop keeps besides [placement_inv], before the
    team of index [i] is placed: a later base is outside the window of
    an earlier one, the pool and the bases placed are in the interior,
    and only the teams have bases and flags. *)
Record bases_inv (teams : list Team) (n d : Z) (i : nat)
  (available_places : list Coordinates) (bd : BoardData) : Prop := {
  binv_sep :
    forall j1 j2 t1 t2 c1 c2,
      (j1 < j2)%nat -> (j2 < i)%nat ->
      nth_error teams j1 = Some t1 -> nth_error teams j2 = Some t2 ->
      Dict.get (bases_coordinates bd) {| base_team := t1 |} = Some c1 ->
      Dict.get (bases_coordinates bd) {| base_team := t2 |} = Some c2 ->
      ~ in_window d c1 c2;
  binv_pool : forall c, In c available_places -> In c (BoardSetup.interior n);
  binv_inside :
    forall j t c,
      (j < i)%nat -> nth_error teams j = Some t ->
      Dict.get (bases_coordinates bd) {| base_team := t |} = Some c ->
      In c (BoardSetup.interior n);
  binv_bases_nodup : NoDup (Dict.keys (bases_coordinates bd));
  binv_bases_keys :
    forall b, In b (Dict.keys (bases_coordinates bd)) -> In (base_team b) teams;
  binv_flags_nodup : NoDup (Dict.keys (flags_coordinates bd));
  binv_flags_keys :
    forall f, In f (Dict.keys (flags_coordinates bd)) -> In (flag_team f) teams
}.

(** The parts of the board that the placement of bases and flags does
    not write. *)
Definition same_but_bases_and_flags (bd bd' : BoardData) : Prop :=
  actors_coordinates bd' = actors_coordinates bd
  /\ walls_coordinates bd' = walls_coordinates bd
  /\ actors_flag bd' = actors_flag bd
  /\ map_size bd' = map_size bd
  /\ home_flag_required bd' = home_flag_required bd.

(** The actors on the board belong to the [teams] and stand on starting
    cells of their team's base. *)
Definition actors_at_home (teams : list Team) (n : Z) (bd : BoardData) : Prop :=
  forall a c,
    Dict.get (actors_coordinates bd) a = Some c ->
    In (team a) teams
    /\ exists cb, Dict.get (bases_coordinates bd) {| base_team := team a |} = Some cb
                  /\ starting_cell n cb c.

(** The windows of distance 2 around the bases of two distinct teams
    share no cell. *)
Definition windows_disjoint (teams : list Team) (bd : BoardData) : Prop :=
  forall t1 t2 c1 c2 p,
    In t1 teams -> In t2 teams -> t1 <> t2 ->
    Dict.get (bases_coordinates bd) {| base_team := t1 |} = Some c1 ->
    Dict.get (bases_coordinates bd) {| base_team := t2 |} = Some c2 ->
    in_window 2 c1 p -> in_window 2 c2 p -> False.

(** The parts of the board that the placement of the actors does not
    write. *)
Definition same_but_actors (bd bd' : BoardData) : Prop :=
  same_static bd bd'
  /\ flags_coordinates bd' = flags_coordinates bd
  /\ actors_flag bd' = actors_flag bd.

(** What the loop over the teams keeps: the actors placed so far belong
    to the teams [done], stand on starting cells of their bases, one
    per cell. *)
Record teams_inv (teams done : list Team) (n : Z) (bd1 bd : BoardData) : Prop := {
  tinv_nodup : NoDup (Dict.keys (actors_coordinates bd));
  tinv_one : one_actor_per_cell bd;
  tinv_home : actors_at_home teams n bd;
  tinv_done :
    forall a c, Dict.get (actors_coordinates bd) a = Some c -> In (team a) done;
  tinv_rest : same_but_actors bd1 bd
}.

(** A board on which nothing has been placed. *)
Definition empty_board (bd : BoardData) : Prop :=
  actors_coordinates bd = [] /\ flags_coordinates bd = []
  /\ bases_coordinates bd = [] /\ actors_flag bd = [].

(** No sequence of choices empties the pool too early: with [k] teams
    still to place the pool is not empty, and whichever of its cells is
    chosen, the same holds of the filtered pool for the teams that
    follow. *)
Fixpoint always_room (k : nat) (n d : Z) (pool : list Coordinates) : bool :=
  match k with
  | O => true
  | S k' =>
      match pool with
      | [] => false
      | _ :: _ =>
          forallb
            (fun chosen =>
               always_room k' n d
                 (filter (fun c =>
                            negb (contains
                                    (BoardSetup._get_area_positions n chosen d) c))
                         pool))
            pool
      end
  end.

(** The choices [path], each the draw of one [random.choice], are made
    from nonempty pools and leave the pool empty after the last. *)
Fixpoint runs_dry (n d : Z) (path : list nat) (pool : list Coordinates) : bool :=
  match path, pool with
  | [], [] => true
  | k :: path', c0 :: _ =>
      runs_dry n d path'
        (filter (fun c =>
                   negb (contains
                           (BoardSetup._get_area_positions n
                              (nth (k mod List.length pool) pool c0) d) c))
                pool)
  | _, _ => false
  end.

(** The draws that repeat the choices of [path] for ever. *)
Definition repeat_path (path : list nat) : nat -> nat :=
  fun j => nth (j mod List.length path) path 0%nat.

(** [floor(sqrt(map_size^2 / teamCount) / 1.2) - 1] as the
    specification words [minimum_distance], in exact arithmetic: the
    floor of the square root of a rational is the integer square root
    of its floor. *)
Definition minimum_distance_formula (n : Z) (team_count : nat) : Z :=
  Z.sqrt ((25 * n * n) / (36 * Z.of_nat team_count)) - 1.

(** The test [c in _get_area_positions(center, d)], computed from the
    coordinates, and the placement loop with this test. *)
Definition in_areab (n d : Z) (center c : Coordinates) : bool :=
  (x center - d <=? x c) && (x c <? x center + d)
  && (y center - d <=? y c) && (y c <? y center + d)
  && (0 <=? x c) && (x c <=? n - 1) && (0 <=? y c) && (y c <=? n - 1).

Fixpoint place_loop_by_test (fuel : nat) (teams : list Team) (n d : Z)
  (draws : nat -> nat) (drawn : nat) (i : nat)
  (available_places : list Coordinates) (bd : BoardData) : option BoardData :=
  match fuel with
  | O => None
  | S fuel' =>
      match nth_error teams i with
      | None => Some bd
      | Some team =>
          match available_places with
          | [] =>
              place_loop_by_test fuel' teams n d draws drawn 0%nat
                                 (BoardSetup.interior n) bd
          | c0 :: _ =>
              let place_chosen :=
                nth (draws drawn mod List.length available_places)%nat
                    available_places c0 in
              place_loop_by_test fuel' teams n d draws (S drawn) (S i)
                (filter (fun c => negb (in_areab n d place_chosen c)) available_places)
                (set_flags_coordinates {| flag_team := team |} place_chosen
                   (set_bases_coordinates {| base_team := team |} place_chosen bd))
          end
      end
  end.

(** The Flags that the scoring check evaluates. *)
Definition evaluated_flags (s : BoardData) (flag_to_score : option Flag) : list Flag :=
  match flag_to_score with
  | Some f => [f]
  | None => Dict.keys (flags_coordinates s)
  end.

(** The Bases occupy pairwise distinct cells. *)
Definition bases_apart (s : BoardData) : Prop :=
  NoDup (Dict.values (bases_coordinates s)).

(* ================================================================== *)
(** * Laws of the keys and of the dictionaries *)

Class LawfulHashable (K : Type) {HK : Hashable K} : Prop :=
  key_eqb_eq : forall a b : K, key_eqb a b = true <-> a = b.
Arguments LawfulHashable K {HK}.

#[export] Instance Lawful_Team : LawfulHashable Team.
Proof. exact String.eqb_eq. Qed.

#[export] Instance Lawful_Coordinates : LawfulHashable Coordinates.
Proof.
  intros [ax ay] [bx b_y]; unfold key_eqb; simpl; unfold coordinates_eqb; simpl.
  rewrite andb_true_iff, !Z.eqb_eq. split; [intros [-> ->] | intros [= -> ->]]; auto.
Qed.

#[export] Instance Lawful_Flag : LawfulHashable Flag.
Proof.
  intros [s] [t]; unfold key_eqb; simpl.
  rewrite String.eqb_eq. split; congruence.
Qed.

#[export] Instance Lawful_Base : LawfulHashable Base.
Proof.
  intros [s] [t]; unfold key_eqb; simpl.
  rewrite String.eqb_eq. split; congruence.
Qed.

Lemma Q_eqb_eq (p q : Q) : Q_eqb p q = true <-> p = q.
Proof.
  destruct p as [pn pd], q as [qn qd]; unfold Q_eqb; simpl.
  rewrite andb_true_iff, Z.eqb_eq, Pos.eqb_eq.
  split; [intros [-> ->] | intros [= -> ->]]; auto.
Qed.

#[export] Instance Lawful_Actor : LawfulHashable Actor.
Proof.
  intros [i s g k] [j t h l]; unfold key_eqb; simpl; unfold actor_eqb; simpl.
  rewrite !andb_true_iff, Nat.eqb_eq, String.eqb_eq, !Q_eqb_eq.
  split; [intros [[[-> ->] ->] ->] | intros [= -> -> -> ->]]; auto.
Qed.

Lemma key_eqb_spec {K} {HK : Hashable K} {LK : LawfulHashable K} (a b : K) :
  reflect (a = b) (key_eqb a b).
Proof.
  destruct (key_eqb a b) eqn:E; constructor.
  - now apply key_eqb_eq.
  - intros H. apply key_eqb_eq in H. congruence.
Qed.

Lemma key_eqb_refl {K} {HK : Hashable K} {LK : LawfulHashable K} (a : K) :
  key_eqb a a = true.
Proof. destruct (key_eqb_spec a a); congruence. Qed.

Lemma key_eqb_neq {K} {HK : Hashable K} {LK : LawfulHashable K} (a b : K) :
  key_eqb a b = false <-> a <> b.
Proof. destruct (key_eqb_spec a b); split; congruence. Qed.

Lemma contains_In {A} {HA : Hashable A} {LA : LawfulHashable A}
  (l : list A) (c : A) : contains l c = true <-> In c l.
Proof.
  unfold contains. rewrite existsb_exists. split.
  - intros [a [Hin Heq]]. apply key_eqb_eq in Heq. now subst.
  - intros Hin. exists c. split; [assumption | apply key_eqb_refl].
Qed.

Lemma contains_not_In {A} {HA : Hashable A} {LA : LawfulHashable A}
  (l : list A) (c : A) : contains l c = false <-> ~ In c l.
Proof.
  rewrite <- contains_In. destruct (contains l c); split; congruence.
Qed.

Lemma nodupb_NoDup {A} {HA : Hashable A} {LA : LawfulHashable A} (l : list A) :
  nodupb l = true <-> NoDup l.
Proof.
  induction l as [|a l IH]; simpl.
  - split; [constructor | reflexivity].
  - rewrite andb_true_iff, negb_true_iff, contains_not_In, IH. split.
    + intros [H1 H2]. now constructor.
    + intros H. inversion H. now split.
Qed.

Module DictFacts.
Section Facts.
Context {K V : Type} {HK : Hashable K} {LK : LawfulHashable K}.
Implicit Types (d : list (K * V)) (k : K) (v : V).

Lemma get_set_eq d k v : Dict.get (Dict.set d k v) k = Some v.
Proof.
  induction d as [|[k' v'] d IH]; simpl.
  - now rewrite key_eqb_refl.
  - destruct (key_eqb k' k) eqn:E; simpl; rewrite E; auto.
Qed.

Lemma get_set_ne d k k' v :
  k <> k' -> Dict.get (Dict.set d k v) k' = Dict.get d k'.
Proof.
  intros Hne. induction d as [|[k0 v0] d IH]; simpl.
  - apply key_eqb_neq in Hne. now rewrite Hne.
  - destruct (key_eqb k0 k) eqn:E; simpl.
    + apply key_eqb_eq in E. subst k0.
      apply key_eqb_neq in Hne. now rewrite Hne.
    + destruct (key_eqb k0 k'); auto.
Qed.

Lemma get_In d k v : Dict.get d k = Some v -> In (k, v) d.
Proof.
  induction d as [|[k0 v0] d IH]; simpl; [discriminate|].
  destruct (key_eqb k0 k) eqn:E.
  - apply key_eqb_eq in E. intros [= <-]. left. congruence.
  - auto.
Qed.

Lemma In_get_some d k v : In (k, v) d -> exists v', Dict.get d k = Some v'.
Proof.
  induction d as [|[k0 v0] d IH]; simpl; [tauto|].
  intros [[= -> ->] | Hin].
  - rewrite key_eqb_refl. eauto.
  - destruct (key_eqb k0 k); eauto.
Qed.

Lemma In_keys_get d k : In k (Dict.keys d) -> exists v, Dict.get d k = Some v.
Proof.
  unfold Dict.keys. rewrite in_map_iff. intros [[k0 v0] [E Hin]].
  simpl in E. subst k0. eapply In_get_some; eauto.
Qed.

Lemma In_get_nodup d k v :
  NoDup (Dict.keys d) -> In (k, v) d -> Dict.get d k = Some v.
Proof.
  induction d as [|[k0 v0] d IH]; simpl; [tauto|].
  intros Hnd Hin. inversion Hnd as [|? ? Hnotin Hnd']; subst.
  destruct Hin as [[= -> ->] | Hin].
  - now rewrite key_eqb_refl.
  - destruct (key_eqb_spec k0 k) as [->|Hne]; auto.
    exfalso. apply Hnotin. unfold Dict.keys.
    change k with (fst (k, v)). now apply in_map.
Qed.

Lemma keys_set_in d k v v0 :
  Dict.get d k = Some v0 -> Dict.keys (Dict.set d k v) = Dict.keys d.
Proof.
  induction d as [|[k1 v1] d IH]; simpl; [discriminate|].
  destruct (key_eqb k1 k) eqn:E; simpl; [reflexivity|].
  intros Hg. f_equal. now apply IH.
Qed.

Lemma keys_set d k v :
  Dict.keys (Dict.set d k v) = Dict.keys d
  \/ Dict.keys (Dict.set d k v) = Dict.keys d ++ [k].
Proof.
  induction d as [|[k1 v1] d IH]; simpl; [now right|].
  destruct (key_eqb k1 k) eqn:E; simpl; [now left|].
  destruct IH as [IH|IH]; rewrite IH; auto.
Qed.

Lemma In_set d k v k' v' :
  In (k', v') (Dict.set d k v) -> (k' = k /\ v' = v) \/ (k' <> k /\ In (k', v') d)
                                  \/ (k' = k /\ In (k', v') d).
Proof.
  induction d as [|[k1 v1] d IH]; simpl.
  - intros [[= <- <-]|[]]. now left.
  - destruct (key_eqb_spec k1 k) as [->|Hne]; simpl.
    + intros [[= <- <-]|Hin]; [now left|].
      destruct (key_eqb_spec k' k) as [->|Hne']; [right; right|right; left]; auto.
    + intros [[= <- <-]|Hin].
      * right. left. auto.
      * destruct (IH Hin) as [?|[[? ?]|[? ?]]]; auto.
Qed.

Lemma NoDup_keys_set d k v :
  NoDup (Dict.keys d) -> NoDup (Dict.keys (Dict.set d k v)).
Proof.
  induction d as [|[k1 v1] d IH]; simpl.
  - intros _. constructor; [tauto | constructor].
  - intros Hnd. inversion Hnd as [|? ? Hnotin Hnd']; subst.
    destruct (key_eqb_spec k1 k) as [->|Hne]; simpl.
    + now constructor.
    + constructor; [|now apply IH].
      intros Hin. destruct (keys_set d k v) as [E|E]; rewrite E in Hin.
      * contradiction.
      * apply in_app_or in Hin. destruct Hin as [Hin|[Hin|[]]]; congruence.
Qed.

Lemma values_set d k v c :
  In c (Dict.values (Dict.set d k v)) -> c = v \/ In c (Dict.values d).
Proof.
  induction d as [|[k1 v1] d IH]; simpl.
  - intros [<-|[]]. now left.
  - destruct (key_eqb k1 k); simpl.
    + intros [<-|Hin]; auto.
    + intros [<-|Hin]; auto. destruct (IH Hin); auto.
Qed.
End Facts.

Section InverseFacts.
Context {K V : Type} {HV : Hashable V} {LV : LawfulHashable V}.
Implicit Types (d : list (K * V)) (k : K) (c : V).

Lemma inverse_get_Some d c k :
  Dict.inverse_get d c = Some k -> In (k, c) d.
Proof.
  induction d as [|[k0 v0] d IH]; simpl; [discriminate|].
  destruct (Dict.inverse_get d c) as [k'|].
  - intros [= <-]. auto.
  - destruct (key_eqb_spec v0 c) as [->|]; [|discriminate].
    intros [= <-]. now left.
Qed.

Lemma inverse_get_None d c :
  Dict.inverse_get d c = None <-> ~ In c (Dict.values d).
Proof.
  induction d as [|[k0 v0] d IH]; simpl.
  - tauto.
  - destruct (Dict.inverse_get d c) as [k'|].
    + split; [discriminate|]. intros Hn. exfalso.
      assert (Hd : ~ In c (Dict.values d)) by tauto.
      apply IH in Hd. discriminate.
    + destruct (key_eqb_spec v0 c) as [->|Hne].
      * split; [discriminate|]. tauto.
      * split; [|reflexivity]. intros _ [?|Hin]; [congruence|].
        now apply IH in Hin.
Qed.

Lemma inverse_get_is_some d c :
  In c (Dict.values d) -> exists k, Dict.inverse_get d c = Some k.
Proof.
  intros Hin. destruct (Dict.inverse_get d c) as [k|] eqn:E; eauto.
  apply inverse_get_None in E. contradiction.
Qed.
End InverseFacts.

Lemma In_values {K V} (d : list (K * V)) (k : K) (v : V) :
  In (k, v) d -> In v (Dict.values d).
Proof.
  intros Hin. unfold Dict.values. change v with (snd (k, v)). now apply in_map.
Qed.

Lemma values_In {K V} (d : list (K * V)) (v : V) :
  In v (Dict.values d) -> exists k, In (k, v) d.
Proof.
  unfold Dict.values. rewrite in_map_iff. intros [[k v'] [E Hin]].
  simpl in E. subst. eauto.
Qed.
End DictFacts.

(* ================================================================== *)
(** * Facts about well-formed boards *)

Section WellFormed.
Variable s : BoardData.
Hypothesis Hwf : board_wf s.

Lemma wf_actors : NoDup (Dict.keys (actors_coordinates s)).
Proof.
  unfold board_wf, board_wfb in Hwf. rewrite !andb_true_iff in Hwf.
  now apply nodupb_NoDup.
Qed.

Lemma wf_flags : NoDup (Dict.keys (flags_coordinates s)).
Proof.
  unfold board_wf, board_wfb in Hwf. rewrite !andb_true_iff in Hwf.
  now apply nodupb_NoDup.
Qed.

Lemma wf_bases : NoDup (Dict.keys (bases_coordinates s)).
Proof.
  unfold board_wf, board_wfb in Hwf. rewrite !andb_true_iff in Hwf.
  now apply nodupb_NoDup.
Qed.

Lemma wf_teams_ok : teams_ok s.
Proof.
  unfold board_wf, board_wfb in Hwf. rewrite !andb_true_iff in Hwf.
  destruct Hwf as [[[_ Hb] Hf] _]. rewrite forallb_forall in Hb, Hf.
  split.
  - intros f Hin. specialize (Hf f Hin).
    destruct (Dict.get (bases_coordinates s) _); [eauto | discriminate].
  - intros b Hin. specialize (Hb b Hin).
    destruct (Dict.get (flags_coordinates s) _); [eauto | discriminate].
Qed.

Lemma wf_carried a f :
  flag_of s a = Some f -> exists c, Dict.get (flags_coordinates s) f = Some c.
Proof.
  unfold board_wf, board_wfb in Hwf. rewrite !andb_true_iff in Hwf.
  destruct Hwf as [_ Hc]. rewrite forallb_forall in Hc.
  unfold flag_of. destruct (Dict.get (actors_flag s) a) as [o|] eqn:E; [|discriminate].
  intros ->. apply DictFacts.get_In in E. specialize (Hc _ E). simpl in Hc.
  destruct (Dict.get (flags_coordinates s) f); [eauto | discriminate].
Qed.
End WellFormed.

Lemma get_In_keys {K V} {HK : Hashable K} {LK : LawfulHashable K}
  (d : list (K * V)) (k : K) (v : V) :
  Dict.get d k = Some v -> In k (Dict.keys d).
Proof.
  intros Hg. apply DictFacts.get_In in Hg. unfold Dict.keys.
  change k with (fst (k, v)). now apply in_map.
Qed.

Lemma teams_ok_set_flags s f c c0 :
  teams_ok s -> Dict.get (flags_coordinates s) f = Some c0 ->
  teams_ok (set_flags_coordinates f c s).
Proof.
  intros [Hf Hb] Hg. split; simpl.
  - rewrite (DictFacts.keys_set_in _ _ _ Hg). exact Hf.
  - intros b Hin. destruct (Hb b Hin) as [c' Hc'].
    destruct (key_eqb_spec f {| flag_team := base_team b |}) as [<-|Hne].
    + rewrite DictFacts.get_set_eq. eauto.
    + rewrite DictFacts.get_set_ne by assumption. eauto.
Qed.

Lemma teams_ok_set_actors s a c :
  teams_ok s -> teams_ok (set_actors_coordinates a c s).
Proof. intros H. exact H. Qed.

Lemma teams_ok_set_flag_of s a o :
  teams_ok s -> teams_ok (set_flag_of a o s).
Proof. intros H. exact H. Qed.

Lemma flag_of_set_flag_of_eq s a o : flag_of (set_flag_of a o s) a = o.
Proof. unfold flag_of; simpl. now rewrite DictFacts.get_set_eq. Qed.

Lemma flag_of_set_flag_of_ne s a a' o :
  a <> a' -> flag_of (set_flag_of a o s) a' = flag_of s a'.
Proof. intros H. unfold flag_of; simpl. now rewrite DictFacts.get_set_ne. Qed.

(* ================================================================== *)
(** * The scoring check *)

Import BoardActions.

(** Equations of the monad, one per primitive. *)
Lemma bind_gets {A B} (g : BoardData -> A) (f : A -> M B) s :
  bind (gets g) f s = f (g s) s.
Proof. reflexivity. Qed.

Lemma bind_modify {B} (g : BoardData -> BoardData) (f : unit -> M B) s :
  bind (modify g) f s = f tt (g s).
Proof. reflexivity. Qed.

Lemma bind_ret {A B} (a : A) (f : A -> M B) s : bind (ret a) f s = f a s.
Proof. reflexivity. Qed.

Lemma bind_subscript {K V B} {HK : Hashable K}
  (d : BoardData -> list (K * V)) (k : K) (v : V) (f : V -> M B) s :
  Dict.get (d s) k = Some v -> bind (subscript d k) f s = f v s.
Proof. intros H. unfold bind, subscript. now rewrite H. Qed.

Lemma bind_bind {A B C} (m : M A) (f : A -> M B) (g : B -> M C) s :
  bind (bind m f) g s = bind m (fun a => bind (f a) g) s.
Proof. unfold bind. destruct (m s) as [[a s']|e]; reflexivity. Qed.

Lemma bind_ok {A B} (m : M A) (f : A -> M B) s a s' :
  m s = Ok (a, s') -> bind m f s = f a s'.
Proof. intros H. unfold bind. now rewrite H. Qed.

(** One step of a computation of the engine. *)
Ltac mstep :=
  first [ rewrite bind_gets | rewrite bind_modify | rewrite bind_ret
        | erewrite bind_subscript by eassumption ];
  cbv beta iota.

(** The loop reads the board and leaves it as it is; on a board where
    every team has its Base and its Flag it does not raise, and the
    last Flag that scores decides the result. *)
Lemma last_scoring_cons s f rest acc :
  last_scoring s (f :: rest) acc
  = last_scoring s rest (match scoring_team_of s f with
                         | Some t => Some t
                         | None => acc
                         end).
Proof. reflexivity. Qed.

Lemma score_loop_eq s flags acc :
  teams_ok s ->
  (forall f, In f flags -> In f (Dict.keys (flags_coordinates s))) ->
  score_loop flags acc s = Ok (last_scoring s flags acc, s).
Proof.
  intros [Hf Hb] Hin. revert acc.
  induction flags as [|f rest IH]; intros acc; cbn [score_loop].
  - reflexivity.
  - assert (Hrest : forall f', In f' rest -> In f' (Dict.keys (flags_coordinates s)))
      by (intros; apply Hin; now right).
    specialize (IH Hrest).
    destruct (DictFacts.In_keys_get _ _ (Hin f (or_introl eq_refl))) as [c Hc].
    rewrite last_scoring_cons.
    unfold scoring_team_of. rewrite Hc.
    do 2 mstep.
    destruct (coordinates_bases s c) as [b|] eqn:Eb; [|apply IH].
    destruct (negb (key_eqb (flag_team f) (base_team b))); cbv beta iota;
      [|apply IH].
    apply DictFacts.inverse_get_Some in Eb.
    assert (Hbk : In b (Dict.keys (bases_coordinates s))).
    { unfold Dict.keys. change b with (fst (b, c)). now apply in_map. }
    destruct (Hb b Hbk) as [cf Hcf].
    destruct (DictFacts.In_keys_get _ _ Hbk) as [cb Hcb].
    destruct b as [tb]; cbn [base_team] in *.
    do 3 mstep. rewrite Hcf, Hcb.
    destruct (key_eqb cf cb || negb (home_flag_required s)); cbv beta iota;
      apply IH.
Qed.

Lemma last_scoring_spec s flags acc T :
  last_scoring s flags acc = Some T <->
  (exists l1 f l2, flags = l1 ++ f :: l2 /\ scoring_team_of s f = Some T
                   /\ forall f', In f' l2 -> scoring_team_of s f' = None)
  \/ (acc = Some T /\ forall f', In f' flags -> scoring_team_of s f' = None).
Proof.
  revert acc. induction flags as [|f rest IH]; intros acc.
  - simpl. split.
    + intros ->. right. split; [reflexivity | intros ? []].
    + intros [[l1 [f [l2 [E _]]]] | [-> _]]; [|reflexivity].
      destruct l1; discriminate.
  - rewrite last_scoring_cons, IH. split.
    + intros [[l1 [g [l2 [-> [Hg Hl2]]]]] | [Hacc Hrest]].
      * left. exists (f :: l1), g, l2. auto.
      * destruct (scoring_team_of s f) as [t|] eqn:Ef.
        -- injection Hacc as ->. left. exists [], f, rest. auto.
        -- right. split; [assumption|]. intros f' [<-|Hin]; auto.
    + intros [[l1 [g [l2 [E [Hg Hl2]]]]] | [-> Hall]].
      * destruct l1 as [|f0 l1]; simpl in E; injection E as -> ->.
        -- right. rewrite Hg. auto.
        -- left. exists l1, g, l2. auto.
      * right. rewrite (Hall f (or_introl eq_refl)). split; [reflexivity|].
        intros f' Hin. apply Hall. now right.
Qed.

Lemma NoDup_values_inj {K V} (d : list (K * V)) k1 k2 v :
  NoDup (Dict.values d) -> In (k1, v) d -> In (k2, v) d -> k1 = k2.
Proof.
  induction d as [|[k0 v0] d IH]; simpl; [tauto|].
  intros Hnd H1 H2. inversion Hnd as [|? ? Hnotin Hnd']; subst.
  destruct H1 as [E1|H1], H2 as [E2|H2]; auto.
  - congruence.
  - injection E1 as -> ->. exfalso. apply Hnotin.
    eapply DictFacts.In_values; eauto.
  - injection E2 as -> ->. exfalso. apply Hnotin.
    eapply DictFacts.In_values; eauto.
Qed.

Lemma scoring_team_of_spec s f T :
  board_wf s -> bases_apart s ->
  scoring_team_of s f = Some T <-> scores_for s f T.
Proof.
  intros Hwf Hapart. unfold scoring_team_of, scores_for. split.
  - destruct (Dict.get (flags_coordinates s) f) as [c|] eqn:Hc; [|discriminate].
    destruct (coordinates_bases s c) as [[tb]|] eqn:Eb; [|discriminate].
    cbn [base_team].
    destruct (key_eqb_spec (flag_team f) tb) as [E|Hne]; [discriminate|].
    cbn [negb].
    destruct (Dict.get (flags_coordinates s) {| flag_team := tb |}) as [cf|] eqn:Hcf;
      [|discriminate].
    destruct (Dict.get (bases_coordinates s) {| base_team := tb |}) as [cb|] eqn:Hcb;
      [|discriminate].
    apply DictFacts.inverse_get_Some in Eb.
    apply (DictFacts.In_get_nodup _ _ _ (wf_bases Hwf)) in Eb.
    assert (cb = c) by congruence. subst cb.
    destruct (key_eqb_spec cf c) as [->|Hne']; cbn [orb].
    + intros [= <-]. repeat split; eauto.
    + destruct (home_flag_required s); [discriminate|].
      intros [= <-]. repeat split; eauto.
  - intros [[c [Hc Hb]] [Hne Hhome]]. rewrite Hc.
    assert (Eb : coordinates_bases s c = Some {| base_team := T |}).
    { destruct (DictFacts.inverse_get_is_some (bases_coordinates s) c) as [b' Hb'].
      - eapply DictFacts.In_values. apply DictFacts.get_In. exact Hb.
      - unfold coordinates_bases. rewrite Hb'. f_equal.
        apply DictFacts.inverse_get_Some in Hb'.
        eapply NoDup_values_inj; eauto. now apply DictFacts.get_In. }
    rewrite Eb. cbn [base_team].
    destruct (key_eqb_spec (flag_team f) T) as [E|_]; [contradiction|].
    cbn [negb]. rewrite Hb.
    destruct (proj2 (wf_teams_ok Hwf) {| base_team := T |}) as [cf Hcf].
    { eapply get_In_keys; eauto. }
    cbn [base_team] in Hcf. rewrite Hcf.
    destruct Hhome as [-> | [c' [H1 H2]]].
    + now rewrite orb_true_r.
    + assert (cf = c) by congruence. subst. now rewrite key_eqb_refl.
Qed.

(** C2 (as amended).  On a well-formed board whose Bases occupy distinct
    cells, the scoring check over one named Flag of the board or over
    all Flags returns without raising and leaves the board as it is; it
    reports the team [T] if and only if [T] is the team that the last
    evaluated Flag that scores (in the order of evaluation) scores for:
    that Flag rests on the Base of [T], belongs to another team, and the
    Flag of [T] is at the Base of [T] unless the home-flag rule is
    disabled.  When Flags score for several teams, only the last is
    reported. *)
Theorem check_score_conditions_reports_last s flag_to_score :
  board_wf s -> bases_apart s ->
  (forall f, flag_to_score = Some f -> In f (Dict.keys (flags_coordinates s))) ->
  exists r,
    _check_score_conditions flag_to_score s = Ok (r, s)
    /\ forall T,
         r = Some T <->
         exists l1 f l2,
           evaluated_flags s flag_to_score = l1 ++ f :: l2
           /\ scores_for s f T
           /\ forall f' T', In f' l2 -> ~ scores_for s f' T'.
Proof.
  intros Hwf Hapart Hnamed.
  exists (last_scoring s (evaluated_flags s flag_to_score) None). split.
  - unfold _check_score_conditions.
    destruct flag_to_score as [f|]; mstep; cbn [evaluated_flags];
      apply score_loop_eq; try (now apply wf_teams_ok); auto.
    intros f' [<-|[]]. now apply Hnamed.
  - intros T. rewrite last_scoring_spec. split.
    + intros [[l1 [f [l2 [E [Hf Hl2]]]]] | [[=] _]].
      exists l1, f, l2. split; [assumption|]. split.
      * now apply scoring_team_of_spec.
      * intros f' T' Hin Hs. apply scoring_team_of_spec in Hs; auto.
        rewrite (Hl2 f' Hin) in Hs. discriminate.
    + intros [l1 [f [l2 [E [Hf Hl2]]]]]. left.
      exists l1, f, l2. split; [assumption|]. split.
      * now apply scoring_team_of_spec.
      * intros f' Hin. destruct (scoring_team_of s f') as [T'|] eqn:E'; auto.
        apply scoring_team_of_spec in E'; auto. exfalso. eapply Hl2; eauto.
Qed.

Lemma check_score_conditions_reports_last_witness :
  board_wf Sample.swapped /\ bases_apart Sample.swapped
  /\ exists r,
    _check_score_conditions None Sample.swapped = Ok (r, Sample.swapped)
    /\ forall T,
         r = Some T <->
         exists l1 f l2,
           evaluated_flags Sample.swapped None = l1 ++ f :: l2
           /\ scores_for Sample.swapped f T
           /\ forall f' T', In f' l2 -> ~ scores_for Sample.swapped f' T'.
Proof.
  assert (Hapart : bases_apart Sample.swapped).
  { apply nodupb_NoDup. reflexivity. }
  split; [reflexivity|]. split; [exact Hapart|].
  apply check_score_conditions_reports_last.
  - reflexivity.
  - exact Hapart.
  - discriminate.
Defined.

(** C2, the claim as stated, fails: with each Flag on the other team's
    Base and the home-flag rule disabled, both teams fulfil the
    conditions, and the check over all Flags reports team A only. *)
Lemma check_score_conditions_not_every_team :
  board_wf Sample.swapped
  /\ _check_score_conditions None Sample.swapped = Ok (Some Sample.A, Sample.swapped)
  /\ In Sample.flagA (evaluated_flags Sample.swapped None)
  /\ scores_for Sample.swapped Sample.flagA Sample.B
  /\ Some Sample.A <> Some Sample.B.
Proof.
  split; [reflexivity|]. split; [reflexivity|]. split; [simpl; auto|]. split.
  - unfold scores_for. split; [|split].
    + exists (Sample.at_ 7 7). split; reflexivity.
    + discriminate.
    + left. reflexivity.
  - discriminate.
Qed.

(* ================================================================== *)
(** * The flag-return check *)

Lemma check_flag_return_none s a c :
  Dict.get (actors_coordinates s) a = Some c ->
  returned_flag s a c = None ->
  _check_flag_return_conditions a s = Ok (None, s).
Proof.
  intros Hc Hr. unfold _check_flag_return_conditions, returned_flag in *.
  do 2 mstep.
  destruct (contains (Dict.values (flags_coordinates s)) c) eqn:Ec; [|reflexivity].
  unfold bind at 1.
  destruct (coordinates_flags s c) as [f|] eqn:Ef.
  - destruct (key_eqb (flag_team f) (team a)); [discriminate | reflexivity].
  - apply contains_In in Ec. apply DictFacts.inverse_get_None in Ef. contradiction.
Qed.

Lemma check_score_conditions_all s :
  teams_ok s ->
  _check_score_conditions None s
  = Ok (last_scoring s (Dict.keys (flags_coordinates s)) None, s).
Proof.
  intros Hok. unfold _check_score_conditions. mstep.
  apply score_loop_eq; auto.
Qed.

Lemma check_flag_return_some s a c f :
  teams_ok s ->
  Dict.get (actors_coordinates s) a = Some c ->
  returned_flag s a c = Some f ->
  exists home,
    Dict.get (bases_coordinates s) {| base_team := flag_team f |} = Some home
    /\ In (f, c) (flags_coordinates s)
    /\ flag_team f = team a
    /\ _check_flag_return_conditions a s
       = Ok (last_scoring (set_flags_coordinates f home s)
                          (Dict.keys (flags_coordinates s)) None,
             after_return a f home s).
Proof.
  intros Hok Hc Hr. unfold returned_flag in Hr.
  destruct (coordinates_flags s c) as [g|] eqn:Eg; [|discriminate].
  destruct (key_eqb_spec (flag_team g) (team a)) as [Et|]; [|discriminate].
  injection Hr as ->.
  pose proof (DictFacts.inverse_get_Some _ _ Eg) as Hin.
  destruct (DictFacts.In_get_some _ _ _ Hin) as [c0 Hc0].
  destruct (proj1 Hok f (get_In_keys _ _ Hc0)) as [home Hhome].
  exists home. repeat split; auto.
  unfold _check_flag_return_conditions. do 2 mstep.
  assert (Ec : contains (Dict.values (flags_coordinates s)) c = true).
  { apply contains_In. eapply DictFacts.In_values; eauto. }
  rewrite Ec. unfold bind at 1. rewrite Eg.
  assert (Ek : key_eqb (flag_team f) (team a) = true) by now apply key_eqb_eq.
  rewrite Ek. unfold _return_flag_to_base.
  rewrite bind_bind. mstep. mstep.
  pose proof (teams_ok_set_flags f home Hok Hc0) as Hok1.
  erewrite bind_ok by (apply check_score_conditions_all; exact Hok1).
  mstep. unfold after_return.
  change (flag_of (set_flags_coordinates f home s) a) with (flag_of s a).
  cbn [flags_coordinates set_flags_coordinates].
  rewrite (DictFacts.keys_set_in _ _ _ Hc0).
  destruct (flag_of s a); [mstep|]; reflexivity.
Qed.

(* ================================================================== *)
(** * Moving *)

Lemma calc_target_coordinates_ok s a d c :
  Dict.get (actors_coordinates s) a = Some c ->
  calc_target_coordinates a d s = Ok (step (map_size s) c d, s).
Proof.
  intros Hc. unfold calc_target_coordinates. do 2 mstep. reflexivity.
Qed.

Lemma try_put_actor_eq s a c new :
  Dict.get (actors_coordinates s) a = Some c ->
  _try_put_actor a new s
  = Ok (can_enter s c new, if can_enter s c new then relocate a new s else s).
Proof.
  intros Hc. unfold _try_put_actor, can_enter, relocate. do 4 mstep.
  destruct (key_eqb c new); cbn [negb andb]; [reflexivity|].
  destruct (coordinates_actors s new); cbn [is_some negb andb]; [reflexivity|].
  destruct (coordinates_bases s new); cbn [is_some negb andb]; [reflexivity|].
  destruct (contains (walls_coordinates s) new); cbn [negb]; [reflexivity|].
  do 2 mstep.
  change (flag_of (set_actors_coordinates a new s) a) with (flag_of s a).
  destruct (flag_of s a); [mstep|]; reflexivity.
Qed.

Lemma can_enter_spec s a c new :
  board_wf s ->
  Dict.get (actors_coordinates s) a = Some c ->
  can_enter s c new = true <->
  new <> c /\ ~ occupied_by_other s a new /\ ~ is_base s new /\ ~ is_wall s new.
Proof.
  intros Hwf Hc. unfold can_enter.
  rewrite !andb_true_iff, !negb_true_iff, key_eqb_neq, contains_not_In.
  split.
  - intros [[[Hne Ha] Hb] Hw]. repeat split; auto.
    + intros [a' [_ Ha']].
      unfold coordinates_actors in Ha.
      destruct (Dict.inverse_get (actors_coordinates s) new) eqn:E; [discriminate|].
      apply DictFacts.inverse_get_None in E. apply E.
      eapply DictFacts.In_values. apply DictFacts.get_In. exact Ha'.
    + intros [b Hb'].
      unfold coordinates_bases in Hb.
      destruct (Dict.inverse_get (bases_coordinates s) new) eqn:E; [discriminate|].
      apply DictFacts.inverse_get_None in E. apply E.
      eapply DictFacts.In_values. apply DictFacts.get_In. exact Hb'.
  - intros [Hne [Ha [Hb Hw]]]. repeat split; auto.
    + unfold coordinates_actors.
      destruct (Dict.inverse_get (actors_coordinates s) new) as [a'|] eqn:E;
        [|reflexivity].
      exfalso. apply Ha. exists a'.
      apply DictFacts.inverse_get_Some in E.
      apply (DictFacts.In_get_nodup _ _ _ (wf_actors Hwf)) in E.
      split; [|assumption]. intros ->. congruence.
    + unfold coordinates_bases.
      destruct (Dict.inverse_get (bases_coordinates s) new) as [b|] eqn:E;
        [|reflexivity].
      exfalso. apply Hb. exists b.
      apply DictFacts.inverse_get_Some in E.
      now apply (DictFacts.In_get_nodup _ _ _ (wf_bases Hwf)) in E.
Qed.

Lemma teams_ok_relocate s a new :
  board_wf s -> teams_ok (relocate a new s).
Proof.
  intros Hwf. unfold relocate.
  destruct (flag_of s a) as [f|] eqn:Ef.
  - destruct (wf_carried Hwf _ Ef) as [c0 Hc0].
    eapply teams_ok_set_flags; [|exact Hc0].
    apply teams_ok_set_actors. now apply wf_teams_ok.
  - apply teams_ok_set_actors. now apply wf_teams_ok.
Qed.

Lemma actors_coordinates_relocate s a new :
  actors_coordinates (relocate a new s) = Dict.set (actors_coordinates s) a new.
Proof. unfold relocate. destruct (flag_of s a); reflexivity. Qed.

Lemma actors_coordinates_after_return s a f home :
  actors_coordinates (after_return a f home s) = actors_coordinates s.
Proof. unfold after_return. destruct (flag_of s a); reflexivity. Qed.

Lemma flags_coordinates_after_return s a f home :
  flags_coordinates (after_return a f home s)
  = Dict.set (flags_coordinates s) f home.
Proof. unfold after_return. destruct (flag_of s a); reflexivity. Qed.

Lemma bases_coordinates_after_return s a f home :
  bases_coordinates (after_return a f home s) = bases_coordinates s.
Proof. unfold after_return. destruct (flag_of s a); reflexivity. Qed.

Lemma flags_coordinates_relocate s a new f :
  flag_of s a = Some f ->
  flags_coordinates (relocate a new s) = Dict.set (flags_coordinates s) f new.
Proof. intros H. unfold relocate. now rewrite H. Qed.

(** The whole of [move], as one equation. *)
Lemma move_eq s a d c :
  board_wf s ->
  Dict.get (actors_coordinates s) a = Some c ->
  let target := step (map_size s) c d in
  let s1 := relocate a target s in
  move a d s =
  if can_enter s c target then
    match returned_flag s1 a target with
    | Some f =>
        match Dict.get (bases_coordinates s) {| base_team := flag_team f |} with
        | Some home =>
            Ok (true, last_scoring (set_flags_coordinates f home s1)
                                   (Dict.keys (flags_coordinates s1)) None,
                after_return a f home s1)
        | None => Raise KeyError
        end
    | None => Ok (true, None, s1)
    end
  else Ok (false, None, s).
Proof.
  intros Hwf Hc target s1. unfold move.
  erewrite bind_ok by (apply calc_target_coordinates_ok; exact Hc).
  erewrite bind_ok by (apply try_put_actor_eq; exact Hc).
  fold target. destruct (can_enter s c target) eqn:Ecan; [|reflexivity].
  fold s1.
  assert (Hc1 : Dict.get (actors_coordinates s1) a = Some target).
  { unfold s1. rewrite actors_coordinates_relocate. apply DictFacts.get_set_eq. }
  destruct (returned_flag s1 a target) as [f|] eqn:Er.
  - destruct (check_flag_return_some a (teams_ok_relocate a target Hwf) Hc1 Er)
      as [home [Hhome [_ [_ Heq]]]].
    fold s1 in Heq. erewrite bind_ok by exact Heq.
    assert (Hb : bases_coordinates s1 = bases_coordinates s).
    { unfold s1, relocate. destruct (flag_of s a); reflexivity. }
    assert (Hhome' : Dict.get (bases_coordinates s) {| base_team := flag_team f |}
                     = Some home) by (rewrite <- Hb; exact Hhome).
    rewrite Hhome'. reflexivity.
  - erewrite bind_ok by (eapply check_flag_return_none; eassumption).
    reflexivity.
Qed.

(** C1 (as amended).  For an actor of a well-formed board, [move]
    returns moved = true if and only if the clamped target cell differs
    from the actor's cell, holds no other Actor, is no team's Base and
    is no Wall.  With moved = false the board is unchanged.  With
    moved = true the actor's coordinates are the target cell, and a
    Flag that the actor carried is at the target cell too, except when
    it is the Flag of the actor's own team and the flag-return check
    that ends the move resolves it at the target cell: then it is at
    its team's Base. *)
Theorem move_moves_iff_free s a d c :
  board_wf s ->
  Dict.get (actors_coordinates s) a = Some c ->
  let target := step (map_size s) c d in
  exists moved score s',
    move a d s = Ok (moved, score, s')
    /\ (moved = true <->
        target <> c /\ ~ occupied_by_other s a target
        /\ ~ is_base s target /\ ~ is_wall s target)
    /\ (moved = false -> s' = s)
    /\ (moved = true ->
        Dict.get (actors_coordinates s') a = Some target
        /\ forall f, flag_of s a = Some f ->
             (returned_flag (relocate a target s) a target <> Some f ->
              Dict.get (flags_coordinates s') f = Some target)
             /\ (returned_flag (relocate a target s) a target = Some f ->
                 flag_team f = team a
                 /\ exists home,
                      Dict.get (bases_coordinates s) {| base_team := flag_team f |}
                      = Some home
                      /\ Dict.get (flags_coordinates s') f = Some home)).
Proof.
  intros Hwf Hc target.
  pose proof (@move_eq s a d c Hwf Hc) as Heq. cbv zeta in Heq. fold target in Heq.
  pose proof (@can_enter_spec s a c target Hwf Hc) as Hcan.
  set (s1 := relocate a target s) in *.
  assert (Hc1 : Dict.get (actors_coordinates s1) a = Some target).
  { unfold s1. rewrite actors_coordinates_relocate. apply DictFacts.get_set_eq. }
  destruct (can_enter s c target).
  - destruct (returned_flag s1 a target) as [g|] eqn:Er.
    + destruct (check_flag_return_some a (teams_ok_relocate a target Hwf) Hc1 Er)
        as [home [Hhome [_ [Hteam _]]]].
      assert (Hhome' : Dict.get (bases_coordinates s) {| base_team := flag_team g |}
                       = Some home).
      { unfold s1, relocate in Hhome. destruct (flag_of s a); exact Hhome. }
      rewrite Hhome' in Heq.
      eexists _, _, _. split; [exact Heq|]. split; [|split].
      * split; [intros _; now apply Hcan | reflexivity].
      * discriminate.
      * intros _. split.
        -- now rewrite actors_coordinates_after_return.
        -- intros f Hf. rewrite flags_coordinates_after_return. split.
           ++ intros Hother.
              rewrite DictFacts.get_set_ne by (intros E; apply Hother; now rewrite E).
              unfold s1. rewrite (@flags_coordinates_relocate s a target f Hf).
              apply DictFacts.get_set_eq.
           ++ intros [= ->]. split; [exact Hteam|]. exists home.
              split; [exact Hhome'|]. apply DictFacts.get_set_eq.
    + eexists _, _, _. split; [exact Heq|]. split; [|split].
      * split; [intros _; now apply Hcan | reflexivity].
      * discriminate.
      * intros _. split; [assumption|].
        intros f Hf. split; [|discriminate].
        intros _. unfold s1. rewrite (@flags_coordinates_relocate s a target f Hf).
        apply DictFacts.get_set_eq.
  - eexists _, _, _. split; [exact Heq|]. split; [|split].
    + split; [discriminate|]. intros H. apply Hcan in H. discriminate.
    + reflexivity.
    + discriminate.
Qed.

Lemma move_moves_iff_free_witness :
  (board_wf Sample.walled
   /\ Dict.get (actors_coordinates Sample.walled) Sample.a0 = Some (Sample.at_ 3 2)
   /\ flag_of Sample.walled Sample.a0 = Some Sample.flagB
   /\ exists moved score s',
        move Sample.a0 Directions.up Sample.walled = Ok (moved, score, s')
        /\ (moved = true <->
            Sample.at_ 3 3 <> Sample.at_ 3 2
            /\ ~ occupied_by_other Sample.walled Sample.a0 (Sample.at_ 3 3)
            /\ ~ is_base Sample.walled (Sample.at_ 3 3)
            /\ ~ is_wall Sample.walled (Sample.at_ 3 3))
        /\ (moved = false -> s' = Sample.walled)
        /\ (moved = true ->
            Dict.get (actors_coordinates s') Sample.a0 = Some (Sample.at_ 3 3)
            /\ forall f, flag_of Sample.walled Sample.a0 = Some f ->
                 (returned_flag (relocate Sample.a0 (Sample.at_ 3 3) Sample.walled)
                                Sample.a0 (Sample.at_ 3 3) <> Some f ->
                  Dict.get (flags_coordinates s') f = Some (Sample.at_ 3 3))
                 /\ (returned_flag (relocate Sample.a0 (Sample.at_ 3 3) Sample.walled)
                                   Sample.a0 (Sample.at_ 3 3) = Some f ->
                     flag_team f = team Sample.a0
                     /\ exists home,
                          Dict.get (bases_coordinates Sample.walled)
                                   {| base_team := flag_team f |} = Some home
                          /\ Dict.get (flags_coordinates s') f = Some home)))
  /\ (board_wf Sample.own_flag_carried
      /\ Dict.get (actors_coordinates Sample.own_flag_carried) Sample.a0
         = Some (Sample.at_ 3 2)
      /\ flag_of Sample.own_flag_carried Sample.a0 = Some Sample.flagA
      /\ exists moved score s',
           move Sample.a0 Directions.up Sample.own_flag_carried = Ok (moved, score, s')
           /\ (moved = true <->
               Sample.at_ 3 3 <> Sample.at_ 3 2
               /\ ~ occupied_by_other Sample.own_flag_carried Sample.a0 (Sample.at_ 3 3)
               /\ ~ is_base Sample.own_flag_carried (Sample.at_ 3 3)
               /\ ~ is_wall Sample.own_flag_carried (Sample.at_ 3 3))
           /\ (moved = false -> s' = Sample.own_flag_carried)
           /\ (moved = true ->
               Dict.get (actors_coordinates s') Sample.a0 = Some (Sample.at_ 3 3)
               /\ forall f, flag_of Sample.own_flag_carried Sample.a0 = Some f ->
                    (returned_flag
                       (relocate Sample.a0 (Sample.at_ 3 3) Sample.own_flag_carried)
                       Sample.a0 (Sample.at_ 3 3) <> Some f ->
                     Dict.get (flags_coordinates s') f = Some (Sample.at_ 3 3))
                    /\ (returned_flag
                          (relocate Sample.a0 (Sample.at_ 3 3) Sample.own_flag_carried)
                          Sample.a0 (Sample.at_ 3 3) = Some f ->
                        flag_team f = team Sample.a0
                        /\ exists home,
                             Dict.get (bases_coordinates Sample.own_flag_carried)
                                      {| base_team := flag_team f |} = Some home
                             /\ Dict.get (flags_coordinates s') f = Some home))).
Proof.
  split.
  - split; [reflexivity|]. split; [reflexivity|]. split; [reflexivity|].
    exact (@move_moves_iff_free Sample.walled Sample.a0 Directions.up
             (Sample.at_ 3 2) eq_refl eq_refl).
  - split; [reflexivity|]. split; [reflexivity|]. split; [reflexivity|].
    exact (@move_moves_iff_free Sample.own_flag_carried Sample.a0 Directions.up
             (Sample.at_ 3 2) eq_refl eq_refl).
Defined.

(** The board [Sample.own_flag_carried] arises in play: on
    [Sample.face_off], a0 takes the flag of its own team from b0; the
    index resolves the enemy flag at a0's cell, so nothing is sent home
    and a0 carries its own flag. *)
Example own_flag_carried_arises :
  grabput_flag 0 Sample.a0 Directions.right Sample.face_off
  = Ok (true, None, Sample.own_flag_carried).
Proof. reflexivity. Qed.

(** C1, the claim as stated, fails: a0 carries the flag of its own team
    and moves up to (3,3); the move succeeds, and the flag-return check
    of [move] sends the carried flag to the base at (2,2), not to the
    target cell. *)
Lemma move_carried_flag_not_at_target :
  exists s',
    board_wf Sample.own_flag_carried
    /\ move Sample.a0 Directions.up Sample.own_flag_carried = Ok (true, None, s')
    /\ flag_of Sample.own_flag_carried Sample.a0 = Some Sample.flagA
    /\ step 10 (Sample.at_ 3 2) Directions.up = Sample.at_ 3 3
    /\ Dict.get (actors_coordinates s') Sample.a0 = Some (Sample.at_ 3 3)
    /\ Dict.get (flags_coordinates s') Sample.flagA = Some (Sample.at_ 2 2)
    /\ Dict.get (flags_coordinates s') Sample.flagA <> Some (Sample.at_ 3 3).
Proof.
  eexists. split; [reflexivity|]. split; [reflexivity|]. repeat split.
  discriminate.
Qed.

(* ================================================================== *)
(** * Frame rules *)

Lemma bind_inv {A B} (m : M A) (f : A -> M B) s b s' :
  bind m f s = Ok (b, s') ->
  exists a s1, m s = Ok (a, s1) /\ f a s1 = Ok (b, s').
Proof.
  unfold bind. destruct (m s) as [[a s1]|e]; [|discriminate]. eauto.
Qed.

Section Frame.
Variable R : BoardData -> BoardData -> Prop.
Hypothesis R_refl : forall s, R s s.
Hypothesis R_trans : forall s1 s2 s3, R s1 s2 -> R s2 s3 -> R s1 s3.

Lemma frame_ret {A} (a : A) : frame R (ret a).
Proof. intros s a' s' [= _ <-]. apply R_refl. Qed.

Lemma frame_gets {A} (g : BoardData -> A) : frame R (gets g).
Proof. intros s a' s' [= _ <-]. apply R_refl. Qed.

Lemma frame_subscript {K V} {HK : Hashable K}
  (d : BoardData -> list (K * V)) (k : K) : frame R (subscript d k).
Proof.
  intros s a' s'. unfold subscript.
  destruct (Dict.get (d s) k); [|discriminate]. intros [= _ <-]. apply R_refl.
Qed.

Lemma frame_choice {A} (k : nat) (l : list A) : frame R (choice k l).
Proof.
  intros s a' s'. unfold choice.
  destruct (nth_error l _); [|discriminate]. intros [= _ <-]. apply R_refl.
Qed.

Lemma frame_modify (g : BoardData -> BoardData) :
  (forall s, R s (g s)) -> frame R (modify g).
Proof. intros Hg s a' s' [= _ <-]. apply Hg. Qed.

Lemma frame_bind {A B} (m : M A) (f : A -> M B) :
  frame R m -> (forall a, frame R (f a)) -> frame R (bind m f).
Proof.
  intros Hm Hf s b s' H. apply bind_inv in H. destruct H as [a [s1 [H1 H2]]].
  eapply R_trans; [eapply Hm | eapply Hf]; eauto.
Qed.

Lemma frame_score_loop flags acc : frame R (score_loop flags acc).
Proof.
  revert acc. induction flags as [|f rest IH]; intros acc; cbn [score_loop].
  - apply frame_ret.
  - apply frame_bind; [apply frame_subscript|]. intros c.
    apply frame_bind; [apply frame_gets|]. intros [b|]; [|apply IH].
    destruct (negb _); [|apply IH].
    apply frame_bind; [apply frame_subscript|]. intros cf.
    apply frame_bind; [apply frame_subscript|]. intros cb.
    apply frame_bind; [apply frame_gets|]. intros req.
    destruct (_ || _); apply IH.
Qed.

Lemma frame_check_score_conditions fo : frame R (_check_score_conditions fo).
Proof.
  unfold _check_score_conditions. apply frame_bind.
  - destruct fo; [apply frame_ret | apply frame_gets].
  - intros flags. apply frame_score_loop.
Qed.

Lemma frame_calc_target_coordinates a d : frame R (calc_target_coordinates a d).
Proof.
  unfold calc_target_coordinates.
  apply frame_bind; [apply frame_subscript|]. intros c.
  apply frame_bind; [apply frame_gets|]. intros n. apply frame_ret.
Qed.

(** What is left to show for the checks: the writes to the flags
    respect [R], and so does the clearing of a flag reference. *)
Hypothesis R_set_flags : forall f c s, R s (set_flags_coordinates f c s).
Hypothesis R_clear : forall a s, R s (set_flag_of a None s).

Lemma frame_check_flag_return_conditions a :
  frame R (_check_flag_return_conditions a).
Proof.
  unfold _check_flag_return_conditions.
  apply frame_bind; [apply frame_subscript|]. intros c.
  apply frame_bind; [apply frame_gets|]. intros vs.
  destruct (contains vs c); [|apply frame_ret].
  apply frame_bind.
  { intros s f s'. destruct (coordinates_flags s c); [|discriminate].
    intros [= _ <-]. apply R_refl. }
  intros f. destruct (key_eqb _ _); [|apply frame_ret].
  apply frame_bind.
  { unfold _return_flag_to_base. apply frame_bind; [apply frame_subscript|].
    intros cb. apply frame_modify. intros s. apply R_set_flags. }
  intros _. apply frame_bind; [apply frame_check_score_conditions|]. intros t.
  apply frame_bind; [apply frame_gets|]. intros [g|]; [|apply frame_ret].
  apply frame_bind; [|intros; apply frame_ret].
  apply frame_modify. intros s. apply R_clear.
Qed.

(** For [move] and [attack]: the write to the actors respects [R]. *)
Hypothesis R_set_actors : forall a c s, R s (set_actors_coordinates a c s).

Lemma frame_try_put_actor a new : frame R (_try_put_actor a new).
Proof.
  unfold _try_put_actor.
  apply frame_bind; [apply frame_subscript|]. intros c.
  apply frame_bind; [apply frame_gets|]. intros occupant.
  apply frame_bind; [apply frame_gets|]. intros base.
  apply frame_bind; [apply frame_gets|]. intros walls.
  destruct (key_eqb c new); [apply frame_ret|].
  destruct occupant; [apply frame_ret|]. destruct base; [apply frame_ret|].
  destruct (contains walls new); [apply frame_ret|].
  apply frame_bind; [apply frame_modify; intros; apply R_set_actors|]. intros _.
  apply frame_bind; [apply frame_gets|]. intros [f|]; [|apply frame_ret].
  apply frame_bind; [apply frame_modify; intros; apply R_set_flags|]. intros _.
  apply frame_ret.
Qed.

Lemma frame_move a d : frame R (move a d).
Proof.
  unfold move.
  apply frame_bind; [apply frame_calc_target_coordinates|]. intros new.
  apply frame_bind; [apply frame_try_put_actor|]. intros [|]; [|apply frame_ret].
  apply frame_bind; [apply frame_check_flag_return_conditions|]. intros t.
  apply frame_ret.
Qed.

Lemma frame_respawn k a : frame R (_respawn k a).
Proof.
  unfold _respawn.
  apply frame_bind; [apply frame_subscript|]. intros base_c.
  apply frame_bind; [apply frame_gets|]. intros n.
  apply frame_bind; [apply frame_gets|]. intros forbidden.
  unfold _place_actor_in_area.
  apply frame_bind; [apply frame_choice|]. intros c.
  apply frame_bind; [apply frame_gets|]. intros carried.
  apply frame_bind.
  { destruct carried; [apply frame_modify; intros; apply R_clear | apply frame_ret]. }
  intros _. apply frame_modify. intros. apply R_set_actors.
Qed.

Lemma frame_attack r k a d : frame R (BoardActions.attack r k a d).
Proof.
  unfold BoardActions.attack. destruct (negb _); [apply frame_ret|].
  apply frame_bind; [apply frame_calc_target_coordinates|]. intros tc.
  apply frame_bind; [apply frame_gets|]. intros [target|]; [|apply frame_ret].
  destruct (negb _); [apply frame_ret|].
  apply frame_bind; [apply frame_respawn|]. intros _. apply frame_ret.
Qed.
End Frame.

(** Outside the section the rules take the laws of the relation as
    premises: they are found among the hypotheses. *)
Ltac fbind := apply frame_bind; [assumption | | ].
Ltac fleaf :=
  first [ apply frame_ret | apply frame_gets | apply frame_subscript
        | apply frame_calc_target_coordinates
        | apply frame_check_score_conditions
        | apply frame_check_flag_return_conditions ];
  assumption.

(** For [grabput_flag]: a flag reference is set for an actor that the
    relation [R] admits as a holder; the actors that the code gives a
    flag to must be among them. *)
Section FrameGrabput.
Variable R : BoardData -> BoardData -> Prop.
Variable holder : Actor -> Prop.
Variable r : Q.
Hypothesis R_refl : forall s, R s s.
Hypothesis R_trans : forall s1 s2 s3, R s1 s2 -> R s2 s3 -> R s1 s3.
Hypothesis R_set_flags : forall f c s, R s (set_flags_coordinates f c s).
Hypothesis R_clear : forall a s, R s (set_flag_of a None s).
Hypothesis R_give :
  forall a f s, holder a -> R s (set_flag_of a (Some f) s).
Hypothesis holder_handed : forall a, truthy (grab a) = true -> holder a.
Hypothesis holder_grabbed : forall a, Qlt_bool r (grab a) = true -> holder a.

Lemma frame_grabput_flag a d : frame R (grabput_flag r a d).
Proof.
  unfold grabput_flag.
  fbind; [fleaf|]. intros tc.
  fbind; [fleaf|]. intros ta.
  fbind; [fleaf|]. intros [flag|].
  - destruct ta as [ta|].
    + fbind; [fleaf|]. intros tcarried.
      destruct (truthy (grab ta)) eqn:Et; cbn [negb]; [|fleaf].
      destruct tcarried; [fleaf|].
      fbind; [apply frame_modify; intros; apply R_set_flags|]. intros _.
      fbind; [apply frame_modify; intros; apply R_clear|]. intros _.
      fbind.
      { apply frame_modify; intros. apply R_give. now apply holder_handed. }
      intros _. fbind; [fleaf|]. intros t. fleaf.
    + fbind; [fleaf|]. intros walls.
      destruct (contains walls tc); [fleaf|].
      fbind; [apply frame_modify; intros; apply R_set_flags|]. intros _.
      fbind; [apply frame_modify; intros; apply R_clear|]. intros _.
      fbind; [fleaf|]. intros t. fleaf.
  - fbind; [fleaf|]. intros [flag|]; [|fleaf].
    destruct (Qlt_bool r (grab a)) eqn:Er; [|fleaf].
    fbind; [fleaf|]. intros own.
    fbind; [apply frame_modify; intros; apply R_set_flags|]. intros _.
    fbind.
    { apply frame_modify; intros. apply R_give. now apply holder_grabbed. }
    intros _.
    fbind.
    { destruct ta; [apply frame_modify; intros; apply R_clear | fleaf]. }
    intros _. fbind; [fleaf|]. intros t. fleaf.
Qed.
End FrameGrabput.


(* ================================================================== *)
(** * Respawn *)

Lemma choice_inv {A} (k : nat) (l : list A) s a s' :
  choice k l s = Ok (a, s') -> In a l /\ s' = s.
Proof.
  unfold choice. destruct (nth_error l _) eqn:E; [|discriminate].
  intros [= <- <-]. split; [eapply nth_error_In; eauto | reflexivity].
Qed.

Lemma choice_total {A} (k : nat) (l : list A) s :
  l <> [] -> exists a, In a l /\ choice k l s = Ok (a, s).
Proof.
  intros Hne. unfold choice.
  assert (Hlt : (k mod List.length l < List.length l)%nat).
  { apply Nat.mod_upper_bound. destruct l; [congruence | simpl; lia]. }
  destruct (nth_error l (k mod List.length l)) as [a|] eqn:E.
  - exists a. split; [eapply nth_error_In; eauto | reflexivity].
  - apply nth_error_None in E. lia.
Qed.

Lemma place_actor_in_area_eq k a possible forbidden s c :
  choice k (allowed_positions possible forbidden) s = Ok (c, s) ->
  _place_actor_in_area k a possible forbidden s = Ok (tt, respawned a c s).
Proof.
  intros Hc. unfold _place_actor_in_area, respawned.
  erewrite bind_ok by exact Hc. mstep.
  destruct (flag_of s a); mstep; reflexivity.
Qed.

Lemma respawn_inv k a s u s' :
  _respawn k a s = Ok (u, s') ->
  exists base_c c,
    Dict.get (bases_coordinates s) {| base_team := team a |} = Some base_c
    /\ In c (spawn_candidates s base_c)
    /\ s' = respawned a c s.
Proof.
  unfold _respawn. intros H.
  destruct (Dict.get (bases_coordinates s) {| base_team := team a |}) as [base_c|] eqn:Hb.
  - erewrite bind_subscript in H by exact Hb. do 2 rewrite bind_gets in H.
    unfold _place_actor_in_area in H at 1.
    apply bind_inv in H. destruct H as [c [s1 [Hc H]]].
    apply choice_inv in Hc. destruct Hc as [Hin ->].
    exists base_c, c. repeat split; auto.
    rewrite bind_gets in H. unfold respawned.
    destruct (flag_of s a); rewrite ?bind_modify, ?bind_ret in H;
      unfold modify in H; congruence.
  - unfold bind at 1, subscript at 1 in H. rewrite Hb in H. discriminate.
Qed.

Lemma respawn_total k a s base_c :
  Dict.get (bases_coordinates s) {| base_team := team a |} = Some base_c ->
  spawn_candidates s base_c <> [] ->
  exists c, In c (spawn_candidates s base_c)
            /\ _respawn k a s = Ok (tt, respawned a c s).
Proof.
  intros Hb Hne. destruct (choice_total k s Hne) as [c [Hin Hc]].
  exists c. split; [assumption|].
  unfold _respawn. do 3 mstep. now apply place_actor_in_area_eq.
Qed.

Lemma zrange_In a b z : In z (zrange a b) <-> a <= z < b.
Proof.
  unfold zrange. rewrite in_map_iff. split.
  - intros [i [<- Hi]]. apply in_seq in Hi. lia.
  - intros H. exists (Z.to_nat (z - a)). split; [lia|]. apply in_seq. lia.
Qed.

Lemma mk_coordinates_Some n cx cy c :
  mk_coordinates n cx cy = Some c <->
  c = {| x := cx; y := cy |} /\ 0 <= cx <= n - 1 /\ 0 <= cy <= n - 1.
Proof.
  unfold mk_coordinates.
  destruct (0 <=? cx) eqn:E1, (cx <=? n - 1) eqn:E2,
           (0 <=? cy) eqn:E3, (cy <=? n - 1) eqn:E4; simpl;
    rewrite ?Z.leb_le, ?Z.leb_gt in *;
    (split; [intros [= <-] | intros [-> ?]]; (try split); (try reflexivity); lia).
Qed.

Lemma window_In n lx hx ly hy c :
  In c (flat_map
          (fun cx =>
             flat_map
               (fun cy => match mk_coordinates n cx cy with
                          | Some c => [c]
                          | None => []
                          end)
               (zrange ly hy))
          (zrange lx hx))
  <-> lx <= x c < hx /\ ly <= y c < hy
      /\ 0 <= x c <= n - 1 /\ 0 <= y c <= n - 1.
Proof.
  rewrite in_flat_map. split.
  - intros [cx [Hx Hin]]. rewrite in_flat_map in Hin. destruct Hin as [cy [Hy Hin]].
    apply zrange_In in Hx. apply zrange_In in Hy.
    destruct (mk_coordinates n cx cy) as [c'|] eqn:E; [|destruct Hin].
    destruct Hin as [<-|[]]. apply mk_coordinates_Some in E.
    destruct E as [-> ?]. simpl. lia.
  - intros H. exists (x c). split; [apply zrange_In; lia|].
    rewrite in_flat_map. exists (y c). split; [apply zrange_In; lia|].
    assert (E : mk_coordinates n (x c) (y c) = Some c).
    { apply mk_coordinates_Some. destruct c; simpl in *. split; [reflexivity | lia]. }
    rewrite E. now left.
Qed.

Lemma possible_spawn_points_In n base_c c :
  In c (possible_spawn_points n base_c) <->
  x base_c - 2 <= x c <= x base_c + 2 /\ y base_c - 2 <= y c <= y base_c + 2
  /\ 0 <= x c <= n - 1 /\ 0 <= y c <= n - 1.
Proof. unfold possible_spawn_points. rewrite window_In. lia. Qed.

Lemma get_area_positions_In n center d c :
  In c (_get_area_positions n center d) <->
  x center - d <= x c < x center + d /\ y center - d <= y c < y center + d
  /\ 0 <= x c <= n - 1 /\ 0 <= y c <= n - 1.
Proof. unfold _get_area_positions. apply window_In. Qed.

Lemma dedup_In {A} {HA : Hashable A} {LA : LawfulHashable A} (l : list A) a :
  In a (dedup l) <-> In a l.
Proof.
  induction l as [|b l IH]; simpl; [tauto|].
  destruct (contains l b) eqn:E.
  - rewrite IH. apply contains_In in E. split; [tauto|]. intros [<-|?]; auto.
  - simpl. rewrite IH. tauto.
Qed.

Lemma spawn_candidates_In s base_c c :
  In c (spawn_candidates s base_c) <->
  In c (possible_spawn_points (map_size s) base_c)
  /\ ~ In c (forbidden_positions s).
Proof.
  unfold spawn_candidates, allowed_positions.
  rewrite filter_In, dedup_In, negb_true_iff, contains_not_In. tauto.
Qed.

Lemma forbidden_positions_In s c :
  ~ In c (forbidden_positions s) ->
  ~ occupied s c /\ ~ has_flag s c /\ ~ is_base s c /\ ~ is_wall s c.
Proof.
  unfold forbidden_positions. rewrite !in_app_iff. intros H.
  repeat split.
  - intros [a Ha]. apply H. right; left.
    eapply DictFacts.In_values. apply DictFacts.get_In. exact Ha.
  - intros [f Hf]. apply H. left.
    eapply DictFacts.In_values. apply DictFacts.get_In. exact Hf.
  - intros [b Hb]. apply H. right; right; left.
    eapply DictFacts.In_values. apply DictFacts.get_In. exact Hb.
  - intros Hw. apply H. right; right; right. exact Hw.
Qed.

(** C4 (as amended).  When the actor's team has its Base and at least
    one candidate cell is free, [_respawn] returns and relocates the
    actor to a cell of the board with x in [base.x - 2, base.x + 2] and
    y in [base.y - 2, base.y + 2] (both bounds inclusive: the loops of
    [_respawn] run to [base + 3] exclusive) that holds no Actor, no
    Flag, no Base and no Wall; the coordinates of all Flags are
    unchanged, so a Flag that the actor carried at its cell stays at
    that cell, and the actor's Flag reference is cleared. *)
Theorem respawn_in_window s k a base_c :
  Dict.get (bases_coordinates s) {| base_team := team a |} = Some base_c ->
  spawn_candidates s base_c <> [] ->
  exists c,
    _respawn k a s = Ok (tt, respawned a c s)
    /\ Dict.get (actors_coordinates (respawned a c s)) a = Some c
    /\ (x base_c - 2 <= x c <= x base_c + 2
        /\ y base_c - 2 <= y c <= y base_c + 2
        /\ 0 <= x c <= map_size s - 1 /\ 0 <= y c <= map_size s - 1)
    /\ (~ occupied s c /\ ~ has_flag s c /\ ~ is_base s c /\ ~ is_wall s c)
    /\ flags_coordinates (respawned a c s) = flags_coordinates s
    /\ (forall f c0, flag_of s a = Some f ->
                     Dict.get (actors_coordinates s) a = Some c0 ->
                     Dict.get (flags_coordinates s) f = Some c0 ->
                     Dict.get (flags_coordinates (respawned a c s)) f = Some c0)
    /\ flag_of (respawned a c s) a = None.
Proof.
  intros Hb Hne. destruct (respawn_total k a s Hb Hne) as [c [Hin Heq]].
  exists c. split; [exact Heq|].
  apply spawn_candidates_In in Hin. destruct Hin as [Hwin Hfree].
  assert (Hflags : flags_coordinates (respawned a c s) = flags_coordinates s).
  { unfold respawned. destruct (flag_of s a); reflexivity. }
  split; [|split; [|split; [|split; [|split]]]].
  - unfold respawned. cbn [actors_coordinates set_actors_coordinates].
    apply DictFacts.get_set_eq.
  - now apply possible_spawn_points_In.
  - now apply forbidden_positions_In.
  - exact Hflags.
  - intros f c0 _ _ Hf. now rewrite Hflags.
  - unfold respawned. destruct (flag_of s a) eqn:Ef.
    + change (flag_of (set_flag_of a None s) a = None).
      apply flag_of_set_flag_of_eq.
    + exact Ef.
Qed.

Lemma respawn_in_window_witness :
  Dict.get (bases_coordinates Sample.board) {| base_team := team Sample.b0 |}
  = Some (Sample.at_ 7 7)
  /\ spawn_candidates Sample.board (Sample.at_ 7 7) <> []
  /\ exists c,
       _respawn 3 Sample.b0 Sample.board = Ok (tt, respawned Sample.b0 c Sample.board)
       /\ Dict.get (actors_coordinates (respawned Sample.b0 c Sample.board)) Sample.b0
          = Some c
       /\ (7 - 2 <= x c <= 7 + 2 /\ 7 - 2 <= y c <= 7 + 2
           /\ 0 <= x c <= 10 - 1 /\ 0 <= y c <= 10 - 1)
       /\ (~ occupied Sample.board c /\ ~ has_flag Sample.board c
           /\ ~ is_base Sample.board c /\ ~ is_wall Sample.board c)
       /\ flags_coordinates (respawned Sample.b0 c Sample.board)
          = flags_coordinates Sample.board
       /\ (forall f c0, flag_of Sample.board Sample.b0 = Some f ->
                        Dict.get (actors_coordinates Sample.board) Sample.b0 = Some c0 ->
                        Dict.get (flags_coordinates Sample.board) f = Some c0 ->
                        Dict.get (flags_coordinates (respawned Sample.b0 c Sample.board)) f
                        = Some c0)
       /\ flag_of (respawned Sample.b0 c Sample.board) Sample.b0 = None.
Proof.
  split; [reflexivity|]. split; [discriminate|].
  exact (@respawn_in_window Sample.board 3%nat Sample.b0 (Sample.at_ 7 7) eq_refl
           ltac:(discriminate)).
Defined.

(** C4, the claim as stated, fails: the base of team B is at (7,7), and
    the draw 22 respawns b0 at (9,9), where x = base.x + 2 lies outside
    [base.x - 2, base.x + 2) and outside the area of distance 2 of the
    shared enumeration. *)
Lemma respawn_outside_area_window :
  spawn_candidates Sample.board (Sample.at_ 7 7) <> []
  /\ _respawn 22 Sample.b0 Sample.board
  = Ok (tt, respawned Sample.b0 (Sample.at_ 9 9) Sample.board)
  /\ Dict.get (bases_coordinates Sample.board) {| base_team := team Sample.b0 |}
     = Some (Sample.at_ 7 7)
  /\ Dict.get (actors_coordinates (respawned Sample.b0 (Sample.at_ 9 9) Sample.board))
              Sample.b0 = Some (Sample.at_ 9 9)
  /\ ~ (7 - 2 <= x (Sample.at_ 9 9) < 7 + 2)
  /\ ~ In (Sample.at_ 9 9) (_get_area_positions 10 (Sample.at_ 7 7) 2).
Proof.
  split; [discriminate|].
  split; [reflexivity|]. split; [reflexivity|]. split; [reflexivity|]. split.
  - simpl. lia.
  - rewrite get_area_positions_In. simpl. lia.
Qed.

(* ================================================================== *)
(** * At most one Actor per cell *)

Lemma same_actors_refl s : same_actors s s.
Proof. reflexivity. Qed.

Lemma same_actors_trans s1 s2 s3 :
  same_actors s1 s2 -> same_actors s2 s3 -> same_actors s1 s3.
Proof. unfold same_actors. congruence. Qed.

Lemma same_actors_set_flags f c s : same_actors s (set_flags_coordinates f c s).
Proof. reflexivity. Qed.

Lemma same_actors_set_flag_of a o s : same_actors s (set_flag_of a o s).
Proof. reflexivity. Qed.

Lemma same_actors_clear a s : same_actors s (set_flag_of a None s).
Proof. reflexivity. Qed.

Create HintDb frames.
#[export] Hint Resolve same_actors_refl same_actors_trans same_actors_set_flags
  same_actors_set_flag_of same_actors_clear : frames.

Lemma one_actor_set s s' a c :
  one_actor_per_cell s ->
  ~ In c (Dict.values (actors_coordinates s)) ->
  actors_coordinates s' = Dict.set (actors_coordinates s) a c ->
  one_actor_per_cell s'.
Proof.
  intros Hinv Hfree Heq a1 a2 c'. rewrite Heq.
  destruct (key_eqb_spec a a1) as [<-|H1]; destruct (key_eqb_spec a a2) as [<-|H2];
    rewrite ?DictFacts.get_set_eq, ?DictFacts.get_set_ne by assumption.
  - reflexivity.
  - intros [= <-] H. exfalso. apply Hfree.
    eapply DictFacts.In_values. apply DictFacts.get_In. exact H.
  - intros H [= <-]. exfalso. apply Hfree.
    eapply DictFacts.In_values. apply DictFacts.get_In. exact H.
  - apply Hinv.
Qed.

Lemma check_flag_return_same_actors a :
  frame same_actors (_check_flag_return_conditions a).
Proof. apply frame_check_flag_return_conditions; eauto with frames. Qed.

Lemma grabput_flag_same_actors r a d : frame same_actors (grabput_flag r a d).
Proof.
  apply frame_grabput_flag with (holder := fun _ => True); eauto with frames.
Qed.

Lemma move_actors s a d r s' :
  move a d s = Ok (r, s') ->
  actors_coordinates s' = actors_coordinates s
  \/ exists c, ~ In c (Dict.values (actors_coordinates s))
               /\ actors_coordinates s' = Dict.set (actors_coordinates s) a c.
Proof.
  intros H. unfold move in H.
  destruct (Dict.get (actors_coordinates s) a) as [c|] eqn:Hc.
  - erewrite bind_ok in H by (apply calc_target_coordinates_ok; exact Hc).
    erewrite bind_ok in H by (apply try_put_actor_eq; exact Hc).
    set (target := step (map_size s) c d) in *.
    destruct (can_enter s c target) eqn:Ecan.
    + right. exists target. split.
      * unfold can_enter in Ecan. rewrite !andb_true_iff, !negb_true_iff in Ecan.
        destruct Ecan as [[[_ Ha] _] _]. unfold coordinates_actors in Ha.
        destruct (Dict.inverse_get (actors_coordinates s) target) eqn:E;
          [discriminate|]. now apply DictFacts.inverse_get_None in E.
      * apply bind_inv in H. destruct H as [t [s2 [H H2]]].
        apply check_flag_return_same_actors in H. unfold same_actors in H.
        unfold ret in H2. injection H2 as _ <-.
        rewrite H. apply actors_coordinates_relocate.
    + left. unfold ret in H. congruence.
  - unfold calc_target_coordinates, bind, subscript in H. rewrite Hc in H.
    discriminate.
Qed.

Lemma actors_coordinates_respawned a c s :
  actors_coordinates (respawned a c s) = Dict.set (actors_coordinates s) a c.
Proof. unfold respawned. destruct (flag_of s a); reflexivity. Qed.

Lemma attack_inv r k a d s b s' :
  BoardActions.attack r k a d s = Ok (b, s') ->
  (b = false /\ s' = s)
  \/ (b = true
      /\ exists c target base_c,
           Dict.get (actors_coordinates s) a = Some c
           /\ coordinates_actors s (step (map_size s) c d) = Some target
           /\ In base_c (Dict.values (bases_coordinates s))
           /\ In c (Dict.values (actors_coordinates s))
           /\ exists c', In c' (spawn_candidates s base_c)
                         /\ s' = respawned target c' s).
Proof.
  unfold BoardActions.attack. intros H.
  destruct (negb (truthy (attack_probability a))).
  { left. unfold ret in H. now injection H as <- <-. }
  destruct (Dict.get (actors_coordinates s) a) as [c|] eqn:Hc.
  - erewrite bind_ok in H by (apply calc_target_coordinates_ok; exact Hc).
    rewrite bind_gets in H.
    destruct (coordinates_actors s (step (map_size s) c d)) as [target|] eqn:Et.
    + destruct (negb (Qlt_bool r (attack_probability a))).
      { left. unfold ret in H. now injection H as <- <-. }
      apply bind_inv in H. destruct H as [u [s1 [H H2]]].
      unfold ret in H2. injection H2 as <- <-.
      apply respawn_inv in H. destruct H as [base_c [c' [Hb [Hin ->]]]].
      right. split; [reflexivity|]. exists c, target, base_c.
      repeat split; auto.
      * eapply DictFacts.In_values. apply DictFacts.get_In. exact Hb.
      * eapply DictFacts.In_values. apply DictFacts.get_In. exact Hc.
      * eauto.
    + left. unfold ret in H. now injection H as <- <-.
  - unfold calc_target_coordinates, bind, subscript in H. rewrite Hc in H.
    discriminate.
Qed.

(** C5.  Each engine operation that returns keeps the invariant that at
    most one Actor occupies a given cell: [move], [attack] with the
    respawn it may trigger, and [grabput_flag]. *)
Theorem one_actor_per_cell_preserved s :
  one_actor_per_cell s ->
  (forall a d res s', move a d s = Ok (res, s') -> one_actor_per_cell s')
  /\ (forall r k a d res s',
        BoardActions.attack r k a d s = Ok (res, s') -> one_actor_per_cell s')
  /\ (forall r a d res s',
        grabput_flag r a d s = Ok (res, s') -> one_actor_per_cell s').
Proof.
  intros Hinv. split; [|split].
  - intros a d res s' H. apply move_actors in H.
    destruct H as [H | [c [Hfree H]]].
    + unfold one_actor_per_cell. rewrite H. exact Hinv.
    + eapply one_actor_set; eauto.
  - intros r k a d res s' H. apply attack_inv in H.
    destruct H as [[_ ->] | [_ [c [target [base_c [_ [_ [_ [_ [c' [Hin ->]]]]]]]]]]].
    + exact Hinv.
    + apply spawn_candidates_In in Hin. destruct Hin as [_ Hfree].
      eapply one_actor_set; [exact Hinv | | apply actors_coordinates_respawned].
      intros Hc'. apply Hfree. unfold forbidden_positions.
      rewrite !in_app_iff. auto.
  - intros r a d res s' H. apply grabput_flag_same_actors in H.
    unfold one_actor_per_cell. rewrite H. exact Hinv.
Qed.

Lemma one_actor_per_cell_nodup s :
  nodupb (Dict.values (actors_coordinates s)) = true -> one_actor_per_cell s.
Proof.
  intros H. apply nodupb_NoDup in H. intros a1 a2 c H1 H2.
  eapply NoDup_values_inj; [exact H | |]; apply DictFacts.get_In; eassumption.
Qed.

Lemma one_actor_per_cell_preserved_witness :
  one_actor_per_cell Sample.board
  /\ (forall a d res s',
        move a d Sample.board = Ok (res, s') -> one_actor_per_cell s')
  /\ (forall r k a d res s',
        BoardActions.attack r k a d Sample.board = Ok (res, s') ->
        one_actor_per_cell s')
  /\ (forall r a d res s',
        grabput_flag r a d Sample.board = Ok (res, s') -> one_actor_per_cell s').
Proof.
  split.
  - apply one_actor_per_cell_nodup. reflexivity.
  - apply one_actor_per_cell_preserved.
    apply one_actor_per_cell_nodup. reflexivity.
Defined.

(* ================================================================== *)
(** * Grabbing and putting *)

Lemma grabput_put_eq s r a d c f :
  Dict.get (actors_coordinates s) a = Some c ->
  flag_of s a = Some f ->
  let target := step (map_size s) c d in
  grabput_flag r a d s =
  match coordinates_actors s target with
  | Some t =>
      if negb (truthy (grab t)) then Ok (false, None, s)
      else match flag_of s t with
           | Some _ => Ok (false, None, s)
           | None =>
               bind (_check_flag_return_conditions t)
                    (fun team_that_scored => ret (true, team_that_scored))
                    (handed a f target t s)
           end
  | None =>
      if contains (walls_coordinates s) target then Ok (false, None, s)
      else bind (_check_score_conditions (Some f))
                (fun team_that_scored => ret (true, team_that_scored))
                (put_down a f target s)
  end.
Proof.
  intros Hc Hf target. unfold grabput_flag.
  erewrite bind_ok by (apply calc_target_coordinates_ok; exact Hc).
  fold target. do 2 mstep. rewrite Hf.
  destruct (coordinates_actors s target) as [t|].
  - mstep. destruct (negb (truthy (grab t))); [reflexivity|].
    destruct (flag_of s t); [reflexivity|]. do 3 mstep. reflexivity.
  - mstep. destruct (contains (walls_coordinates s) target); [reflexivity|].
    do 2 mstep. reflexivity.
Qed.

Lemma grabput_grab_eq s r a d c :
  Dict.get (actors_coordinates s) a = Some c ->
  flag_of s a = None ->
  let target := step (map_size s) c d in
  grabput_flag r a d s =
  match coordinates_flags s target with
  | Some f =>
      if Qlt_bool r (grab a) then
        bind (_check_flag_return_conditions a)
             (fun team_that_scored => ret (true, team_that_scored))
             (after_grab a f c (coordinates_actors s target) s)
      else Ok (false, None, s)
  | None => Ok (false, None, s)
  end.
Proof.
  intros Hc Hf target. unfold grabput_flag.
  erewrite bind_ok by (apply calc_target_coordinates_ok; exact Hc).
  fold target. do 2 mstep. rewrite Hf. mstep.
  destruct (coordinates_flags s target) as [f|]; [|reflexivity].
  destruct (Qlt_bool r (grab a)); [|reflexivity].
  do 3 mstep. unfold after_grab.
  destruct (coordinates_actors s target); mstep; reflexivity.
Qed.

Lemma Qlt_bool_true r p : Qlt_bool r p = true <-> (r < p)%Q.
Proof.
  unfold Qlt_bool. rewrite negb_true_iff. split.
  - intros H. apply Qnot_le_lt. intros Hle. apply Qle_bool_iff in Hle. congruence.
  - intros H. destruct (Qle_bool p r) eqn:E; [|reflexivity].
    apply Qle_bool_iff in E. exfalso. eapply Qlt_not_le; eauto.
Qed.

Lemma Qlt_bool_false r p : Qlt_bool r p = false <-> (p <= r)%Q.
Proof.
  unfold Qlt_bool. rewrite negb_false_iff. apply Qle_bool_iff.
Qed.

Lemma not_occupied_index s target :
  board_wf s -> ~ occupied s target -> coordinates_actors s target = None.
Proof.
  intros Hwf Hfree. destruct (coordinates_actors s target) as [t|] eqn:E;
    [|reflexivity].
  exfalso. apply Hfree. exists t.
  apply DictFacts.inverse_get_Some in E.
  now apply (DictFacts.In_get_nodup _ _ _ (wf_actors Hwf)) in E.
Qed.

Lemma teams_ok_put_down s a f target :
  board_wf s -> flag_of s a = Some f -> teams_ok (put_down a f target s).
Proof.
  intros Hwf Hf. destruct (wf_carried Hwf _ Hf) as [c0 Hc0].
  unfold put_down. apply teams_ok_set_flag_of.
  eapply teams_ok_set_flags; [now apply wf_teams_ok | exact Hc0].
Qed.

Lemma check_score_conditions_one s f :
  teams_ok s -> In f (Dict.keys (flags_coordinates s)) ->
  _check_score_conditions (Some f) s = Ok (last_scoring s [f] None, s).
Proof.
  intros Hok Hin. unfold _check_score_conditions. mstep.
  apply score_loop_eq; auto. intros f' [<-|[]]. exact Hin.
Qed.

(** C10.  An actor that holds the Flag [f] and puts it on a target cell
    that holds no Actor and is no Wall succeeds: [f] is then on the
    target cell, and every other Flag stays where it was, so a Flag
    that rested on the target cell now shares the cell with [f]. *)
Theorem put_onto_flag_cell s r a d c f :
  board_wf s ->
  Dict.get (actors_coordinates s) a = Some c ->
  flag_of s a = Some f ->
  let target := step (map_size s) c d in
  ~ occupied s target ->
  ~ is_wall s target ->
  exists score,
    grabput_flag r a d s = Ok (true, score, put_down a f target s)
    /\ Dict.get (flags_coordinates (put_down a f target s)) f = Some target
    /\ forall g, g <> f ->
         Dict.get (flags_coordinates s) g = Some target ->
         Dict.get (flags_coordinates (put_down a f target s)) g = Some target.
Proof.
  intros Hwf Hc Hf target Hfree Hwall.
  rewrite (@grabput_put_eq s r a d c f Hc Hf). fold target.
  rewrite (not_occupied_index Hwf Hfree).
  apply contains_not_In in Hwall. rewrite Hwall.
  pose proof (teams_ok_put_down a target Hwf Hf) as Hok.
  assert (Hin : In f (Dict.keys (flags_coordinates (put_down a f target s)))).
  { eapply get_In_keys. unfold put_down.
    cbn [flags_coordinates set_flag_of set_flags_coordinates].
    apply DictFacts.get_set_eq. }
  erewrite bind_ok by (apply check_score_conditions_one; assumption).
  eexists. split; [reflexivity|]. split.
  - unfold put_down. cbn [flags_coordinates set_flag_of set_flags_coordinates].
    apply DictFacts.get_set_eq.
  - intros g Hne Hg. unfold put_down.
    cbn [flags_coordinates set_flag_of set_flags_coordinates].
    rewrite DictFacts.get_set_ne by congruence. exact Hg.
Qed.

Lemma put_onto_flag_cell_witness :
  board_wf Sample.walled
  /\ Dict.get (actors_coordinates Sample.walled) Sample.a0 = Some (Sample.at_ 3 2)
  /\ flag_of Sample.walled Sample.a0 = Some Sample.flagB
  /\ ~ occupied Sample.walled (Sample.at_ 3 3)
  /\ ~ is_wall Sample.walled (Sample.at_ 3 3)
  /\ Dict.get (flags_coordinates Sample.walled) Sample.flagA = Some (Sample.at_ 3 3)
  /\ exists score,
       grabput_flag 0 Sample.a0 Directions.up Sample.walled
       = Ok (true, score, put_down Sample.a0 Sample.flagB (Sample.at_ 3 3) Sample.walled)
       /\ Dict.get (flags_coordinates
                      (put_down Sample.a0 Sample.flagB (Sample.at_ 3 3) Sample.walled))
                   Sample.flagB = Some (Sample.at_ 3 3)
       /\ forall g, g <> Sample.flagB ->
            Dict.get (flags_coordinates Sample.walled) g = Some (Sample.at_ 3 3) ->
            Dict.get (flags_coordinates
                        (put_down Sample.a0 Sample.flagB (Sample.at_ 3 3) Sample.walled))
                     g = Some (Sample.at_ 3 3).
Proof.
  assert (Hfree : ~ occupied Sample.walled (Sample.at_ 3 3)).
  { intros [t Ht]. apply DictFacts.get_In in Ht. simpl in Ht.
    destruct Ht as [[=]|[[=]|[]]]. }
  assert (Hwall : ~ is_wall Sample.walled (Sample.at_ 3 3)).
  { intros [[=]|[]]. }
  split; [reflexivity|]. split; [reflexivity|]. split; [reflexivity|].
  split; [exact Hfree|]. split; [exact Hwall|]. split; [reflexivity|].
  exact (@put_onto_flag_cell Sample.walled 0 Sample.a0 Directions.up
           (Sample.at_ 3 2) Sample.flagB eq_refl eq_refl eq_refl Hfree Hwall).
Defined.

Lemma check_flag_return_total s a c :
  teams_ok s ->
  Dict.get (actors_coordinates s) a = Some c ->
  exists t s', _check_flag_return_conditions a s = Ok (t, s').
Proof.
  intros Hok Hc. destruct (returned_flag s a c) as [f|] eqn:Er.
  - destruct (@check_flag_return_some s a c f Hok Hc Er) as [home [_ [_ [_ H]]]].
    eauto.
  - pose proof (@check_flag_return_none s a c Hc Er). eauto.
Qed.


Lemma teams_ok_after_grab s a f own occupant c0 :
  teams_ok s -> Dict.get (flags_coordinates s) f = Some c0 ->
  teams_ok (after_grab a f own occupant s).
Proof.
  intros Hok Hf. unfold after_grab.
  destruct occupant; repeat apply teams_ok_set_flag_of;
    eapply teams_ok_set_flags; eauto.
Qed.

Lemma index_flag_get s target f :
  coordinates_flags s target = Some f ->
  exists c0, Dict.get (flags_coordinates s) f = Some c0.
Proof.
  intros H. apply DictFacts.inverse_get_Some in H.
  eapply DictFacts.In_get_some; eauto.
Qed.

Lemma grab_returns s r a d c f :
  board_wf s ->
  Dict.get (actors_coordinates s) a = Some c ->
  flag_of s a = None ->
  coordinates_flags s (step (map_size s) c d) = Some f ->
  Qlt_bool r (grab a) = true ->
  exists score s',
    _check_flag_return_conditions a
      (after_grab a f c (coordinates_actors s (step (map_size s) c d)) s)
    = Ok (score, s')
    /\ grabput_flag r a d s = Ok (true, score, s').
Proof.
  intros Hwf Hc Hnone Hf Hr.
  rewrite (@grabput_grab_eq s r a d c Hc Hnone). cbv zeta. rewrite Hf, Hr.
  destruct (index_flag_get _ _ Hf) as [c0 Hc0].
  set (s3 := after_grab a f c (coordinates_actors s (step (map_size s) c d)) s).
  assert (Hok : teams_ok s3).
  { unfold s3. eapply teams_ok_after_grab; [now apply wf_teams_ok | exact Hc0]. }
  assert (Hc3 : Dict.get (actors_coordinates s3) a = Some c).
  { unfold s3, after_grab. destruct (coordinates_actors s _); exact Hc. }
  destruct (check_flag_return_total a Hok Hc3) as [score [s' H]].
  exists score, s'. split; [exact H|]. erewrite bind_ok by exact H. reflexivity.
Qed.



Lemma truthy_false p : truthy p = false <-> (p == 0)%Q.
Proof.
  unfold truthy. rewrite negb_false_iff. apply Qeq_bool_iff.
Qed.

Lemma drawn_below_truthy r p :
  (0 <= r)%Q -> Qlt_bool r p = true -> truthy p = true.
Proof.
  intros Hr Hlt. apply Qlt_bool_true in Hlt.
  destruct (truthy p) eqn:E; [reflexivity|].
  apply truthy_false in E. rewrite E in Hlt.
  exfalso. eapply Qlt_not_le; eauto.
Qed.

Lemma keeps_holders_refl s : keeps_holders s s.
Proof. intros H. exact H. Qed.

Lemma keeps_holders_trans s1 s2 s3 :
  keeps_holders s1 s2 -> keeps_holders s2 s3 -> keeps_holders s1 s3.
Proof. unfold keeps_holders. auto. Qed.

Lemma keeps_holders_set_flags f c s : keeps_holders s (set_flags_coordinates f c s).
Proof. intros H. exact H. Qed.

Lemma keeps_holders_set_actors a c s : keeps_holders s (set_actors_coordinates a c s).
Proof. intros H. exact H. Qed.

Lemma keeps_holders_clear a s : keeps_holders s (set_flag_of a None s).
Proof.
  intros H a' f. destruct (key_eqb_spec a a') as [<-|Hne].
  - rewrite flag_of_set_flag_of_eq. discriminate.
  - rewrite flag_of_set_flag_of_ne by assumption. apply H.
Qed.

Lemma keeps_holders_give a f s :
  truthy (grab a) = true -> keeps_holders s (set_flag_of a (Some f) s).
Proof.
  intros Ha H a' f'. destruct (key_eqb_spec a a') as [<-|Hne].
  - intros _. exact Ha.
  - rewrite flag_of_set_flag_of_ne by assumption. apply H.
Qed.

#[export] Hint Resolve keeps_holders_refl keeps_holders_trans keeps_holders_set_flags
  keeps_holders_set_actors keeps_holders_clear keeps_holders_give : frames.

(** In play no actor with grab probability 0.0 comes to hold a Flag:
    every engine operation keeps [holders_can_grab], the draws of
    [random.random()] being at least 0. *)
Lemma holders_can_grab_preserved s :
  holders_can_grab s ->
  (forall a d res s', move a d s = Ok (res, s') -> holders_can_grab s')
  /\ (forall r k a d res s',
        BoardActions.attack r k a d s = Ok (res, s') -> holders_can_grab s')
  /\ (forall r a d res s',
        (0 <= r)%Q -> grabput_flag r a d s = Ok (res, s') -> holders_can_grab s').
Proof.
  intros Hinv. split; [|split].
  - intros a d res s' H.
    apply (@frame_move keeps_holders) in H; eauto with frames.
  - intros r k a d res s' H.
    apply (@frame_attack keeps_holders) in H; eauto with frames.
  - intros r a d res s' Hr H.
    apply (@frame_grabput_flag keeps_holders (fun a => truthy (grab a) = true) r)
      in H; eauto using drawn_below_truthy with frames.
Qed.



(** An actor with grab probability 0.0 next to a Flag: the grab fails
    and the board is unchanged. *)
Example grab_with_probability_zero :
  grabput_flag (1 # 2) Sample.z0 Directions.down Sample.guarded
  = Ok (false, None, Sample.guarded)
  /\ coordinates_flags Sample.guarded (Sample.at_ 2 2) = Some Sample.flagA.
Proof. split; reflexivity. Qed.


Lemma flag_of_after_return_other s a a' g home :
  a' <> a -> flag_of (after_return a g home s) a' = flag_of s a'.
Proof.
  intros Hne. unfold after_return. destruct (flag_of s a); [|reflexivity].
  rewrite flag_of_set_flag_of_ne by congruence. reflexivity.
Qed.

Lemma flag_of_after_return_self s a g home f :
  flag_of s a = Some f -> flag_of (after_return a g home s) a = None.
Proof.
  intros Hf. unfold after_return. rewrite Hf. apply flag_of_set_flag_of_eq.
Qed.

Lemma flags_coordinates_after_grab s a f own occupant :
  flags_coordinates (after_grab a f own occupant s)
  = Dict.set (flags_coordinates s) f own.
Proof. unfold after_grab. destruct occupant; reflexivity. Qed.

Lemma flag_of_after_grab_self s a f own occupant :
  occupant <> Some a ->
  flag_of (after_grab a f own occupant s) a = Some f.
Proof.
  intros Hne. unfold after_grab. destruct occupant as [t|].
  - rewrite flag_of_set_flag_of_ne by congruence. apply flag_of_set_flag_of_eq.
  - apply flag_of_set_flag_of_eq.
Qed.

Lemma flag_of_after_grab_other s a f own occupant a' :
  a' <> a -> occupant <> Some a' ->
  flag_of (after_grab a f own occupant s) a' = flag_of s a'.
Proof.
  intros Hne Hocc. unfold after_grab. destruct occupant as [t|].
  - rewrite !flag_of_set_flag_of_ne by congruence. reflexivity.
  - rewrite flag_of_set_flag_of_ne by congruence. reflexivity.
Qed.

Lemma flag_of_after_grab_occupant s a f own t :
  flag_of (after_grab a f own (Some t) s) t = None.
Proof. unfold after_grab. apply flag_of_set_flag_of_eq. Qed.

(** C7 (as amended).  After a successful grab of the Flag [F] at a
    target cell other than the grabber's own cell: when the flag-return
    check that ends the grab sends no Flag home, the coordinates of [F]
    are the grabber's cell and the grabber's Flag reference is [F];
    when it sends a Flag home (the Flag resolved at the grabber's cell
    belongs to the grabber's team, as when an actor grabs its own
    team's Flag), that Flag is at its team's Base, the grabber's
    reference is cleared, and [F], if it is another Flag, is at the
    grabber's cell.  Every actor other than the grabber that does not
    occupy the target cell keeps its Flag reference, and an occupant of
    the target cell that held [F] has its reference cleared. *)
Theorem grab_success_effect s r a d c F :
  board_wf s ->
  Dict.get (actors_coordinates s) a = Some c ->
  flag_of s a = None ->
  let target := step (map_size s) c d in
  target <> c ->
  coordinates_flags s target = Some F ->
  Qlt_bool r (grab a) = true ->
  exists score s',
    grabput_flag r a d s = Ok (true, score, s')
    /\ match returned_flag (after_grab a F c (coordinates_actors s target) s) a c with
       | None =>
           Dict.get (flags_coordinates s') F = Some c /\ flag_of s' a = Some F
       | Some g =>
           flag_team g = team a
           /\ (exists home,
                 Dict.get (bases_coordinates s) {| base_team := flag_team g |}
                 = Some home
                 /\ Dict.get (flags_coordinates s') g = Some home)
           /\ flag_of s' a = None
           /\ (g <> F -> Dict.get (flags_coordinates s') F = Some c)
       end
    /\ (forall a', a' <> a -> coordinates_actors s target <> Some a' ->
                   flag_of s' a' = flag_of s a')
    /\ (forall t, coordinates_actors s target = Some t ->
                  flag_of s t = Some F -> flag_of s' t = None).
Proof.
  intros Hwf Hc Hnone target Hne HF Hr.
  destruct (@grab_returns s r a d c F Hwf Hc Hnone HF Hr) as [score [s' [Hret H]]].
  fold target in Hret.
  set (occupant := coordinates_actors s target) in *.
  set (s3 := after_grab a F c occupant s) in *.
  exists score, s'. split; [exact H|].
  assert (Hocc : occupant <> Some a).
  { unfold occupant. intros E. apply DictFacts.inverse_get_Some in E.
    apply (DictFacts.In_get_nodup _ _ _ (wf_actors Hwf)) in E. congruence. }
  destruct (index_flag_get _ _ HF) as [c0 Hc0].
  assert (Hok : teams_ok s3).
  { unfold s3. eapply teams_ok_after_grab; [now apply wf_teams_ok | exact Hc0]. }
  assert (Hc3 : Dict.get (actors_coordinates s3) a = Some c).
  { unfold s3, after_grab. destruct occupant; exact Hc. }
  assert (Hself : flag_of s3 a = Some F)
    by (unfold s3; now apply flag_of_after_grab_self).
  assert (HF3 : Dict.get (flags_coordinates s3) F = Some c).
  { unfold s3. rewrite flags_coordinates_after_grab. apply DictFacts.get_set_eq. }
  destruct (returned_flag s3 a c) as [g|] eqn:Er.
  - destruct (@check_flag_return_some s3 a c g Hok Hc3 Er)
      as [home [Hhome [_ [Hteam Heq]]]].
    rewrite Heq in Hret. injection Hret as _ <-.
    split; [|split].
    + split; [exact Hteam|]. split; [|split].
      * exists home. split.
        -- unfold s3, after_grab in Hhome. destruct occupant; exact Hhome.
        -- rewrite flags_coordinates_after_return. apply DictFacts.get_set_eq.
      * eapply flag_of_after_return_self; eauto.
      * intros HgF. rewrite flags_coordinates_after_return.
        rewrite DictFacts.get_set_ne by assumption. exact HF3.
    + intros a' Ha' Hn. rewrite flag_of_after_return_other by assumption.
      unfold s3. now apply flag_of_after_grab_other.
    + intros t Ht _. assert (t <> a) by congruence.
      rewrite flag_of_after_return_other by assumption.
      unfold s3. rewrite Ht. apply flag_of_after_grab_occupant.
  - rewrite (@check_flag_return_none s3 a c Hc3 Er) in Hret.
    injection Hret as _ <-. split; [|split].
    + split; assumption.
    + intros a' Ha' Hn. unfold s3. now apply flag_of_after_grab_other.
    + intros t Ht _. unfold s3. rewrite Ht. apply flag_of_after_grab_occupant.
Qed.

Lemma grab_success_effect_witness :
  board_wf Sample.raid
  /\ Dict.get (actors_coordinates Sample.raid) Sample.b0 = Some (Sample.at_ 2 3)
  /\ flag_of Sample.raid Sample.b0 = None
  /\ Sample.at_ 2 2 <> Sample.at_ 2 3
  /\ coordinates_flags Sample.raid (Sample.at_ 2 2) = Some Sample.flagA
  /\ Qlt_bool 0 (grab Sample.b0) = true
  /\ exists score s',
       grabput_flag 0 Sample.b0 Directions.down Sample.raid = Ok (true, score, s')
       /\ (Dict.get (flags_coordinates s') Sample.flagA = Some (Sample.at_ 2 3)
           /\ flag_of s' Sample.b0 = Some Sample.flagA)
       /\ (forall a', a' <> Sample.b0 ->
                      coordinates_actors Sample.raid (Sample.at_ 2 2) <> Some a' ->
                      flag_of s' a' = flag_of Sample.raid a')
       /\ (forall t, coordinates_actors Sample.raid (Sample.at_ 2 2) = Some t ->
                     flag_of Sample.raid t = Some Sample.flagA -> flag_of s' t = None).
Proof.
  assert (Hne : Sample.at_ 2 2 <> Sample.at_ 2 3) by discriminate.
  split; [reflexivity|]. split; [reflexivity|]. split; [reflexivity|].
  split; [exact Hne|]. split; [reflexivity|]. split; [reflexivity|].
  exact (@grab_success_effect Sample.raid 0 Sample.b0 Directions.down
           (Sample.at_ 2 3) Sample.flagA eq_refl eq_refl eq_refl Hne eq_refl eq_refl).
Defined.

(** C7, the claim as stated, fails: a0 grabs the Flag of its own team
    from the base next to it; the grab succeeds, the flag-return check
    sends the Flag back to the base, and a0 holds no Flag. *)
Lemma grab_own_flag_returns_it :
  exists score s',
    board_wf Sample.board
    /\ grabput_flag 0 Sample.a0 Directions.left Sample.board = Ok (true, score, s')
    /\ coordinates_flags Sample.board (Sample.at_ 2 2) = Some Sample.flagA
    /\ Dict.get (actors_coordinates s') Sample.a0 = Some (Sample.at_ 3 2)
    /\ Dict.get (flags_coordinates s') Sample.flagA = Some (Sample.at_ 2 2)
    /\ flag_of s' Sample.a0 = None.
Proof.
  eexists _, _. split; [reflexivity|].
  split; [vm_compute; reflexivity|]. split; [reflexivity|].
  split; [reflexivity|]. split; reflexivity.
Qed.

(* ================================================================== *)
(** * The flag-return check on a cell with two flags *)

(** The board [Sample.stacked] arises in play: a0 carries the enemy
    flag and steps onto the cell where the flag of its own team rests. *)
Example stacked_arises :
  move Sample.a0 Directions.right Sample.own_flag_ahead
  = Ok (true, None, Sample.stacked).
Proof. reflexivity. Qed.

(** C3, the code at the failing input: the flag of team A is on the
    cell of a0, an actor of team A, together with the flag of team B.
    The index resolves the flag of team B at that cell, so the check
    sends nothing home: the flag of team A stays away from its base at
    (2,2), and the board is unchanged. *)
Theorem flag_return_misses_own_flag :
  Dict.get (actors_coordinates Sample.stacked) Sample.a0 = Some (Sample.at_ 4 2)
  /\ Dict.get (flags_coordinates Sample.stacked) Sample.flagA = Some (Sample.at_ 4 2)
  /\ flag_team Sample.flagA = team Sample.a0
  /\ Dict.get (bases_coordinates Sample.stacked) Sample.baseA = Some (Sample.at_ 2 2)
  /\ coordinates_flags Sample.stacked (Sample.at_ 4 2) = Some Sample.flagB
  /\ _check_flag_return_conditions Sample.a0 Sample.stacked
     = Ok (None, Sample.stacked).
Proof. repeat split. Qed.

(* ================================================================== *)
(** * Placement of the bases and flags *)

Lemma setup_area_positions_In n center d c :
  In c (BoardSetup._get_area_positions n center d) <->
  in_window d center c /\ on_board n c.
Proof.
  unfold BoardSetup._get_area_positions, in_window, on_board.
  rewrite window_In. tauto.
Qed.

Lemma interior_In n c :
  In c (BoardSetup.interior n) <-> 2 <= x c < n - 2 /\ 2 <= y c < n - 2.
Proof.
  unfold BoardSetup.interior. rewrite in_flat_map. split.
  - intros [i [Hi Hin]]. apply in_map_iff in Hin. destruct Hin as [j [<- Hj]].
    apply zrange_In in Hi. apply zrange_In in Hj. simpl. lia.
  - intros [Hx Hy]. exists (x c). split; [now apply zrange_In|].
    apply in_map_iff. exists (y c). split; [now destruct c | now apply zrange_In].
Qed.

Lemma interior_on_board n c : In c (BoardSetup.interior n) -> on_board n c.
Proof. rewrite interior_In. unfold on_board. lia. Qed.

Lemma outside_window_apart d cb c : ~ in_window d cb c -> at_least_apart d cb c.
Proof.
  unfold in_window, at_least_apart, sq_distance. intros H.
  set (dx := x cb - x c) in *. set (dy := y cb - y c) in *.
  pose proof (Z.square_nonneg dx) as Hx. pose proof (Z.square_nonneg dy) as Hy.
  destruct (Z.max_spec 0 d) as [[Hd ->]|[Hd ->]]; [|lia].
  assert (Hcases : dx >= d \/ - dx >= d \/ dy >= d \/ - dy >= d) by lia.
  destruct Hcases as [?|[?|[?|?]]]; nia.
Qed.

Lemma at_least_apart_sym d c1 c2 : at_least_apart d c1 c2 -> at_least_apart d c2 c1.
Proof.
  unfold at_least_apart. intros H.
  replace (sq_distance c2 c1) with (sq_distance c1 c2)
    by (unfold sq_distance; ring).
  exact H.
Qed.

Lemma NoDup_nth_error_neq {A} (l : list A) i j a b :
  NoDup l -> i <> j -> nth_error l i = Some a -> nth_error l j = Some b -> a <> b.
Proof.
  intros Hnd Hne Hi Hj ->. apply Hne.
  eapply (proj1 (NoDup_nth_error l) Hnd).
  - apply nth_error_Some. congruence.
  - congruence.
Qed.

Lemma placement_inv_start teams n d bd :
  placement_inv teams n d 0 (BoardSetup.interior n) bd.
Proof.
  constructor; try (intros; lia).
  intros c Hc. now apply interior_on_board.
Qed.

Lemma get_bases_placed bd team chosen t :
  Dict.get (bases_coordinates
              (set_flags_coordinates {| flag_team := team |} chosen
                 (set_bases_coordinates {| base_team := team |} chosen bd)))
           {| base_team := t |}
  = if key_eqb team t then Some chosen
    else Dict.get (bases_coordinates bd) {| base_team := t |}.
Proof.
  cbn [bases_coordinates set_flags_coordinates set_bases_coordinates].
  destruct (key_eqb_spec team t) as [->|Hne].
  - apply DictFacts.get_set_eq.
  - apply DictFacts.get_set_ne. congruence.
Qed.

Lemma get_flags_placed bd team chosen t :
  Dict.get (flags_coordinates
              (set_flags_coordinates {| flag_team := team |} chosen
                 (set_bases_coordinates {| base_team := team |} chosen bd)))
           {| flag_team := t |}
  = if key_eqb team t then Some chosen
    else Dict.get (flags_coordinates bd) {| flag_team := t |}.
Proof.
  cbn [flags_coordinates set_flags_coordinates set_bases_coordinates].
  destruct (key_eqb_spec team t) as [->|Hne].
  - apply DictFacts.get_set_eq.
  - apply DictFacts.get_set_ne. congruence.
Qed.

Lemma placement_inv_step teams n d i available_places bd team chosen :
  NoDup teams ->
  placement_inv teams n d i available_places bd ->
  nth_error teams i = Some team ->
  In chosen available_places ->
  placement_inv teams n d (S i)
    (filter (fun c => negb (contains (BoardSetup._get_area_positions n chosen d) c))
            available_places)
    (set_flags_coordinates {| flag_team := team |} chosen
       (set_bases_coordinates {| base_team := team |} chosen bd)).
Proof.
  intros Hnd [Hass Hsp Hpool Hboard] Hteam Hchosen.
  assert (Hother : forall j t, (j < i)%nat -> nth_error teams j = Some t ->
                               key_eqb team t = false).
  { intros j t Hj Ht. apply key_eqb_neq.
    eapply (@NoDup_nth_error_neq _ teams i j); eauto. lia. }
  constructor.
  - intros j t Hj Ht. unfold assigned. rewrite get_bases_placed, get_flags_placed.
    destruct (Nat.eq_dec j i) as [->|Hne].
    + assert (t = team) by congruence. subst t. rewrite key_eqb_refl. eauto.
    + rewrite (Hother j t) by (assumption || lia). apply (Hass j); [lia|assumption].
  - intros j1 j2 t1 t2 c1 c2 Hj1 Hj2 Hne Ht1 Ht2.
    rewrite !get_bases_placed.
    destruct (Nat.eq_dec j1 i) as [->|Hn1]; destruct (Nat.eq_dec j2 i) as [->|Hn2].
    + congruence.
    + assert (t1 = team) by congruence. subst t1. rewrite key_eqb_refl.
      rewrite (Hother j2 t2) by (assumption || lia).
      intros [= <-] Hc2. apply at_least_apart_sym, outside_window_apart.
      apply (Hpool chosen j2 t2 c2); auto; lia.
    + assert (t2 = team) by congruence. subst t2. rewrite key_eqb_refl.
      rewrite (Hother j1 t1) by (assumption || lia).
      intros Hc1 [= <-]. apply outside_window_apart.
      apply (Hpool chosen j1 t1 c1); auto; lia.
    + rewrite (Hother j1 t1), (Hother j2 t2) by (assumption || lia).
      apply (Hsp j1 j2); auto; lia.
  - intros c j t cb Hc Hj Ht. rewrite get_bases_placed.
    apply filter_In in Hc. destruct Hc as [Hc Hout].
    apply negb_true_iff, contains_not_In in Hout.
    destruct (Nat.eq_dec j i) as [->|Hne].
    + assert (t = team) by congruence. subst t. rewrite key_eqb_refl.
      intros [= <-] Hw. apply Hout. apply setup_area_positions_In. auto.
    + rewrite (Hother j t) by (assumption || lia).
      intros Hcb. apply (Hpool c j t cb); auto; lia.
  - intros c Hc. apply filter_In in Hc. now apply Hboard.
Qed.

Lemma nth_mod_In {A} (l : list A) (k : nat) (default : A) :
  l <> [] -> In (nth (k mod List.length l) l default) l.
Proof.
  intros Hne. apply nth_In. apply Nat.mod_upper_bound.
  destruct l; [congruence | simpl; lia].
Qed.

Lemma place_loop_inv teams n d draws :
  NoDup teams ->
  forall fuel drawn i available_places bd bd',
    placement_inv teams n d i available_places bd ->
    BoardSetup.place_loop fuel teams n d draws drawn i available_places bd = Some bd' ->
    exists pool, placement_inv teams n d (List.length teams) pool bd'.
Proof.
  intros Hnd. induction fuel as [|fuel IH]; intros drawn i avail bd bd' Hinv H;
    cbn [BoardSetup.place_loop] in H; [discriminate|].
  destruct (nth_error teams i) as [team|] eqn:Hteam.
  - destruct avail as [|c0 rest].
    + eapply IH; [apply placement_inv_start | exact H].
    + eapply IH; [|exact H].
      apply placement_inv_step; auto.
      apply nth_mod_In. discriminate.
  - injection H as <-. apply nth_error_None in Hteam.
    exists avail. destruct Hinv as [Hass Hsp Hpool Hboard].
    constructor; intros.
    + eapply Hass; eauto. lia.
    + eapply (Hsp j1 j2); eauto; lia.
    + eapply (Hpool c j); eauto; lia.
    + auto.
Qed.

(* ------------------------------------------------------------------ *)
(** ** Lists and areas *)

Lemma length_zrange a b : List.length (zrange a b) = Z.to_nat (b - a).
Proof. unfold zrange. now rewrite length_map, length_seq. Qed.

Lemma NoDup_zrange a b : NoDup (zrange a b).
Proof.
  unfold zrange. generalize (Z.to_nat (b - a)) as len. intros len.
  generalize 0%nat as start. induction len as [|len IH]; intros start; simpl.
  - constructor.
  - constructor; [|apply IH].
    rewrite in_map_iff. intros [i [E Hi]]. apply in_seq in Hi. lia.
Qed.

Lemma NoDup_flat_map {A B} (f : A -> list B) (l : list A) :
  NoDup l ->
  (forall a, NoDup (f a)) ->
  (forall a b c, In c (f a) -> In c (f b) -> a = b) ->
  NoDup (flat_map f l).
Proof.
  intros Hl Hf Hdisj. induction Hl as [|a l Hnotin Hl IH]; simpl.
  - constructor.
  - apply NoDup_app; auto.
    intros c Hc Hin. apply in_flat_map in Hin. destruct Hin as [b [Hb Hcb]].
    apply Hnotin. now rewrite (Hdisj a b c Hc Hcb).
Qed.

Lemma NoDup_map_injective {A B} (f : A -> B) (l : list A) :
  (forall a b, f a = f b -> a = b) -> NoDup l -> NoDup (map f l).
Proof.
  intros Hinj Hl. induction Hl as [|a l Hnotin Hl IH]; simpl; constructor; auto.
  rewrite in_map_iff. intros [b [E Hb]]. apply Hinj in E. congruence.
Qed.

Lemma assigned_placed bd team chosen t :
  assigned bd t \/ t = team ->
  assigned (set_flags_coordinates {| flag_team := team |} chosen
              (set_bases_coordinates {| base_team := team |} chosen bd)) t.
Proof.
  intros H. unfold assigned. rewrite get_bases_placed, get_flags_placed.
  destruct (key_eqb_spec team t) as [->|Hne]; [eauto|].
  destruct H as [H|H]; [exact H | congruence].
Qed.

Unset Implicit Arguments.

(* ------------------------------------------------------------------ *)
(** ** Runs of the placement loop *)

(** What a finished run leaves, whether or not the pool was reset on
    the way: the last pass has placed every team. *)
Lemma finished_run_placed teams n d draws fuel bd bd' :
  NoDup teams ->
  BoardSetup.place_loop fuel teams n d draws 0 0 (BoardSetup.interior n) bd = Some bd' ->
  (forall t, In t teams -> assigned bd' t)
  /\ (forall t1 t2 c1 c2,
        In t1 teams -> In t2 teams -> t1 <> t2 ->
        Dict.get (bases_coordinates bd') {| base_team := t1 |} = Some c1 ->
        Dict.get (bases_coordinates bd') {| base_team := t2 |} = Some c2 ->
        at_least_apart d c1 c2).
Proof.
  intros Hnd H.
  destruct (@place_loop_inv teams n d draws Hnd _ _ _ _ _ _
              (placement_inv_start teams n d bd) H) as [pool [Hass Hsp _ _]].
  split.
  - intros t Hin. apply In_nth_error in Hin. destruct Hin as [j Hj].
    apply (Hass j); [|assumption]. apply nth_error_Some. congruence.
  - intros t1 t2 c1 c2 H1 H2 Hne Hc1 Hc2.
    apply In_nth_error in H1, H2. destruct H1 as [j1 Hj1], H2 as [j2 Hj2].
    apply (Hsp j1 j2 t1 t2); auto.
    + apply nth_error_Some. congruence.
    + apply nth_error_Some. congruence.
    + congruence.
Qed.

(** With room for every choice the pool is never found empty, and the
    loop finishes after one pass. *)
Lemma place_loop_room teams n d draws :
  forall k i available_places bd drawn,
    (i + k = List.length teams)%nat ->
    always_room k n d available_places = true ->
    (forall j t, (j < i)%nat -> nth_error teams j = Some t -> assigned bd t) ->
    exists bd',
      BoardSetup.place_loop (S k) teams n d draws drawn i available_places bd = Some bd'
      /\ forall t, In t teams -> assigned bd' t.
Proof.
  induction k as [|k IH]; intros i avail bd drawn Hik Hroom Hass.
  - cbn [BoardSetup.place_loop].
    assert (Hnone : nth_error teams i = None) by (apply nth_error_None; lia).
    rewrite Hnone. exists bd. split; [reflexivity|].
    intros t Hin. apply In_nth_error in Hin. destruct Hin as [j Hj].
    apply (Hass j); [|assumption].
    assert (j < List.length teams)%nat by (apply nth_error_Some; congruence). lia.
  - destruct (nth_error teams i) as [team|] eqn:Hteam.
    2:{ apply nth_error_None in Hteam. lia. }
    destruct avail as [|c0 rest] eqn:Eavail; [discriminate Hroom|].
    rewrite <- Eavail in *.
    set (chosen := nth (draws drawn mod List.length avail) avail c0).
    assert (Hchosen : In chosen avail).
    { unfold chosen. apply nth_mod_In. rewrite Eavail. discriminate. }
    assert (Hstep : BoardSetup.place_loop (S (S k)) teams n d draws drawn i avail bd
                    = BoardSetup.place_loop (S k) teams n d draws (S drawn) (S i)
                        (filter (fun c =>
                                   negb (contains
                                           (BoardSetup._get_area_positions n chosen d) c))
                                avail)
                        (set_flags_coordinates {| flag_team := team |} chosen
                           (set_bases_coordinates {| base_team := team |} chosen bd))).
    { cbn [BoardSetup.place_loop]. rewrite Hteam. unfold chosen.
      rewrite Eavail. reflexivity. }
    rewrite Hstep. apply IH.
    + lia.
    + assert (Hall : forallb
                       (fun chosen =>
                          always_room k n d
                            (filter (fun c =>
                                       negb (contains
                                               (BoardSetup._get_area_positions n chosen d)
                                               c))
                                    avail))
                       avail = true).
      { rewrite Eavail in Hroom |- *. exact Hroom. }
      exact (proj1 (forallb_forall _ _) Hall chosen Hchosen).
    + intros j t Hj Ht. apply assigned_placed.
      destruct (Nat.eq_dec j i) as [->|Hne].
      * right. congruence.
      * left. apply (Hass j); [lia | assumption].
Qed.

Lemma in_areab_spec n d center c :
  contains (BoardSetup._get_area_positions n center d) c = in_areab n d center c.
Proof.
  apply Bool.eq_true_iff_eq.
  rewrite contains_In, setup_area_positions_In.
  unfold in_window, on_board, in_areab.
  rewrite !andb_true_iff, !Z.leb_le, !Z.ltb_lt. tauto.
Qed.

Lemma place_loop_by_test_eq teams n d draws :
  forall fuel drawn i available_places bd,
    place_loop_by_test fuel teams n d draws drawn i available_places bd
    = BoardSetup.place_loop fuel teams n d draws drawn i available_places bd.
Proof.
  induction fuel as [|fuel IH]; intros drawn i avail bd; [reflexivity|].
  cbn [place_loop_by_test BoardSetup.place_loop].
  destruct (nth_error teams i) as [team|]; [|reflexivity].
  destruct avail as [|c0 rest]; [apply IH|].
  cbv zeta. rewrite IH. f_equal. apply filter_ext.
  intros c. now rewrite in_areab_spec.
Qed.

(** C8 (as amended).  For a list of distinct teams, with [d] the
    [minimum_distance] that the code computes in floats: whenever the
    placement loop has finished, every team's Base and Flag have the
    same coordinates and the Bases of two distinct teams are at
    Euclidean distance at least [d] from each other, whether or not the
    pool was reset on the way; and when no sequence of choices can
    empty the pool before the last team is placed, the loop does
    finish, within one pass, for every sequence of random choices and
    on every board, and leaves such a placement. *)
Theorem bases_and_flags_placed teams n d :
  NoDup teams ->
  BoardSetup.minimum_distance n (List.length teams) = Ok d ->
  (forall fuel draws bd bd',
     BoardSetup._place_bases_and_flags fuel teams n draws bd = Ok (Some bd') ->
     (forall t, In t teams -> assigned bd' t)
     /\ (forall t1 t2 c1 c2,
           In t1 teams -> In t2 teams -> t1 <> t2 ->
           Dict.get (bases_coordinates bd') {| base_team := t1 |} = Some c1 ->
           Dict.get (bases_coordinates bd') {| base_team := t2 |} = Some c2 ->
           at_least_apart d c1 c2))
  /\ (always_room (List.length teams) n d (BoardSetup.interior n) = true ->
      forall draws bd,
      exists bd',
        BoardSetup._place_bases_and_flags (S (List.length teams)) teams n draws bd
        = Ok (Some bd')
        /\ (forall t, In t teams -> assigned bd' t)
        /\ (forall t1 t2 c1 c2,
              In t1 teams -> In t2 teams -> t1 <> t2 ->
              Dict.get (bases_coordinates bd') {| base_team := t1 |} = Some c1 ->
              Dict.get (bases_coordinates bd') {| base_team := t2 |} = Some c2 ->
              at_least_apart d c1 c2)).
Proof.
  intros Hnd Hd. unfold BoardSetup._place_bases_and_flags. rewrite Hd. split.
  - intros fuel draws bd bd' H. injection H as H.
    exact (finished_run_placed teams n d draws fuel bd bd' Hnd H).
  - intros Hroom draws bd.
    destruct (place_loop_room teams n d draws (List.length teams) 0%nat
                (BoardSetup.interior n) bd 0%nat eq_refl Hroom)
      as [bd' [Heq _]]; [intros j t Hj; lia|].
    exists bd'. rewrite Heq. split; [reflexivity|].
    exact (finished_run_placed teams n d draws _ bd bd' Hnd Heq).
Qed.

(** Four teams on a board of size 7 are placed for every sequence of
    choices; two teams on a board of size 10 are placed in a run whose
    first choice, (4,4), empties the pool, so that the loop starts over. *)
Lemma bases_and_flags_placed_witness :
  (NoDup [Sample.A; Sample.B; Sample.C; Sample.D]
   /\ BoardSetup.minimum_distance 7 (List.length [Sample.A; Sample.B; Sample.C; Sample.D])
      = Ok 1
   /\ always_room (List.length [Sample.A; Sample.B; Sample.C; Sample.D]) 7 1
        (BoardSetup.interior 7) = true
   /\ forall draws,
      exists bd',
        BoardSetup._place_bases_and_flags
          (S (List.length [Sample.A; Sample.B; Sample.C; Sample.D]))
          [Sample.A; Sample.B; Sample.C; Sample.D] 7 draws Sample.fresh
        = Ok (Some bd')
        /\ (forall t, In t [Sample.A; Sample.B; Sample.C; Sample.D] -> assigned bd' t)
        /\ (forall t1 t2 c1 c2,
              In t1 [Sample.A; Sample.B; Sample.C; Sample.D] ->
              In t2 [Sample.A; Sample.B; Sample.C; Sample.D] -> t1 <> t2 ->
              Dict.get (bases_coordinates bd') {| base_team := t1 |} = Some c1 ->
              Dict.get (bases_coordinates bd') {| base_team := t2 |} = Some c2 ->
              at_least_apart 1 c1 c2))
  /\ (NoDup [Sample.A; Sample.B]
      /\ BoardSetup.minimum_distance 10 (List.length [Sample.A; Sample.B]) = Ok 4
      /\ exists bd',
           BoardSetup._place_bases_and_flags 5 [Sample.A; Sample.B] 10
             (fun k => match k with 0 => 14 | _ => 0 end%nat) Sample.fresh
           = Ok (Some bd')
           /\ (forall t, In t [Sample.A; Sample.B] -> assigned bd' t)
           /\ (forall t1 t2 c1 c2,
                 In t1 [Sample.A; Sample.B] -> In t2 [Sample.A; Sample.B] -> t1 <> t2 ->
                 Dict.get (bases_coordinates bd') {| base_team := t1 |} = Some c1 ->
                 Dict.get (bases_coordinates bd') {| base_team := t2 |} = Some c2 ->
                 at_least_apart 4 c1 c2)).
Proof.
  assert (Hnd : NoDup [Sample.A; Sample.B; Sample.C; Sample.D])
    by (apply nodupb_NoDup; reflexivity).
  assert (Hd : BoardSetup.minimum_distance 7
                 (List.length [Sample.A; Sample.B; Sample.C; Sample.D]) = Ok 1)
    by (vm_compute; reflexivity).
  assert (Hroom : always_room (List.length [Sample.A; Sample.B; Sample.C; Sample.D])
                    7 1 (BoardSetup.interior 7) = true)
    by (vm_compute; reflexivity).
  assert (Hnd' : NoDup [Sample.A; Sample.B]) by (apply nodupb_NoDup; reflexivity).
  assert (Hd' : BoardSetup.minimum_distance 10 (List.length [Sample.A; Sample.B]) = Ok 4)
    by (vm_compute; reflexivity).
  split.
  - split; [exact Hnd|]. split; [exact Hd|]. split; [exact Hroom|].
    intros draws.
    exact (proj2 (bases_and_flags_placed [Sample.A; Sample.B; Sample.C; Sample.D] 7 1
                    Hnd Hd) Hroom draws Sample.fresh).
  - split; [exact Hnd'|]. split; [exact Hd'|].
    destruct (BoardSetup._place_bases_and_flags 5 [Sample.A; Sample.B] 10
                (fun k => match k with 0 => 14 | _ => 0 end%nat) Sample.fresh)
      as [[bd'|]|e] eqn:E.
    + exists bd'. split; [reflexivity|].
      exact (proj1 (bases_and_flags_placed [Sample.A; Sample.B] 10 4 Hnd' Hd')
               5%nat (fun k => match k with 0 => 14 | _ => 0 end%nat)
               Sample.fresh bd' E).
    + vm_compute in E. discriminate E.
    + vm_compute in E. discriminate E.
Defined.

(** C8, the claim as stated, fails: for map_size 186 and 25 teams the
    formula floor(sqrt(map_size^2 / teamCount) / 1.2) - 1 is 30, but
    in floats the square root of 1383.84 is 37.199999999999996, divided
    by 1.2 that is 30.999999999999996, and the code gets a
    [minimum_distance] of 29.  When every choice takes the first cell
    of the pool, the loop finishes within its first pass (26
    iterations for 25 teams, so the pool was never reset) with the
    Bases of the teams "A" and "B" on (2,2) and (2,31): 29 apart. *)
Lemma bases_closer_than_the_formula :
  NoDup Sample.league
  /\ List.length Sample.league = 25%nat
  /\ minimum_distance_formula 186 25 = 30
  /\ BoardSetup.minimum_distance 186 25 = Ok 29
  /\ exists bd',
       BoardSetup._place_bases_and_flags 26 Sample.league 186 (fun _ => 0%nat)
         Sample.fresh = Ok (Some bd')
       /\ Dict.get (bases_coordinates bd') Sample.baseA
          = Some (Sample.at_ 2 2)
       /\ Dict.get (flags_coordinates bd') Sample.flagA
          = Some (Sample.at_ 2 2)
       /\ Dict.get (bases_coordinates bd') Sample.baseB
          = Some (Sample.at_ 2 31)
       /\ Dict.get (flags_coordinates bd') Sample.flagB
          = Some (Sample.at_ 2 31)
       /\ ~ at_least_apart (minimum_distance_formula 186 25)
            (Sample.at_ 2 2) (Sample.at_ 2 31).
Proof.
  split; [apply nodupb_NoDup; vm_compute; reflexivity|].
  split; [reflexivity|]. split; [vm_compute; reflexivity|].
  assert (Hd : BoardSetup.minimum_distance 186 25 = Ok 29) by (vm_compute; reflexivity).
  split; [exact Hd|].
  eexists. split.
  - unfold BoardSetup._place_bases_and_flags.
    change (List.length Sample.league) with 25%nat. rewrite Hd.
    rewrite <- place_loop_by_test_eq. vm_compute. reflexivity.
  - split; [vm_compute; reflexivity|]. split; [vm_compute; reflexivity|].
    split; [vm_compute; reflexivity|]. split; [vm_compute; reflexivity|].
    unfold at_least_apart. vm_compute. intros H. apply H. reflexivity.
Qed.

(** On a board of size 5 with two teams, the pool is the single cell
    (2,2) and the minimum distance is 1: placing the first team empties
    the pool, and the reset starts over with the first team. *)
Lemma place_loop_cycles (draws : nat -> nat) :
  forall fuel drawn bd0,
    BoardSetup.place_loop fuel [Sample.A; Sample.B] 5 1 draws drawn 0
                          [Sample.at_ 2 2] bd0 = None
    /\ BoardSetup.place_loop fuel [Sample.A; Sample.B] 5 1 draws drawn 1 [] bd0 = None.
Proof.
  induction fuel as [|fuel IH]; intros drawn bd0; [split; reflexivity|].
  split.
  - cbn [BoardSetup.place_loop nth_error]. cbn [List.length].
    rewrite Nat.mod_1_r. cbn [nth].
    change (filter _ [Sample.at_ 2 2]) with (@nil Coordinates).
    apply IH.
  - cbn [BoardSetup.place_loop nth_error].
    change (BoardSetup.interior 5) with [Sample.at_ 2 2]. apply IH.
Qed.

(** For an empty team list the first line of the method divides by
    zero. *)
Example empty_team_list_raises fuel n draws bd :
  BoardSetup._place_bases_and_flags fuel [] n draws bd = Raise ZeroDivisionError.
Proof.
  unfold BoardSetup._place_bases_and_flags, BoardSetup.minimum_distance.
  cbn [List.length Z.of_nat]. unfold int_true_divide.
  destruct (n ^ 2); reflexivity.
Qed.

(** C9, the claim as stated, fails: with map_size 5 and two teams the
    loop does not finish, whatever the random choices, on whatever
    board and however many iterations it is given. *)
Lemma placement_never_finishes :
  5 <= 5 /\ [Sample.A; Sample.B] <> []
  /\ forall fuel draws bd,
       BoardSetup._place_bases_and_flags fuel [Sample.A; Sample.B] 5 draws bd
       = Ok None.
Proof.
  split; [lia|]. split; [discriminate|]. intros fuel draws bd.
  unfold BoardSetup._place_bases_and_flags.
  assert (Hd : BoardSetup.minimum_distance 5 (List.length [Sample.A; Sample.B]) = Ok 1)
    by (vm_compute; reflexivity).
  rewrite Hd.
  change (BoardSetup.interior 5) with [Sample.at_ 2 2].
  f_equal. apply (place_loop_cycles draws).
Qed.

(* ------------------------------------------------------------------ *)
(** ** Choices that empty the pool *)

Lemma forallb_false_In {A : Type} (f : A -> bool) (l : list A) :
  forallb f l = false -> exists a, In a l /\ f a = false.
Proof.
  induction l as [|a l IH]; simpl; [discriminate|].
  destruct (f a) eqn:E.
  - intros H. destruct (IH H) as [b [Hb Hf]]. exists b. auto.
  - intros _. exists a. auto.
Qed.

Lemma always_room_false n d :
  forall k pool,
    always_room k n d pool = false ->
    exists path, (List.length path < k)%nat /\ runs_dry n d path pool = true.
Proof.
  induction k as [|k IH]; intros pool H; [discriminate|].
  destruct pool as [|c0 rest].
  - exists []. split; [simpl; lia | reflexivity].
  - cbn [always_room] in H. apply forallb_false_In in H.
    destruct H as [chosen [Hin Hfalse]].
    destruct (IH _ Hfalse) as [path [Hlen Hdry]].
    destruct (In_nth _ _ c0 Hin) as [idx [Hidx Hnth]].
    exists (idx :: path). split; [simpl; lia|].
    cbn [runs_dry]. rewrite (Nat.mod_small _ _ Hidx), Hnth. exact Hdry.
Qed.

Lemma repeat_path_start path :
  forall j, (j < List.length path)%nat -> repeat_path path (0 + j) = nth j path 0%nat.
Proof.
  intros j Hj. unfold repeat_path. cbn [Nat.add]. now rewrite Nat.mod_small.
Qed.

Lemma repeat_path_next path D :
  (forall j, (j < List.length path)%nat -> repeat_path path (D + j) = nth j path 0%nat) ->
  forall j, (j < List.length path)%nat ->
            repeat_path path (D + List.length path + j) = nth j path 0%nat.
Proof.
  intros H j Hj. rewrite <- (H j Hj). unfold repeat_path.
  replace (D + List.length path + j)%nat with (D + j + 1 * List.length path)%nat by lia.
  now rewrite Nat.Div0.mod_add.
Qed.

(** One pass along the choices of [path]: the pool is empty before the
    team of index [length path] is placed, and the loop starts over. *)
Lemma place_loop_along teams n d path D fuel :
  (List.length path < List.length teams)%nat ->
  (forall j, (j < List.length path)%nat -> repeat_path path (D + j) = nth j path 0%nat) ->
  (forall fuel' bd',
     (fuel' < fuel)%nat ->
     BoardSetup.place_loop fuel' teams n d (repeat_path path) (D + List.length path) 0
       (BoardSetup.interior n) bd' = None) ->
  forall suffix prefix pool bd fuel0,
    (fuel0 <= fuel)%nat ->
    path = prefix ++ suffix ->
    runs_dry n d suffix pool = true ->
    BoardSetup.place_loop fuel0 teams n d (repeat_path path)
      (D + List.length prefix) (List.length prefix) pool bd = None.
Proof.
  intros Hlen Haligned Hlater.
  induction suffix as [|k suffix IH]; intros prefix pool bd fuel0 Hfuel Hpath Hdry.
  - destruct pool as [|c0 rest]; [|discriminate Hdry].
    rewrite app_nil_r in Hpath. subst prefix.
    destruct fuel0 as [|f]; [reflexivity|]. cbn [BoardSetup.place_loop].
    destruct (nth_error teams (List.length path)) as [team|] eqn:Hteam.
    + apply Hlater. lia.
    + apply nth_error_None in Hteam. lia.
  - destruct pool as [|c0 rest]; [discriminate Hdry|].
    cbn [runs_dry] in Hdry.
    assert (Hpos : (List.length prefix < List.length path)%nat).
    { rewrite Hpath, length_app. simpl. lia. }
    destruct fuel0 as [|f]; [reflexivity|]. cbn [BoardSetup.place_loop].
    destruct (nth_error teams (List.length prefix)) as [team|] eqn:Hteam.
    2:{ apply nth_error_None in Hteam. lia. }
    rewrite (Haligned _ Hpos).
    assert (Hk : nth (List.length prefix) path 0%nat = k).
    { rewrite Hpath. apply nth_middle. }
    rewrite Hk. cbv zeta.
    replace (S (D + List.length prefix)) with (D + List.length (prefix ++ [k]))%nat
      by (rewrite length_app; simpl; lia).
    replace (S (List.length prefix)) with (List.length (prefix ++ [k]))
      by (rewrite length_app; simpl; lia).
    apply IH.
    + lia.
    + rewrite <- app_assoc. exact Hpath.
    + exact Hdry.
Qed.

Lemma place_loop_dries teams n d path :
  (List.length path < List.length teams)%nat ->
  runs_dry n d path (BoardSetup.interior n) = true ->
  forall fuel D bd,
    (forall j, (j < List.length path)%nat ->
               repeat_path path (D + j) = nth j path 0%nat) ->
    BoardSetup.place_loop fuel teams n d (repeat_path path) D 0
      (BoardSetup.interior n) bd = None.
Proof.
  intros Hlen Hdry. induction fuel as [fuel IHf] using lt_wf_ind.
  intros D bd Haligned.
  pose proof (place_loop_along teams n d path D fuel Hlen Haligned) as Halong.
  specialize (Halong
                (fun fuel' bd' Hlt =>
                   IHf fuel' Hlt (D + List.length path)%nat bd'
                       (repeat_path_next path D Haligned))).
  specialize (Halong path [] (BoardSetup.interior n) bd fuel (Nat.le_refl _)
                eq_refl Hdry).
  cbn [List.length] in Halong. rewrite Nat.add_0_r in Halong. exact Halong.
Qed.

(** C9 (as amended).  For a team list and a map size for which the
    code computes a [minimum_distance] [d] (the team list is not empty
    and the quotient is within the floats): if no sequence of choices
    can empty the pool before the last team is placed, the placement
    loop finishes within one pass for every sequence of random choices
    and on every board, with every team assigned a Base and a Flag
    position; if some sequence of choices can, then there are random
    choices for which the loop never finishes, on no board and with no
    number of iterations, because on an empty pool the code starts over
    with the first team. *)
Theorem placement_finishes_iff_room teams n d :
  BoardSetup.minimum_distance n (List.length teams) = Ok d ->
  (always_room (List.length teams) n d (BoardSetup.interior n) = true ->
   forall draws bd,
   exists bd',
     BoardSetup._place_bases_and_flags (S (List.length teams)) teams n draws bd
     = Ok (Some bd')
     /\ forall t, In t teams -> assigned bd' t)
  /\ (always_room (List.length teams) n d (BoardSetup.interior n) = false ->
      exists draws,
      forall fuel bd,
        BoardSetup._place_bases_and_flags fuel teams n draws bd = Ok None).
Proof.
  intros Hd. unfold BoardSetup._place_bases_and_flags. rewrite Hd. split.
  - intros Hroom draws bd.
    destruct (place_loop_room teams n d draws (List.length teams) 0%nat
                (BoardSetup.interior n) bd 0%nat eq_refl Hroom)
      as [bd' [Heq Hass]]; [intros j t Hj; lia|].
    exists bd'. rewrite Heq. split; [reflexivity | exact Hass].
  - intros Hroom.
    destruct (always_room_false n d _ _ Hroom) as [path [Hlen Hdry]].
    exists (repeat_path path). intros fuel bd. f_equal.
    exact (place_loop_dries teams n d path Hlen Hdry fuel 0%nat bd
             (repeat_path_start path)).
Qed.

Lemma placement_finishes_iff_room_witness :
  (BoardSetup.minimum_distance 7 (List.length [Sample.A; Sample.B; Sample.C; Sample.D])
   = Ok 1
   /\ always_room (List.length [Sample.A; Sample.B; Sample.C; Sample.D]) 7 1
        (BoardSetup.interior 7) = true
   /\ forall draws,
      exists bd',
        BoardSetup._place_bases_and_flags
          (S (List.length [Sample.A; Sample.B; Sample.C; Sample.D]))
          [Sample.A; Sample.B; Sample.C; Sample.D] 7 draws Sample.fresh
        = Ok (Some bd')
        /\ forall t, In t [Sample.A; Sample.B; Sample.C; Sample.D] -> assigned bd' t)
  /\ (BoardSetup.minimum_distance 5 (List.length [Sample.A; Sample.B]) = Ok 1
      /\ always_room (List.length [Sample.A; Sample.B]) 5 1 (BoardSetup.interior 5)
         = false
      /\ exists draws,
         forall fuel,
           BoardSetup._place_bases_and_flags fuel [Sample.A; Sample.B] 5
             draws Sample.fresh = Ok None).
Proof.
  assert (Hd : BoardSetup.minimum_distance 7
                 (List.length [Sample.A; Sample.B; Sample.C; Sample.D]) = Ok 1)
    by (vm_compute; reflexivity).
  assert (Hroom : always_room (List.length [Sample.A; Sample.B; Sample.C; Sample.D])
                    7 1 (BoardSetup.interior 7) = true)
    by (vm_compute; reflexivity).
  assert (Hd' : BoardSetup.minimum_distance 5 (List.length [Sample.A; Sample.B]) = Ok 1)
    by (vm_compute; reflexivity).
  assert (Hno : always_room (List.length [Sample.A; Sample.B]) 5 1
                  (BoardSetup.interior 5) = false)
    by (vm_compute; reflexivity).
  split.
  - split; [exact Hd|]. split; [exact Hroom|]. intros draws.
    exact (proj1 (placement_finishes_iff_room
                    [Sample.A; Sample.B; Sample.C; Sample.D] 7 1 Hd)
             Hroom draws Sample.fresh).
  - split; [exact Hd'|]. split; [exact Hno|].
    destruct (proj2 (placement_finishes_iff_room [Sample.A; Sample.B] 5 1 Hd')
                Hno) as [draws H].
    exists draws. intros fuel. exact (H fuel Sample.fresh).
Defined.

(* ================================================================== *)
(** * Further properties of the engine *)


(** ** The target cell *)

Lemma step_on_board n c d :
  on_board n c ->
  on_board n (step n c d)
  /\ (step n c d = c <-> at_edge n c d)
  /\ (step n c d <> c ->
      match d with
      | Directions.right => x (step n c d) = x c + 1 /\ y (step n c d) = y c
      | Directions.left => x (step n c d) = x c - 1 /\ y (step n c d) = y c
      | Directions.up => x (step n c d) = x c /\ y (step n c d) = y c + 1
      | Directions.down => x (step n c d) = x c /\ y (step n c d) = y c - 1
      end).
Proof.
  intros [Hx Hy]. destruct c as [cx cy]; simpl in Hx, Hy.
  destruct d; unfold step, on_board, at_edge; simpl.
  - split; [lia|]. split.
    + split; [intros [= H]; lia | intros H; f_equal; lia].
    + intros Hne. split; [|reflexivity].
      destruct (Z.eq_dec cx 0) as [->|]; [exfalso; apply Hne; f_equal; lia | lia].
  - split; [lia|]. split.
    + split; [intros [= H]; lia | intros H; f_equal; lia].
    + intros Hne. split; [|reflexivity].
      destruct (Z.eq_dec cx (n - 1)) as [->|];
        [exfalso; apply Hne; f_equal; lia | lia].
  - split; [lia|]. split.
    + split; [intros [= H]; lia | intros H; f_equal; lia].
    + intros Hne. split; [reflexivity|].
      destruct (Z.eq_dec cy 0) as [->|]; [exfalso; apply Hne; f_equal; lia | lia].
  - split; [lia|]. split.
    + split; [intros [= H]; lia | intros H; f_equal; lia].
    + intros Hne. split; [reflexivity|].
      destruct (Z.eq_dec cy (n - 1)) as [->|];
        [exfalso; apply Hne; f_equal; lia | lia].
Qed.

(** X1.  For an actor on the board, [calc_target_coordinates] returns,
    without changing the board, a cell of the board that differs from
    the actor's cell by one step in the direction; it is the actor's
    own cell exactly when the actor stands at the edge that the
    direction points to. *)
Theorem target_is_adjacent_or_clamped s a d c :
  Dict.get (actors_coordinates s) a = Some c ->
  on_board (map_size s) c ->
  exists t,
    calc_target_coordinates a d s = Ok (t, s)
    /\ on_board (map_size s) t
    /\ (t = c <-> at_edge (map_size s) c d)
    /\ (t <> c ->
        match d with
        | Directions.right => x t = x c + 1 /\ y t = y c
        | Directions.left => x t = x c - 1 /\ y t = y c
        | Directions.up => x t = x c /\ y t = y c + 1
        | Directions.down => x t = x c /\ y t = y c - 1
        end).
Proof.
  intros Hc Hb. exists (step (map_size s) c d).
  split; [now apply calc_target_coordinates_ok|].
  now apply step_on_board.
Qed.

Lemma target_is_adjacent_or_clamped_witness :
  Dict.get (actors_coordinates Sample.board) Sample.a0 = Some (Sample.at_ 3 2)
  /\ on_board (map_size Sample.board) (Sample.at_ 3 2)
  /\ exists t,
       calc_target_coordinates Sample.a0 Directions.up Sample.board
       = Ok (t, Sample.board)
       /\ on_board (map_size Sample.board) t
       /\ (t = Sample.at_ 3 2
           <-> at_edge (map_size Sample.board) (Sample.at_ 3 2) Directions.up)
       /\ (t <> Sample.at_ 3 2 -> x t = 3 /\ y t = 2 + 1).
Proof.
  assert (Hb : on_board (map_size Sample.board) (Sample.at_ 3 2))
    by (unfold on_board; simpl; lia).
  split; [reflexivity|]. split; [exact Hb|].
  exact (@target_is_adjacent_or_clamped Sample.board Sample.a0 Directions.up
           (Sample.at_ 3 2) eq_refl Hb).
Defined.

(** X2.  A move towards the edge at which the actor stands does
    nothing: it reports moved = false and no team, and the board is
    unchanged.  No other property of the board is needed. *)
Theorem move_off_the_edge s a d c :
  Dict.get (actors_coordinates s) a = Some c ->
  on_board (map_size s) c ->
  at_edge (map_size s) c d ->
  move a d s = Ok (false, None, s).
Proof.
  intros Hc Hb He.
  apply (step_on_board (map_size s) c d Hb) in He. unfold move.
  erewrite bind_ok by (apply calc_target_coordinates_ok; exact Hc).
  erewrite bind_ok by (apply try_put_actor_eq; exact Hc).
  unfold can_enter. rewrite He, key_eqb_refl. reflexivity.
Qed.

Lemma move_off_the_edge_witness :
  Dict.get (actors_coordinates Sample.edge) Sample.a0 = Some (Sample.at_ 0 4)
  /\ on_board (map_size Sample.edge) (Sample.at_ 0 4)
  /\ at_edge (map_size Sample.edge) (Sample.at_ 0 4) Directions.left
  /\ move Sample.a0 Directions.left Sample.edge = Ok (false, None, Sample.edge).
Proof.
  assert (Hb : on_board (map_size Sample.edge) (Sample.at_ 0 4))
    by (unfold on_board; simpl; lia).
  split; [reflexivity|]. split; [exact Hb|]. split; [reflexivity|].
  exact (@move_off_the_edge Sample.edge Sample.a0 Directions.left
           (Sample.at_ 0 4) eq_refl Hb eq_refl).
Defined.

(** ** Attacks *)

Lemma index_of_occupant s t c :
  NoDup (Dict.keys (actors_coordinates s)) ->
  one_actor_per_cell s ->
  Dict.get (actors_coordinates s) t = Some c ->
  coordinates_actors s c = Some t.
Proof.
  intros Hnd Hone Ht.
  destruct (DictFacts.inverse_get_is_some (actors_coordinates s) c) as [t' Ht'].
  { eapply DictFacts.In_values. apply DictFacts.get_In. exact Ht. }
  unfold coordinates_actors. rewrite Ht'. f_equal.
  apply DictFacts.inverse_get_Some in Ht'.
  apply (DictFacts.In_get_nodup _ _ _ Hnd) in Ht'.
  now apply (Hone t' t c).
Qed.

Lemma attack_eq s r k a d c :
  Dict.get (actors_coordinates s) a = Some c ->
  truthy (attack_probability a) = true ->
  BoardActions.attack r k a d s =
  match coordinates_actors s (step (map_size s) c d) with
  | Some target =>
      if Qlt_bool r (attack_probability a)
      then bind (_respawn k target) (fun _ => ret true) s
      else Ok (false, s)
  | None => Ok (false, s)
  end.
Proof.
  intros Hc Ht. unfold BoardActions.attack. rewrite Ht. cbn [negb].
  erewrite bind_ok by (apply calc_target_coordinates_ok; exact Hc).
  rewrite bind_gets.
  destruct (coordinates_actors s (step (map_size s) c d)); [|reflexivity].
  destruct (Qlt_bool r (attack_probability a)); reflexivity.
Qed.

(** X3.  An attack does nothing and reports False when the attacker's
    attack probability is 0 (whether or not the attacker is on the
    board), when no actor is on the target cell, or when the draw is
    not below the attack probability: the board is unchanged. *)
Theorem attack_without_effect s r k a d :
  (truthy (attack_probability a) = false ->
   BoardActions.attack r k a d s = Ok (false, s))
  /\ (forall c,
        Dict.get (actors_coordinates s) a = Some c ->
        ~ In (step (map_size s) c d) (Dict.values (actors_coordinates s))
        \/ (attack_probability a <= r)%Q ->
        BoardActions.attack r k a d s = Ok (false, s)).
Proof.
  split.
  - intros Ht. unfold BoardActions.attack. rewrite Ht. reflexivity.
  - intros c Hc H. destruct (truthy (attack_probability a)) eqn:Ht.
    + rewrite (@attack_eq s r k a d c Hc Ht).
      destruct H as [Hfree | Hmiss].
      * apply DictFacts.inverse_get_None in Hfree.
        unfold coordinates_actors. now rewrite Hfree.
      * apply Qlt_bool_false in Hmiss. rewrite Hmiss.
        destruct (coordinates_actors s _); reflexivity.
    + unfold BoardActions.attack. rewrite Ht. reflexivity.
Qed.

Lemma respawned_other_actor s t c' a' :
  a' <> t ->
  Dict.get (actors_coordinates (respawned t c' s)) a'
  = Dict.get (actors_coordinates s) a'.
Proof.
  intros Hne. rewrite actors_coordinates_respawned.
  apply DictFacts.get_set_ne. congruence.
Qed.

Lemma respawned_flags s t c' :
  flags_coordinates (respawned t c' s) = flags_coordinates s.
Proof. unfold respawned. destruct (flag_of s t); reflexivity. Qed.

Lemma respawned_flag_of_self s t c' : flag_of (respawned t c' s) t = None.
Proof.
  unfold respawned. destruct (flag_of s t) eqn:Ef.
  - change (flag_of (set_flag_of t None s) t = None). apply flag_of_set_flag_of_eq.
  - exact Ef.
Qed.

Lemma respawned_flag_of_other s t c' a' :
  a' <> t -> flag_of (respawned t c' s) a' = flag_of s a'.
Proof.
  intros Hne. unfold respawned. destruct (flag_of s t); [|reflexivity].
  change (flag_of (set_flag_of t None s) a' = flag_of s a').
  apply flag_of_set_flag_of_ne. congruence.
Qed.

Lemma attack_respawns s r k a d c t base_c :
  NoDup (Dict.keys (actors_coordinates s)) ->
  one_actor_per_cell s ->
  Dict.get (actors_coordinates s) a = Some c ->
  Dict.get (actors_coordinates s) t = Some (step (map_size s) c d) ->
  truthy (attack_probability a) = true ->
  (r < attack_probability a)%Q ->
  Dict.get (bases_coordinates s) {| base_team := team t |} = Some base_c ->
  spawn_candidates s base_c <> [] ->
  exists c' s',
    BoardActions.attack r k a d s = Ok (true, s')
    /\ In c' (spawn_candidates s base_c)
    /\ Dict.get (actors_coordinates s') t = Some c'
    /\ (forall a', a' <> t ->
          Dict.get (actors_coordinates s') a' = Dict.get (actors_coordinates s) a')
    /\ flags_coordinates s' = flags_coordinates s
    /\ flag_of s' t = None
    /\ (forall a', a' <> t -> flag_of s' a' = flag_of s a').
Proof.
  intros Hnd Hone Hc Ht Hcan Hr Hb Hne.
  rewrite (@attack_eq s r k a d c Hc Hcan).
  rewrite (index_of_occupant s t _ Hnd Hone Ht).
  apply Qlt_bool_true in Hr. rewrite Hr.
  destruct (respawn_total k t s Hb Hne) as [c' [Hin Heq]].
  exists c', (respawned t c' s). erewrite bind_ok by exact Heq.
  split; [reflexivity|]. split; [exact Hin|]. split; [|split; [|split; [|split]]].
  - rewrite actors_coordinates_respawned. apply DictFacts.get_set_eq.
  - intros a' Ha'. now apply respawned_other_actor.
  - apply respawned_flags.
  - apply respawned_flag_of_self.
  - intros a' Ha'. now apply respawned_flag_of_other.
Qed.

(** X4.  An attack hits when the attacker can attack, the actor [t]
    stands on the target cell and the draw is below the attack
    probability (any draw of [random.random()] is, for probability
    1.0).  If the team of [t] has its Base and a spawn cell is free,
    the attack reports True and [t] is moved to a free spawn cell;
    every other actor stays where it is, no Flag moves, the Flag
    reference of [t] is cleared and the others are kept. *)
Theorem attack_hits s r k a d c t base_c :
  NoDup (Dict.keys (actors_coordinates s)) ->
  one_actor_per_cell s ->
  Dict.get (actors_coordinates s) a = Some c ->
  Dict.get (actors_coordinates s) t = Some (step (map_size s) c d) ->
  truthy (attack_probability a) = true ->
  (r < attack_probability a)%Q ->
  Dict.get (bases_coordinates s) {| base_team := team t |} = Some base_c ->
  spawn_candidates s base_c <> [] ->
  exists c' s',
    BoardActions.attack r k a d s = Ok (true, s')
    /\ In c' (spawn_candidates s base_c)
    /\ Dict.get (actors_coordinates s') t = Some c'
    /\ (forall a', a' <> t ->
          Dict.get (actors_coordinates s') a' = Dict.get (actors_coordinates s) a')
    /\ flags_coordinates s' = flags_coordinates s
    /\ flag_of s' t = None
    /\ (forall a', a' <> t -> flag_of s' a' = flag_of s a').
Proof. exact (attack_respawns s r k a d c t base_c). Qed.

Lemma attack_hits_witness :
  NoDup (Dict.keys (actors_coordinates Sample.edge))
  /\ one_actor_per_cell Sample.edge
  /\ Dict.get (actors_coordinates Sample.edge) Sample.a0 = Some (Sample.at_ 0 4)
  /\ Dict.get (actors_coordinates Sample.edge) Sample.b0
     = Some (step (map_size Sample.edge) (Sample.at_ 0 4) Directions.right)
  /\ truthy (attack_probability Sample.a0) = true
  /\ (0 < attack_probability Sample.a0)%Q
  /\ Dict.get (bases_coordinates Sample.edge) {| base_team := team Sample.b0 |}
     = Some (Sample.at_ 7 7)
  /\ spawn_candidates Sample.edge (Sample.at_ 7 7) <> []
  /\ exists c' s',
       BoardActions.attack 0 5 Sample.a0 Directions.right Sample.edge = Ok (true, s')
       /\ In c' (spawn_candidates Sample.edge (Sample.at_ 7 7))
       /\ Dict.get (actors_coordinates s') Sample.b0 = Some c'
       /\ (forall a', a' <> Sample.b0 ->
             Dict.get (actors_coordinates s') a'
             = Dict.get (actors_coordinates Sample.edge) a')
       /\ flags_coordinates s' = flags_coordinates Sample.edge
       /\ flag_of s' Sample.b0 = None
       /\ (forall a', a' <> Sample.b0 -> flag_of s' a' = flag_of Sample.edge a').
Proof.
  assert (Hnd : NoDup (Dict.keys (actors_coordinates Sample.edge)))
    by (apply nodupb_NoDup; reflexivity).
  assert (Hone : one_actor_per_cell Sample.edge)
    by (apply one_actor_per_cell_nodup; reflexivity).
  assert (Hr : (0 < attack_probability Sample.a0)%Q) by reflexivity.
  assert (Hne : spawn_candidates Sample.edge (Sample.at_ 7 7) <> []) by discriminate.
  split; [exact Hnd|]. split; [exact Hone|]. split; [reflexivity|].
  split; [reflexivity|]. split; [reflexivity|]. split; [exact Hr|].
  split; [reflexivity|]. split; [exact Hne|].
  exact (attack_hits Sample.edge 0 5%nat Sample.a0 Directions.right (Sample.at_ 0 4)
           Sample.b0 (Sample.at_ 7 7) Hnd Hone eq_refl eq_refl eq_refl Hr eq_refl Hne).
Defined.

(** X5.  The target cell of an actor at the edge is its own cell, so an
    attack towards the edge hits the attacker itself: when the draw is
    below its attack probability and a spawn cell around the Base of
    its own team is free, the attack reports True and the attacker is
    respawned on such a cell, which is not the cell it stood on; it
    holds no Flag afterwards, a Flag that it carried stays where it
    was, and every other actor keeps its cell and its Flag. *)
Theorem attack_towards_edge_hits_attacker s r k a d c base_c :
  NoDup (Dict.keys (actors_coordinates s)) ->
  one_actor_per_cell s ->
  Dict.get (actors_coordinates s) a = Some c ->
  on_board (map_size s) c ->
  at_edge (map_size s) c d ->
  truthy (attack_probability a) = true ->
  (r < attack_probability a)%Q ->
  Dict.get (bases_coordinates s) {| base_team := team a |} = Some base_c ->
  spawn_candidates s base_c <> [] ->
  exists c' s',
    BoardActions.attack r k a d s = Ok (true, s')
    /\ In c' (spawn_candidates s base_c)
    /\ Dict.get (actors_coordinates s') a = Some c'
    /\ c' <> c
    /\ flag_of s' a = None
    /\ flags_coordinates s' = flags_coordinates s
    /\ (forall a', a' <> a ->
          Dict.get (actors_coordinates s') a' = Dict.get (actors_coordinates s) a'
          /\ flag_of s' a' = flag_of s a').
Proof.
  intros Hnd Hone Hc Hb He Hcan Hr Hbase Hne.
  apply (step_on_board (map_size s) c d Hb) in He.
  assert (Hself : Dict.get (actors_coordinates s) a = Some (step (map_size s) c d))
    by (rewrite He; exact Hc).
  destruct (attack_respawns s r k a d c a base_c Hnd Hone Hc Hself Hcan Hr Hbase Hne)
    as [c' [s' [Heq [Hin [Hpos [Hothers [Hflags [Hnone Hrefs]]]]]]]].
  exists c', s'. split; [exact Heq|]. split; [exact Hin|]. split; [exact Hpos|].
  split; [|split; [exact Hnone | split; [exact Hflags|]]].
  - intros ->. apply spawn_candidates_In in Hin. destruct Hin as [_ Hfree].
    apply Hfree. unfold forbidden_positions. rewrite !in_app_iff. right; left.
    eapply DictFacts.In_values. apply DictFacts.get_In. exact Hc.
  - intros a' Ha'. split; [exact (Hothers a' Ha') | exact (Hrefs a' Ha')].
Qed.

Lemma attack_towards_edge_hits_attacker_witness :
  NoDup (Dict.keys (actors_coordinates Sample.edge_carrier))
  /\ one_actor_per_cell Sample.edge_carrier
  /\ Dict.get (actors_coordinates Sample.edge_carrier) Sample.a0 = Some (Sample.at_ 0 4)
  /\ on_board (map_size Sample.edge_carrier) (Sample.at_ 0 4)
  /\ at_edge (map_size Sample.edge_carrier) (Sample.at_ 0 4) Directions.left
  /\ truthy (attack_probability Sample.a0) = true
  /\ (0 < attack_probability Sample.a0)%Q
  /\ Dict.get (bases_coordinates Sample.edge_carrier) {| base_team := team Sample.a0 |}
     = Some (Sample.at_ 2 2)
  /\ spawn_candidates Sample.edge_carrier (Sample.at_ 2 2) <> []
  /\ flag_of Sample.edge_carrier Sample.a0 = Some Sample.flagB
  /\ exists c' s',
       BoardActions.attack 0 5 Sample.a0 Directions.left Sample.edge_carrier = Ok (true, s')
       /\ In c' (spawn_candidates Sample.edge_carrier (Sample.at_ 2 2))
       /\ Dict.get (actors_coordinates s') Sample.a0 = Some c'
       /\ c' <> Sample.at_ 0 4
       /\ flag_of s' Sample.a0 = None
       /\ flags_coordinates s' = flags_coordinates Sample.edge_carrier
       /\ (forall a', a' <> Sample.a0 ->
             Dict.get (actors_coordinates s') a'
             = Dict.get (actors_coordinates Sample.edge_carrier) a'
             /\ flag_of s' a' = flag_of Sample.edge_carrier a').
Proof.
  assert (Hnd : NoDup (Dict.keys (actors_coordinates Sample.edge_carrier)))
    by (apply nodupb_NoDup; reflexivity).
  assert (Hone : one_actor_per_cell Sample.edge_carrier)
    by (apply one_actor_per_cell_nodup; reflexivity).
  assert (Hb : on_board (map_size Sample.edge_carrier) (Sample.at_ 0 4))
    by (unfold on_board; simpl; lia).
  assert (Hr : (0 < attack_probability Sample.a0)%Q) by reflexivity.
  assert (Hne : spawn_candidates Sample.edge_carrier (Sample.at_ 2 2) <> []) by discriminate.
  split; [exact Hnd|]. split; [exact Hone|]. split; [reflexivity|].
  split; [exact Hb|]. split; [reflexivity|]. split; [reflexivity|].
  split; [exact Hr|]. split; [reflexivity|]. split; [exact Hne|].
  split; [reflexivity|].
  exact (attack_towards_edge_hits_attacker Sample.edge_carrier 0 5%nat Sample.a0
           Directions.left (Sample.at_ 0 4) (Sample.at_ 2 2)
           Hnd Hone eq_refl Hb eq_refl eq_refl Hr eq_refl Hne).
Defined.

Lemma respawn_no_cell k t s base_c :
  Dict.get (bases_coordinates s) {| base_team := team t |} = Some base_c ->
  spawn_candidates s base_c = [] ->
  _respawn k t s = Raise IndexError.
Proof.
  intros Hb Hnil. unfold _respawn. do 3 mstep.
  unfold _place_actor_in_area.
  fold (spawn_candidates s base_c). rewrite Hnil.
  unfold bind, choice. simpl. destruct k; reflexivity.
Qed.

(** X6.  When an attack hits and no spawn cell around the Base of the
    hit actor's team is free, [random.choice] gets an empty list: the
    attack raises IndexError instead of returning. *)
Theorem attack_without_spawn_cell_raises s r k a d c t base_c :
  NoDup (Dict.keys (actors_coordinates s)) ->
  one_actor_per_cell s ->
  Dict.get (actors_coordinates s) a = Some c ->
  Dict.get (actors_coordinates s) t = Some (step (map_size s) c d) ->
  truthy (attack_probability a) = true ->
  (r < attack_probability a)%Q ->
  Dict.get (bases_coordinates s) {| base_team := team t |} = Some base_c ->
  spawn_candidates s base_c = [] ->
  BoardActions.attack r k a d s = Raise IndexError.
Proof.
  intros Hnd Hone Hc Ht Hcan Hr Hb Hnil.
  rewrite (@attack_eq s r k a d c Hc Hcan).
  rewrite (index_of_occupant s t _ Hnd Hone Ht).
  apply Qlt_bool_true in Hr. rewrite Hr.
  unfold bind. now rewrite (respawn_no_cell k t s base_c Hb Hnil).
Qed.

Lemma attack_without_spawn_cell_raises_witness :
  NoDup (Dict.keys (actors_coordinates Sample.full))
  /\ one_actor_per_cell Sample.full
  /\ Dict.get (actors_coordinates Sample.full) Sample.a0 = Some (Sample.at_ 0 0)
  /\ Dict.get (actors_coordinates Sample.full) Sample.b0
     = Some (step (map_size Sample.full) (Sample.at_ 0 0) Directions.right)
  /\ truthy (attack_probability Sample.a0) = true
  /\ (0 < attack_probability Sample.a0)%Q
  /\ Dict.get (bases_coordinates Sample.full) {| base_team := team Sample.b0 |}
     = Some (Sample.at_ 1 1)
  /\ spawn_candidates Sample.full (Sample.at_ 1 1) = []
  /\ BoardActions.attack 0 5 Sample.a0 Directions.right Sample.full = Raise IndexError.
Proof.
  assert (Hnd : NoDup (Dict.keys (actors_coordinates Sample.full)))
    by (apply nodupb_NoDup; reflexivity).
  assert (Hone : one_actor_per_cell Sample.full)
    by (apply one_actor_per_cell_nodup; reflexivity).
  assert (Hr : (0 < attack_probability Sample.a0)%Q) by reflexivity.
  split; [exact Hnd|]. split; [exact Hone|]. split; [reflexivity|].
  split; [reflexivity|]. split; [reflexivity|]. split; [exact Hr|].
  split; [reflexivity|]. split; [reflexivity|].
  exact (attack_without_spawn_cell_raises Sample.full 0 5%nat Sample.a0
           Directions.right (Sample.at_ 0 0) Sample.b0 (Sample.at_ 1 1)
           Hnd Hone eq_refl eq_refl eq_refl Hr eq_refl eq_refl).
Defined.

(** ** What the operations never touch *)

Lemma same_static_refl s : same_static s s.
Proof. unfold same_static. auto. Qed.

Lemma same_static_trans s1 s2 s3 :
  same_static s1 s2 -> same_static s2 s3 -> same_static s1 s3.
Proof.
  unfold same_static. intros [H1 [H2 [H3 H4]]] [G1 [G2 [G3 G4]]].
  repeat split; congruence.
Qed.

Lemma same_static_set_flags f c s : same_static s (set_flags_coordinates f c s).
Proof. unfold same_static. auto. Qed.

Lemma same_static_set_actors a c s : same_static s (set_actors_coordinates a c s).
Proof. unfold same_static. auto. Qed.

Lemma same_static_set_flag_of a o s : same_static s (set_flag_of a o s).
Proof. unfold same_static. auto. Qed.

(** X7.  No engine operation that returns changes the fixed part of the
    board: the map size, the coordinates of the Bases, the Walls and
    the home-flag rule are what they were. *)
Theorem static_parts_never_change s :
  (forall a d res s', move a d s = Ok (res, s') -> same_static s s')
  /\ (forall r k a d res s',
        BoardActions.attack r k a d s = Ok (res, s') -> same_static s s')
  /\ (forall r a d res s',
        grabput_flag r a d s = Ok (res, s') -> same_static s s').
Proof.
  split; [|split].
  - intros a d res s' H.
    apply (@frame_move same_static same_static_refl same_static_trans
             same_static_set_flags (fun a => same_static_set_flag_of a None)
             same_static_set_actors a d s res s' H).
  - intros r k a d res s' H.
    apply (@frame_attack same_static same_static_refl same_static_trans
             (fun a => same_static_set_flag_of a None)
             same_static_set_actors r k a d s res s' H).
  - intros r a d res s' H.
    apply (@frame_grabput_flag same_static (fun _ => True) r
             same_static_refl same_static_trans same_static_set_flags
             (fun a => same_static_set_flag_of a None)
             (fun a f s0 _ => same_static_set_flag_of a (Some f) s0)
             (fun _ _ => I) (fun _ _ => I) a d s res s' H).
Qed.

Lemma keys_respawned s t c c0 :
  Dict.get (actors_coordinates s) t = Some c0 ->
  Dict.keys (actors_coordinates (respawned t c s))
  = Dict.keys (actors_coordinates s).
Proof.
  intros Ht. rewrite actors_coordinates_respawned.
  eapply DictFacts.keys_set_in. exact Ht.
Qed.

(** X8.  No engine operation that returns adds or removes an actor:
    the actors of the board, in the order of the dictionary, are the
    same before and after [move], [attack] (the respawn included) and
    [grabput_flag]. *)
Theorem cast_never_changes s :
  (forall a d res s', move a d s = Ok (res, s') -> same_cast s s')
  /\ (forall r k a d res s',
        BoardActions.attack r k a d s = Ok (res, s') -> same_cast s s')
  /\ (forall r a d res s',
        grabput_flag r a d s = Ok (res, s') -> same_cast s s').
Proof.
  unfold same_cast. split; [|split].
  - intros a d res s' H.
    destruct (Dict.get (actors_coordinates s) a) as [c|] eqn:Hc.
    + destruct (@move_actors s a d res s' H) as [E | [c' [_ E]]]; rewrite E.
      * reflexivity.
      * eapply DictFacts.keys_set_in. exact Hc.
    + unfold move, calc_target_coordinates, bind, subscript in H.
      rewrite Hc in H. discriminate.
  - intros r k a d res s' H. apply attack_inv in H.
    destruct H as [[_ ->] | [_ [c [target [base_c [_ [Ht [_ [_ [c' [_ ->]]]]]]]]]]].
    + reflexivity.
    + apply DictFacts.inverse_get_Some in Ht.
      destruct (DictFacts.In_get_some _ _ _ Ht) as [c0 Hc0].
      eapply keys_respawned. exact Hc0.
  - intros r a d res s' H. apply grabput_flag_same_actors in H.
    unfold same_actors in H. now rewrite H.
Qed.

(** ** Well-formed boards stay well-formed *)

Lemma board_wf_iff s :
  board_wf s <->
  NoDup (Dict.keys (actors_coordinates s))
  /\ NoDup (Dict.keys (flags_coordinates s))
  /\ NoDup (Dict.keys (bases_coordinates s))
  /\ teams_ok s
  /\ (forall a f, In (a, Some f) (actors_flag s) ->
                  In f (Dict.keys (flags_coordinates s))).
Proof.
  unfold board_wf, board_wfb, teams_ok.
  rewrite !andb_true_iff, !nodupb_NoDup, !forallb_forall. split.
  - intros [[[[[Ha Hf] Hb] Hbf] Hfb] Hc]. repeat split; auto.
    + intros f Hin. specialize (Hfb f Hin).
      destruct (Dict.get (bases_coordinates s) _); [eauto | discriminate].
    + intros b Hin. specialize (Hbf b Hin).
      destruct (Dict.get (flags_coordinates s) _); [eauto | discriminate].
    + intros a f Hin. specialize (Hc _ Hin). simpl in Hc.
      destruct (Dict.get (flags_coordinates s) f) eqn:E; [|discriminate].
      eapply get_In_keys. exact E.
  - intros [Ha [Hf [Hb [[Hfb Hbf] Hc]]]]. repeat split; auto.
    + intros b Hin. destruct (Hbf b Hin) as [c ->]. reflexivity.
    + intros f Hin. destruct (Hfb f Hin) as [c ->]. reflexivity.
    + intros [a [f|]] Hin; simpl; [|reflexivity].
      destruct (DictFacts.In_keys_get _ _ (Hc a f Hin)) as [c ->]. reflexivity.
Qed.

Lemma wf_set_actors s a c :
  board_wf s -> board_wf (set_actors_coordinates a c s).
Proof.
  rewrite !board_wf_iff. intros [Ha [Hf [Hb [Hok Hc]]]].
  repeat split; try assumption; try apply Hok.
  simpl. now apply DictFacts.NoDup_keys_set.
Qed.

Lemma wf_set_flags s f c :
  board_wf s -> In f (Dict.keys (flags_coordinates s)) ->
  board_wf (set_flags_coordinates f c s)
  /\ Dict.keys (flags_coordinates (set_flags_coordinates f c s))
     = Dict.keys (flags_coordinates s).
Proof.
  intros Hwf Hin. destruct (DictFacts.In_keys_get _ _ Hin) as [c0 Hc0].
  assert (Hkeys : Dict.keys (flags_coordinates (set_flags_coordinates f c s))
                  = Dict.keys (flags_coordinates s))
    by (simpl; eapply DictFacts.keys_set_in; exact Hc0).
  split; [|exact Hkeys].
  pose proof (teams_ok_set_flags f c (wf_teams_ok Hwf) Hc0) as Hok.
  apply board_wf_iff in Hwf. destruct Hwf as [Ha [Hf [Hb [_ Hc]]]].
  apply board_wf_iff. rewrite Hkeys. repeat split; try assumption; apply Hok.
Qed.

Lemma wf_set_flag_of s a o :
  board_wf s ->
  (forall f, o = Some f -> In f (Dict.keys (flags_coordinates s))) ->
  board_wf (set_flag_of a o s).
Proof.
  rewrite !board_wf_iff. intros [Ha [Hf [Hb [Hok Hc]]]] Ho.
  repeat split; try assumption; try apply Hok.
  intros a' f' Hin. simpl in Hin. apply DictFacts.In_set in Hin.
  destruct Hin as [[_ E] | [[_ Hin] | [_ Hin]]]; simpl.
  - symmetry in E. now apply Ho.
  - now apply (Hc a' f').
  - now apply (Hc a' f').
Qed.

Lemma wf_clear s a : board_wf s -> board_wf (set_flag_of a None s).
Proof. intros Hwf. apply wf_set_flag_of; [assumption | discriminate]. Qed.

Lemma carried_in_keys s a f :
  board_wf s -> flag_of s a = Some f -> In f (Dict.keys (flags_coordinates s)).
Proof.
  intros Hwf Hf. destruct (wf_carried Hwf _ Hf) as [c Hc].
  eapply get_In_keys. exact Hc.
Qed.

Lemma wf_relocate s a target :
  board_wf s ->
  board_wf (relocate a target s)
  /\ Dict.keys (flags_coordinates (relocate a target s))
     = Dict.keys (flags_coordinates s).
Proof.
  intros Hwf. unfold relocate. destruct (flag_of s a) as [f|] eqn:Ef.
  - apply (wf_set_flags (set_actors_coordinates a target s) f target).
    + now apply wf_set_actors.
    + exact (carried_in_keys s a f Hwf Ef).
  - split; [now apply wf_set_actors | reflexivity].
Qed.

Lemma wf_after_return s a g home :
  board_wf s -> In g (Dict.keys (flags_coordinates s)) ->
  board_wf (after_return a g home s)
  /\ Dict.keys (flags_coordinates (after_return a g home s))
     = Dict.keys (flags_coordinates s).
Proof.
  intros Hwf Hin. destruct (wf_set_flags s g home Hwf Hin) as [Hwf1 Hk].
  unfold after_return. destruct (flag_of s a).
  - split; [now apply wf_clear | exact Hk].
  - split; assumption.
Qed.

Lemma wf_respawned s t c :
  board_wf s ->
  board_wf (respawned t c s)
  /\ Dict.keys (flags_coordinates (respawned t c s))
     = Dict.keys (flags_coordinates s).
Proof.
  intros Hwf. unfold respawned. destruct (flag_of s t).
  - split; [apply wf_set_actors; now apply wf_clear | reflexivity].
  - split; [now apply wf_set_actors | reflexivity].
Qed.

Lemma wf_check_flag_return s a t s' :
  board_wf s ->
  _check_flag_return_conditions a s = Ok (t, s') ->
  board_wf s'
  /\ Dict.keys (flags_coordinates s') = Dict.keys (flags_coordinates s).
Proof.
  intros Hwf H.
  destruct (Dict.get (actors_coordinates s) a) as [c|] eqn:Hc.
  - destruct (returned_flag s a c) as [g|] eqn:Er.
    + destruct (@check_flag_return_some s a c g (wf_teams_ok Hwf) Hc Er)
        as [home [_ [Hin [_ Heq]]]].
      rewrite Heq in H. injection H as _ <-.
      apply wf_after_return; [assumption|].
      unfold Dict.keys. change g with (fst (g, c)). now apply in_map.
    + rewrite (@check_flag_return_none s a c Hc Er) in H.
      injection H as _ <-. split; [assumption | reflexivity].
  - unfold _check_flag_return_conditions, bind, subscript in H.
    rewrite Hc in H. discriminate.
Qed.

Lemma check_score_conditions_state fo s t s' :
  _check_score_conditions fo s = Ok (t, s') -> s' = s.
Proof.
  intros H. symmetry.
  apply (@frame_check_score_conditions (fun s1 s2 => s2 = s1)
           (fun _ => eq_refl)
           (fun s1 s2 s3 H1 H2 => eq_trans H2 H1) fo s t s') in H.
  congruence.
Qed.

Lemma wf_put_down s a f target :
  board_wf s -> In f (Dict.keys (flags_coordinates s)) ->
  board_wf (put_down a f target s)
  /\ Dict.keys (flags_coordinates (put_down a f target s))
     = Dict.keys (flags_coordinates s).
Proof.
  intros Hwf Hin. destruct (wf_set_flags s f target Hwf Hin) as [Hwf1 Hk].
  unfold put_down. split; [now apply wf_clear | exact Hk].
Qed.

Lemma wf_handed s a f target t :
  board_wf s -> In f (Dict.keys (flags_coordinates s)) ->
  board_wf (handed a f target t s)
  /\ Dict.keys (flags_coordinates (handed a f target t s))
     = Dict.keys (flags_coordinates s).
Proof.
  intros Hwf Hin. destruct (wf_put_down s a f target Hwf Hin) as [Hwf1 Hk].
  unfold handed. split; [|exact Hk].
  apply wf_set_flag_of; [assumption|]. intros f' [= <-]. now rewrite Hk.
Qed.

Lemma wf_after_grab s a f own occupant :
  board_wf s -> In f (Dict.keys (flags_coordinates s)) ->
  board_wf (after_grab a f own occupant s)
  /\ Dict.keys (flags_coordinates (after_grab a f own occupant s))
     = Dict.keys (flags_coordinates s).
Proof.
  intros Hwf Hin. destruct (wf_set_flags s f own Hwf Hin) as [Hwf1 Hk].
  assert (Hwf2 : board_wf (set_flag_of a (Some f) (set_flags_coordinates f own s))).
  { apply wf_set_flag_of; [assumption|]. intros f' [= <-]. now rewrite Hk. }
  unfold after_grab. destruct occupant.
  - split; [now apply wf_clear | exact Hk].
  - split; assumption.
Qed.

Lemma move_raises_off_board s a d :
  Dict.get (actors_coordinates s) a = None -> move a d s = Raise KeyError.
Proof.
  intros Hc. unfold move, calc_target_coordinates, bind, subscript.
  now rewrite Hc.
Qed.

Lemma grabput_raises_off_board s r a d :
  Dict.get (actors_coordinates s) a = None -> grabput_flag r a d s = Raise KeyError.
Proof.
  intros Hc. unfold grabput_flag, calc_target_coordinates, bind, subscript.
  now rewrite Hc.
Qed.

Lemma wf_move s a d res s' :
  board_wf s -> move a d s = Ok (res, s') ->
  board_wf s'
  /\ Dict.keys (flags_coordinates s') = Dict.keys (flags_coordinates s).
Proof.
  intros Hwf H.
  destruct (Dict.get (actors_coordinates s) a) as [c|] eqn:Hc.
  2:{ rewrite (move_raises_off_board s a d Hc) in H. discriminate. }
  unfold move in H.
  erewrite bind_ok in H by (apply calc_target_coordinates_ok; exact Hc).
  erewrite bind_ok in H by (apply try_put_actor_eq; exact Hc).
  set (target := step (map_size s) c d) in *.
  destruct (can_enter s c target).
  - apply bind_inv in H. destruct H as [t [s2 [H H2]]].
    unfold ret in H2. injection H2 as _ <-.
    destruct (wf_relocate s a target Hwf) as [Hwf1 Hk1].
    destruct (wf_check_flag_return _ a t s2 Hwf1 H) as [Hwf2 Hk2].
    split; [assumption | congruence].
  - unfold ret in H. injection H as _ <-. split; [assumption | reflexivity].
Qed.

Lemma wf_attack s r k a d res s' :
  board_wf s -> BoardActions.attack r k a d s = Ok (res, s') ->
  board_wf s'
  /\ Dict.keys (flags_coordinates s') = Dict.keys (flags_coordinates s).
Proof.
  intros Hwf H. apply attack_inv in H.
  destruct H as [[_ ->] | [_ [c [target [base_c [_ [_ [_ [_ [c' [_ ->]]]]]]]]]]].
  - split; [assumption | reflexivity].
  - now apply wf_respawned.
Qed.

Lemma wf_grabput s r a d res s' :
  board_wf s -> grabput_flag r a d s = Ok (res, s') ->
  board_wf s'
  /\ Dict.keys (flags_coordinates s') = Dict.keys (flags_coordinates s).
Proof.
  intros Hwf H.
  destruct (Dict.get (actors_coordinates s) a) as [c|] eqn:Hc.
  2:{ rewrite (grabput_raises_off_board s r a d Hc) in H. discriminate. }
  destruct (flag_of s a) as [f|] eqn:Ef.
  - rewrite (@grabput_put_eq s r a d c f Hc Ef) in H. cbv zeta in H.
    pose proof (carried_in_keys s a f Hwf Ef) as Hin.
    set (target := step (map_size s) c d) in *.
    destruct (coordinates_actors s target) as [t|].
    + destruct (negb (truthy (grab t))).
      { injection H as _ <-. split; [assumption | reflexivity]. }
      destruct (flag_of s t).
      { injection H as _ <-. split; [assumption | reflexivity]. }
      apply bind_inv in H. destruct H as [ts [s2 [H H2]]].
      unfold ret in H2. injection H2 as _ <-.
      destruct (wf_handed s a f target t Hwf Hin) as [Hwf1 Hk1].
      destruct (wf_check_flag_return _ t ts s2 Hwf1 H) as [Hwf2 Hk2].
      split; [assumption | congruence].
    + destruct (contains (walls_coordinates s) target).
      { injection H as _ <-. split; [assumption | reflexivity]. }
      apply bind_inv in H. destruct H as [ts [s2 [H H2]]].
      unfold ret in H2. injection H2 as _ <-.
      apply check_score_conditions_state in H. subst s2.
      now apply wf_put_down.
  - rewrite (@grabput_grab_eq s r a d c Hc Ef) in H. cbv zeta in H.
    set (target := step (map_size s) c d) in *.
    destruct (coordinates_flags s target) as [F|] eqn:EF.
    2:{ injection H as _ <-. split; [assumption | reflexivity]. }
    destruct (Qlt_bool r (grab a)).
    2:{ injection H as _ <-. split; [assumption | reflexivity]. }
    apply bind_inv in H. destruct H as [ts [s2 [H H2]]].
    unfold ret in H2. injection H2 as _ <-.
    assert (Hin : In F (Dict.keys (flags_coordinates s))).
    { apply DictFacts.inverse_get_Some in EF.
      unfold Dict.keys. change F with (fst (F, target)). now apply in_map. }
    destruct (wf_after_grab s a F c (coordinates_actors s target) Hwf Hin)
      as [Hwf1 Hk1].
    destruct (wf_check_flag_return _ a ts s2 Hwf1 H) as [Hwf2 Hk2].
    split; [assumption | congruence].
Qed.

(** X9.  Every engine operation that returns on a well-formed board
    leaves a well-formed board with the same Flags: each dictionary
    holds a key once, every team has its Base and its Flag, a carried
    Flag is a Flag of the board, and no Flag is added or removed. *)
Theorem well_formed_boards_stay_well_formed s :
  board_wf s ->
  (forall a d res s',
     move a d s = Ok (res, s') ->
     board_wf s'
     /\ Dict.keys (flags_coordinates s') = Dict.keys (flags_coordinates s))
  /\ (forall r k a d res s',
        BoardActions.attack r k a d s = Ok (res, s') ->
        board_wf s'
        /\ Dict.keys (flags_coordinates s') = Dict.keys (flags_coordinates s))
  /\ (forall r a d res s',
        grabput_flag r a d s = Ok (res, s') ->
        board_wf s'
        /\ Dict.keys (flags_coordinates s') = Dict.keys (flags_coordinates s)).
Proof.
  intros Hwf. split; [|split].
  - intros a d res s'. now apply wf_move.
  - intros r k a d res s'. now apply wf_attack.
  - intros r a d res s'. now apply wf_grabput.
Qed.

Lemma well_formed_boards_stay_well_formed_witness :
  board_wf Sample.face_off
  /\ (forall a d res s',
        move a d Sample.face_off = Ok (res, s') ->
        board_wf s'
        /\ Dict.keys (flags_coordinates s')
           = Dict.keys (flags_coordinates Sample.face_off))
  /\ (forall r k a d res s',
        BoardActions.attack r k a d Sample.face_off = Ok (res, s') ->
        board_wf s'
        /\ Dict.keys (flags_coordinates s')
           = Dict.keys (flags_coordinates Sample.face_off))
  /\ (forall r a d res s',
        grabput_flag r a d Sample.face_off = Ok (res, s') ->
        board_wf s'
        /\ Dict.keys (flags_coordinates s')
           = Dict.keys (flags_coordinates Sample.face_off)).
Proof.
  split; [reflexivity|].
  exact (well_formed_boards_stay_well_formed Sample.face_off eq_refl).
Defined.

(** ** A held Flag stays with its holder *)

Lemma unique_holder s a a' f :
  one_actor_per_cell s -> held_flags_follow s ->
  flag_of s a = Some f -> flag_of s a' = Some f -> a = a'.
Proof.
  intros Hone Hheld Ha Ha'.
  destruct (Hheld a f Ha) as [c [Hc Hf]].
  destruct (Hheld a' f Ha') as [c' [Hc' Hf']].
  assert (c = c') by congruence. subst c'. now apply (Hone a a' c).
Qed.

Lemma held_relocate s a target :
  one_actor_per_cell s -> held_flags_follow s ->
  held_flags_follow (relocate a target s).
Proof.
  intros Hone Hheld a' f' Hf'.
  assert (Hf0 : flag_of s a' = Some f').
  { unfold relocate in Hf'. destruct (flag_of s a); exact Hf'. }
  destruct (Hheld a' f' Hf0) as [c' [Hc' Hfc']].
  rewrite actors_coordinates_relocate.
  destruct (key_eqb_spec a a') as [<-|Hne].
  - exists target. split; [apply DictFacts.get_set_eq|].
    rewrite (@flags_coordinates_relocate s a target f' Hf0).
    apply DictFacts.get_set_eq.
  - exists c'. split; [rewrite DictFacts.get_set_ne by assumption; exact Hc'|].
    unfold relocate. destruct (flag_of s a) as [f|] eqn:Ef; [|exact Hfc'].
    cbn [flags_coordinates set_flags_coordinates set_actors_coordinates].
    rewrite DictFacts.get_set_ne; [exact Hfc'|].
    intros ->. apply Hne. now apply (unique_holder s a a' f').
Qed.

Lemma held_after_return s a g home c :
  NoDup (Dict.keys (flags_coordinates s)) ->
  one_actor_per_cell s -> held_flags_follow s ->
  Dict.get (actors_coordinates s) a = Some c ->
  In (g, c) (flags_coordinates s) ->
  held_flags_follow (after_return a g home s).
Proof.
  intros Hnd Hone Hheld Hc Hg a' f' Hf'.
  assert (Hold : a' <> a /\ flag_of s a' = Some f').
  { unfold after_return in Hf'. destruct (flag_of s a) eqn:Ea.
    - destruct (key_eqb_spec a a') as [<-|Hne].
      + rewrite flag_of_set_flag_of_eq in Hf'. discriminate.
      + rewrite flag_of_set_flag_of_ne in Hf' by assumption.
        split; [congruence | exact Hf'].
    - split; [|exact Hf']. intros ->. change (flag_of s a = Some f') in Hf'.
      congruence. }
  destruct Hold as [Hne Hf0].
  destruct (Hheld a' f' Hf0) as [c' [Hc' Hfc']].
  exists c'. rewrite actors_coordinates_after_return, flags_coordinates_after_return.
  split; [exact Hc'|].
  rewrite DictFacts.get_set_ne; [exact Hfc'|].
  intros ->. apply Hne.
  apply (DictFacts.In_get_nodup _ _ _ Hnd) in Hg.
  assert (c' = c) by congruence. subst c'. now apply (Hone a' a c).
Qed.

Lemma held_respawned s t c' :
  held_flags_follow s -> held_flags_follow (respawned t c' s).
Proof.
  intros Hheld a' f' Hf'.
  destruct (key_eqb_spec a' t) as [->|Hne].
  - rewrite respawned_flag_of_self in Hf'. discriminate.
  - rewrite respawned_flag_of_other in Hf' by assumption.
    destruct (Hheld a' f' Hf') as [c [Hc Hfc]].
    exists c. rewrite respawned_other_actor by assumption.
    rewrite respawned_flags. auto.
Qed.

Lemma held_put_down s a f target :
  one_actor_per_cell s -> held_flags_follow s ->
  flag_of s a = Some f ->
  held_flags_follow (put_down a f target s).
Proof.
  intros Hone Hheld Hf a' f' Hf'. unfold put_down in *.
  destruct (key_eqb_spec a a') as [<-|Hne].
  - rewrite flag_of_set_flag_of_eq in Hf'. discriminate.
  - rewrite flag_of_set_flag_of_ne in Hf' by assumption.
    change (flag_of s a' = Some f') in Hf'.
    destruct (Hheld a' f' Hf') as [c [Hc Hfc]]. exists c.
    split; [exact Hc|].
    cbn [flags_coordinates set_flag_of set_flags_coordinates].
    rewrite DictFacts.get_set_ne; [exact Hfc|].
    intros ->. apply Hne. now apply (unique_holder s a a' f').
Qed.

Lemma held_handed s a f target t :
  one_actor_per_cell s -> held_flags_follow s ->
  flag_of s a = Some f ->
  Dict.get (actors_coordinates s) t = Some target ->
  held_flags_follow (handed a f target t s).
Proof.
  intros Hone Hheld Hf Ht a' f' Hf'. unfold handed in *.
  destruct (key_eqb_spec t a') as [<-|Hne].
  - rewrite flag_of_set_flag_of_eq in Hf'. injection Hf' as <-.
    exists target. split; [exact Ht|].
    unfold put_down. cbn [flags_coordinates set_flag_of set_flags_coordinates].
    apply DictFacts.get_set_eq.
  - rewrite flag_of_set_flag_of_ne in Hf' by assumption.
    apply (held_put_down s a f target Hone Hheld Hf a' f') in Hf'.
    exact Hf'.
Qed.

Lemma held_after_grab s a F c target :
  NoDup (Dict.keys (actors_coordinates s)) ->
  NoDup (Dict.keys (flags_coordinates s)) ->
  one_actor_per_cell s -> held_flags_follow s ->
  Dict.get (actors_coordinates s) a = Some c ->
  coordinates_flags s target = Some F ->
  held_flags_follow (after_grab a F c (coordinates_actors s target) s).
Proof.
  intros Hnda Hndf Hone Hheld Hc HF a' f' Hf'.
  apply DictFacts.inverse_get_Some in HF.
  apply (DictFacts.In_get_nodup _ _ _ Hndf) in HF.
  assert (Hcases :
            (a' = a /\ f' = F)
            \/ (a' <> a /\ coordinates_actors s target <> Some a'
                /\ flag_of s a' = Some f')).
  { unfold after_grab in Hf'.
    destruct (coordinates_actors s target) as [t|] eqn:Et.
    - destruct (key_eqb_spec t a') as [<-|Hnt].
      { rewrite flag_of_set_flag_of_eq in Hf'. discriminate. }
      rewrite flag_of_set_flag_of_ne in Hf' by assumption.
      destruct (key_eqb_spec a a') as [<-|Hna].
      + rewrite flag_of_set_flag_of_eq in Hf'. left. split; congruence.
      + rewrite flag_of_set_flag_of_ne in Hf' by assumption.
        change (flag_of s a' = Some f') in Hf'.
        right. repeat split; congruence.
    - destruct (key_eqb_spec a a') as [<-|Hna].
      + rewrite flag_of_set_flag_of_eq in Hf'. left. split; congruence.
      + rewrite flag_of_set_flag_of_ne in Hf' by assumption.
        change (flag_of s a' = Some f') in Hf'.
        right. repeat split; congruence. }
  assert (Hact : actors_coordinates (after_grab a F c (coordinates_actors s target) s)
                 = actors_coordinates s).
  { unfold after_grab. destruct (coordinates_actors s target); reflexivity. }
  rewrite Hact, flags_coordinates_after_grab.
  destruct Hcases as [[-> ->] | [Hna [Hocc Hf0]]].
  - exists c. split; [exact Hc | apply DictFacts.get_set_eq].
  - destruct (Hheld a' f' Hf0) as [c' [Hc' Hfc']]. exists c'.
    split; [exact Hc'|].
    rewrite DictFacts.get_set_ne; [exact Hfc'|].
    intros ->. apply Hocc.
    assert (c' = target) by congruence. subst c'.
    now apply index_of_occupant.
Qed.

Lemma held_check_flag_return s a t s' :
  board_wf s -> one_actor_per_cell s -> held_flags_follow s ->
  _check_flag_return_conditions a s = Ok (t, s') ->
  held_flags_follow s'.
Proof.
  intros Hwf Hone Hheld H.
  destruct (Dict.get (actors_coordinates s) a) as [c|] eqn:Hc.
  - destruct (returned_flag s a c) as [g|] eqn:Er.
    + destruct (@check_flag_return_some s a c g (wf_teams_ok Hwf) Hc Er)
        as [home [_ [Hin [_ Heq]]]].
      rewrite Heq in H. injection H as _ <-.
      apply (held_after_return s a g home c); auto. now apply wf_flags.
    + rewrite (@check_flag_return_none s a c Hc Er) in H.
      injection H as _ <-. assumption.
  - unfold _check_flag_return_conditions, bind, subscript in H.
    rewrite Hc in H. discriminate.
Qed.

Lemma one_actor_same_actors s s' :
  actors_coordinates s' = actors_coordinates s ->
  one_actor_per_cell s -> one_actor_per_cell s'.
Proof. intros E H. unfold one_actor_per_cell. rewrite E. exact H. Qed.

(** X10.  On a well-formed board with at most one actor on a cell,
    every engine operation that returns keeps a held Flag with its
    holder: if each Flag that an actor carries has the coordinates of
    that actor before the operation, so it is after it. *)
Theorem held_flags_stay_with_holders s :
  board_wf s -> one_actor_per_cell s -> held_flags_follow s ->
  (forall a d res s', move a d s = Ok (res, s') -> held_flags_follow s')
  /\ (forall r k a d res s',
        BoardActions.attack r k a d s = Ok (res, s') -> held_flags_follow s')
  /\ (forall r a d res s',
        grabput_flag r a d s = Ok (res, s') -> held_flags_follow s').
Proof.
  intros Hwf Hone Hheld. split; [|split].
  - intros a d res s' H.
    destruct (Dict.get (actors_coordinates s) a) as [c|] eqn:Hc.
    2:{ rewrite (move_raises_off_board s a d Hc) in H. discriminate. }
    unfold move in H.
    erewrite bind_ok in H by (apply calc_target_coordinates_ok; exact Hc).
    erewrite bind_ok in H by (apply try_put_actor_eq; exact Hc).
    set (target := step (map_size s) c d) in *.
    destruct (can_enter s c target) eqn:Ecan.
    + apply bind_inv in H. destruct H as [t [s2 [H H2]]].
      unfold ret in H2. injection H2 as _ <-.
      apply (held_check_flag_return (relocate a target s) a t s2);
        [ | | | exact H].
      * now apply wf_relocate.
      * apply (@one_actor_set s (relocate a target s) a target Hone).
        -- unfold can_enter in Ecan.
           rewrite !andb_true_iff, !negb_true_iff in Ecan.
           destruct Ecan as [[[_ Ha] _] _]. unfold coordinates_actors in Ha.
           destruct (Dict.inverse_get (actors_coordinates s) target) eqn:E;
             [discriminate|]. now apply DictFacts.inverse_get_None in E.
        -- apply actors_coordinates_relocate.
      * now apply held_relocate.
    + unfold ret in H. injection H as _ <-. assumption.
  - intros r k a d res s' H. apply attack_inv in H.
    destruct H as [[_ ->] | [_ [c [target [base_c [_ [_ [_ [_ [c' [_ ->]]]]]]]]]]].
    + assumption.
    + now apply held_respawned.
  - intros r a d res s' H.
    destruct (Dict.get (actors_coordinates s) a) as [c|] eqn:Hc.
    2:{ rewrite (grabput_raises_off_board s r a d Hc) in H. discriminate. }
    destruct (flag_of s a) as [f|] eqn:Ef.
    + rewrite (@grabput_put_eq s r a d c f Hc Ef) in H. cbv zeta in H.
      pose proof (carried_in_keys s a f Hwf Ef) as Hin.
      set (target := step (map_size s) c d) in *.
      destruct (coordinates_actors s target) as [t|] eqn:Et.
      * destruct (negb (truthy (grab t))).
        { injection H as _ <-. assumption. }
        destruct (flag_of s t).
        { injection H as _ <-. assumption. }
        apply bind_inv in H. destruct H as [ts [s2 [H H2]]].
        unfold ret in H2. injection H2 as _ <-.
        apply (held_check_flag_return (handed a f target t s) t ts s2);
          [ | | | exact H].
        -- now apply wf_handed.
        -- exact (one_actor_same_actors s (handed a f target t s) eq_refl Hone).
        -- apply held_handed; auto.
           apply DictFacts.inverse_get_Some in Et.
           now apply (DictFacts.In_get_nodup _ _ _ (wf_actors Hwf)) in Et.
      * destruct (contains (walls_coordinates s) target).
        { injection H as _ <-. assumption. }
        apply bind_inv in H. destruct H as [ts [s2 [H H2]]].
        unfold ret in H2. injection H2 as _ <-.
        apply check_score_conditions_state in H. subst s2.
        now apply held_put_down.
    + rewrite (@grabput_grab_eq s r a d c Hc Ef) in H. cbv zeta in H.
      set (target := step (map_size s) c d) in *.
      destruct (coordinates_flags s target) as [F|] eqn:EF.
      2:{ injection H as _ <-. assumption. }
      destruct (Qlt_bool r (grab a)).
      2:{ injection H as _ <-. assumption. }
      apply bind_inv in H. destruct H as [ts [s2 [H H2]]].
      unfold ret in H2. injection H2 as _ <-.
      assert (Hin : In F (Dict.keys (flags_coordinates s))).
      { apply DictFacts.inverse_get_Some in EF.
        unfold Dict.keys. change F with (fst (F, target)). now apply in_map. }
      apply (held_check_flag_return
               (after_grab a F c (coordinates_actors s target) s) a ts s2);
        [ | | | exact H].
      * now apply wf_after_grab.
      * apply (one_actor_same_actors s _); [|exact Hone].
        unfold after_grab. destruct (coordinates_actors s target); reflexivity.
      * apply held_after_grab; auto; [now apply wf_actors | now apply wf_flags].
Qed.

Lemma held_flags_followb_spec s :
  held_flags_followb s = true -> held_flags_follow s.
Proof.
  unfold held_flags_followb. rewrite forallb_forall. intros H a f Hf.
  unfold flag_of in Hf.
  destruct (Dict.get (actors_flag s) a) as [o|] eqn:E; [|discriminate].
  subst o. apply DictFacts.get_In in E. specialize (H _ E). cbn [snd fst] in H.
  destruct (Dict.get (actors_coordinates s) a) as [c|]; [|discriminate].
  destruct (Dict.get (flags_coordinates s) f) as [c'|]; [|discriminate].
  apply key_eqb_eq in H. subst c'. eauto.
Qed.

Lemma held_flags_stay_with_holders_witness :
  board_wf Sample.face_off
  /\ one_actor_per_cell Sample.face_off
  /\ held_flags_follow Sample.face_off
  /\ (forall a d res s',
        move a d Sample.face_off = Ok (res, s') -> held_flags_follow s')
  /\ (forall r k a d res s',
        BoardActions.attack r k a d Sample.face_off = Ok (res, s') ->
        held_flags_follow s')
  /\ (forall r a d res s',
        grabput_flag r a d Sample.face_off = Ok (res, s') -> held_flags_follow s').
Proof.
  assert (Hone : one_actor_per_cell Sample.face_off)
    by (apply one_actor_per_cell_nodup; reflexivity).
  assert (Hheld : held_flags_follow Sample.face_off)
    by (apply held_flags_followb_spec; reflexivity).
  split; [reflexivity|]. split; [exact Hone|]. split; [exact Hheld|].
  exact (held_flags_stay_with_holders Sample.face_off eq_refl Hone Hheld).
Defined.

(** X11.  Only actors that can grab come to hold a Flag: if no actor
    with grab probability 0 holds a Flag before an engine operation,
    none does after it, for every draw of [random.random()] (which is
    at least 0).  Handing a Flag to such an actor is refused, and its
    own grabs fail. *)
Theorem only_grabbers_hold_flags s :
  holders_can_grab s ->
  (forall a d res s', move a d s = Ok (res, s') -> holders_can_grab s')
  /\ (forall r k a d res s',
        BoardActions.attack r k a d s = Ok (res, s') -> holders_can_grab s')
  /\ (forall r a d res s',
        (0 <= r)%Q -> grabput_flag r a d s = Ok (res, s') -> holders_can_grab s').
Proof.
  intros Hinv. split; [|split].
  - intros a d res s' H.
    exact (@frame_move keeps_holders keeps_holders_refl keeps_holders_trans
             keeps_holders_set_flags keeps_holders_clear keeps_holders_set_actors
             a d s res s' H Hinv).
  - intros r k a d res s' H.
    exact (@frame_attack keeps_holders keeps_holders_refl keeps_holders_trans
             keeps_holders_clear keeps_holders_set_actors r k a d s res s' H Hinv).
  - intros r a d res s' Hr H.
    exact (@frame_grabput_flag keeps_holders (fun a => truthy (grab a) = true) r
             keeps_holders_refl keeps_holders_trans keeps_holders_set_flags
             keeps_holders_clear keeps_holders_give (fun _ H0 => H0)
             (fun a0 => @drawn_below_truthy r (grab a0) Hr) a d s res s' H Hinv).
Qed.

Lemma only_grabbers_hold_flags_witness :
  holders_can_grab Sample.face_off
  /\ (forall a d res s',
        move a d Sample.face_off = Ok (res, s') -> holders_can_grab s')
  /\ (forall r k a d res s',
        BoardActions.attack r k a d Sample.face_off = Ok (res, s') ->
        holders_can_grab s')
  /\ (forall r a d res s',
        (0 <= r)%Q -> grabput_flag r a d Sample.face_off = Ok (res, s') ->
        holders_can_grab s').
Proof.
  assert (Hinv : holders_can_grab Sample.face_off).
  { intros a f Hf. unfold flag_of in Hf.
    destruct (Dict.get (actors_flag Sample.face_off) a) as [o|] eqn:E;
      [|discriminate].
    apply DictFacts.get_In in E. simpl in E.
    destruct E as [[= <- _]|[]]. reflexivity. }
  split; [exact Hinv|].
  exact (only_grabbers_hold_flags Sample.face_off Hinv).
Defined.

(* ------------------------------------------------------------------ *)
(** ** Who scores *)

Lemma scores_for_ext s s' f T :
  flags_coordinates s' = flags_coordinates s ->
  bases_coordinates s' = bases_coordinates s ->
  home_flag_required s' = home_flag_required s ->
  scores_for s f T -> scores_for s' f T.
Proof. unfold scores_for. intros -> -> ->. exact (fun H => H). Qed.

Lemma last_scoring_one s f : last_scoring s [f] None = scoring_team_of s f.
Proof.
  rewrite last_scoring_cons. destruct (scoring_team_of s f); reflexivity.
Qed.

Lemma last_scoring_sound s flags T :
  board_wf s -> bases_apart s ->
  last_scoring s flags None = Some T -> exists f, scores_for s f T.
Proof.
  intros Hwf Hapart H. apply last_scoring_spec in H.
  destruct H as [[l1 [f [l2 [_ [Hf _]]]]] | [H _]]; [|discriminate].
  exists f. apply (proj1 (@scoring_team_of_spec s f T Hwf Hapart)). exact Hf.
Qed.

(** X12.  A Flag put down on an empty cell scores for the owner of the
    Base on that cell, whoever puts it there: the put reports the team
    [T] exactly when the target cell is the Base of [T], the Flag
    belongs to another team, and (unless the home-flag rule is off) the
    Flag of [T] rests on that Base.  The team of the putting actor plays
    no part. *)
Theorem put_down_scores_for_base_owner s r a d c f :
  board_wf s -> bases_apart s ->
  Dict.get (actors_coordinates s) a = Some c ->
  flag_of s a = Some f ->
  ~ occupied s (step (map_size s) c d) ->
  ~ is_wall s (step (map_size s) c d) ->
  exists score,
    grabput_flag r a d s
    = Ok (true, score, put_down a f (step (map_size s) c d) s)
    /\ forall T,
         score = Some T <->
         Dict.get (bases_coordinates s) {| base_team := T |}
         = Some (step (map_size s) c d)
         /\ flag_team f <> T
         /\ (home_flag_required s = false
             \/ Dict.get (flags_coordinates s) {| flag_team := T |}
                = Some (step (map_size s) c d)).
Proof.
  intros Hwf Hapart Hc Hf Hfree Hwall.
  set (target := step (map_size s) c d) in *.
  rewrite (@grabput_put_eq s r a d c f Hc Hf). fold target.
  rewrite (@not_occupied_index s target Hwf Hfree).
  apply contains_not_In in Hwall. rewrite Hwall.
  pose proof (@teams_ok_put_down s a f target Hwf Hf) as Hok.
  pose proof (carried_in_keys s a f Hwf Hf) as Hkey.
  destruct (wf_put_down s a f target Hwf Hkey) as [Hwf1 Hkeys1].
  assert (Hin : In f (Dict.keys (flags_coordinates (put_down a f target s))))
    by (rewrite Hkeys1; exact Hkey).
  erewrite bind_ok by (apply check_score_conditions_one; assumption).
  eexists. split; [reflexivity|]. intros T.
  rewrite last_scoring_one.
  rewrite (@scoring_team_of_spec (put_down a f target s) f T Hwf1 Hapart).
  unfold scores_for, put_down.
  cbn [flags_coordinates bases_coordinates home_flag_required
       set_flag_of set_flags_coordinates].
  rewrite DictFacts.get_set_eq. split.
  - intros [[c0 [[= <-] Hb]] [Hne Hhome]]. split; [exact Hb|]. split; [exact Hne|].
    destruct Hhome as [Hoff | [c1 [H1 H2]]]; [left; exact Hoff | right].
    rewrite DictFacts.get_set_ne in H1 by (intros E; apply Hne; now rewrite E).
    congruence.
  - intros [Hb [Hne Hhome]]. split; [exists target; split; [reflexivity|exact Hb]|].
    split; [exact Hne|].
    destruct Hhome as [Hoff | H1]; [left; exact Hoff | right].
    exists target. split; [|exact Hb].
    rewrite DictFacts.get_set_ne by (intros E; apply Hne; now rewrite E).
    exact H1.
Qed.

Lemma put_down_scores_for_base_owner_witness :
  board_wf Sample.capture /\ bases_apart Sample.capture
  /\ flag_of Sample.capture Sample.a0 = Some Sample.flagB
  /\ exists score,
       grabput_flag 1 Sample.a0 Directions.left Sample.capture
       = Ok (true, score,
             put_down Sample.a0 Sample.flagB (Sample.at_ 2 2) Sample.capture)
       /\ forall T,
            score = Some T <->
            Dict.get (bases_coordinates Sample.capture) {| base_team := T |}
            = Some (Sample.at_ 2 2)
            /\ flag_team Sample.flagB <> T
            /\ (home_flag_required Sample.capture = false
                \/ Dict.get (flags_coordinates Sample.capture) {| flag_team := T |}
                   = Some (Sample.at_ 2 2)).
Proof.
  assert (Hwf : board_wf Sample.capture) by reflexivity.
  assert (Hapart : bases_apart Sample.capture).
  { apply nodupb_NoDup. reflexivity. }
  assert (Hfree : ~ occupied Sample.capture (Sample.at_ 2 2)).
  { intros [t Ht]. apply DictFacts.get_In in Ht. simpl in Ht.
    destruct Ht as [[=]|[[=]|[]]]. }
  assert (Hwall : ~ is_wall Sample.capture (Sample.at_ 2 2)) by (intros []).
  split; [exact Hwf|]. split; [exact Hapart|]. split; [reflexivity|].
  exact (put_down_scores_for_base_owner Sample.capture 1 Sample.a0 Directions.left
           (Sample.at_ 3 2) Sample.flagB Hwf Hapart eq_refl eq_refl Hfree Hwall).
Defined.

(** X13.  Handing over: an actor that holds the Flag [f] and puts it
    towards a cell whose occupant [t] can grab and holds no Flag always
    succeeds, whatever [random.random()] returns.  The giver holds no
    Flag afterwards.  Unless the flag-return check for [t] finds a Flag
    of [t]'s team on the target cell, [t] holds [f], [f] is on [t]'s
    cell and no team is reported; if it finds one, that Flag is at its
    Base and [t] holds no Flag. *)
Theorem put_hands_flag_to_occupant s r a d c f t :
  board_wf s -> one_actor_per_cell s ->
  Dict.get (actors_coordinates s) a = Some c ->
  flag_of s a = Some f ->
  Dict.get (actors_coordinates s) t = Some (step (map_size s) c d) ->
  truthy (grab t) = true ->
  flag_of s t = None ->
  exists score s',
    grabput_flag r a d s = Ok (true, score, s')
    /\ flag_of s' a = None
    /\ match returned_flag (handed a f (step (map_size s) c d) t s) t
               (step (map_size s) c d) with
       | None =>
           score = None
           /\ s' = handed a f (step (map_size s) c d) t s
           /\ flag_of s' t = Some f
           /\ Dict.get (flags_coordinates s') f = Some (step (map_size s) c d)
       | Some g =>
           flag_team g = team t
           /\ flag_of s' t = None
           /\ Dict.get (flags_coordinates s') g
              = Dict.get (bases_coordinates s) {| base_team := team t |}
       end.
Proof.
  intros Hwf Hone Hc Hf Ht Hgrab Hnone.
  set (target := step (map_size s) c d) in *.
  assert (Hne : t <> a) by (intros ->; congruence).
  rewrite (@grabput_put_eq s r a d c f Hc Hf). fold target.
  rewrite (index_of_occupant s t target (@wf_actors s Hwf) Hone Ht).
  rewrite Hgrab, Hnone. cbn [negb].
  set (s1 := handed a f target t s).
  assert (Ht1 : Dict.get (actors_coordinates s1) t = Some target) by exact Ht.
  assert (Ha1 : flag_of s1 a = None).
  { unfold s1, handed. rewrite flag_of_set_flag_of_ne by exact Hne.
    unfold put_down. apply flag_of_set_flag_of_eq. }
  assert (Hf1 : flag_of s1 t = Some f).
  { unfold s1, handed. apply flag_of_set_flag_of_eq. }
  destruct (returned_flag s1 t target) as [g|] eqn:Er.
  - assert (Hok : teams_ok s1) by exact (@teams_ok_put_down s a f target Hwf Hf).
    destruct (@check_flag_return_some s1 t target g Hok Ht1 Er)
      as [home [Hhome [_ [Hteam Heq]]]].
    erewrite bind_ok by exact Heq.
    eexists _, _. split; [reflexivity|]. split; [|split; [exact Hteam|split]].
    + rewrite flag_of_after_return_other by (intros E; apply Hne; now rewrite E).
      exact Ha1.
    + exact (@flag_of_after_return_self s1 t g home f Hf1).
    + rewrite flags_coordinates_after_return, DictFacts.get_set_eq.
      rewrite <- Hteam. symmetry. exact Hhome.
  - erewrite bind_ok by (eapply check_flag_return_none; eassumption).
    eexists _, _. split; [reflexivity|]. split; [exact Ha1|].
    split; [reflexivity|]. split; [reflexivity|]. split; [exact Hf1|].
    unfold s1, handed, put_down.
    cbn [flags_coordinates set_flag_of set_flags_coordinates].
    apply DictFacts.get_set_eq.
Qed.

Lemma put_hands_flag_to_occupant_witness :
  board_wf Sample.face_off /\ one_actor_per_cell Sample.face_off
  /\ flag_of Sample.face_off Sample.b0 = Some Sample.flagA
  /\ Dict.get (actors_coordinates Sample.face_off) Sample.a0 = Some (Sample.at_ 3 2)
  /\ truthy (grab Sample.a0) = true
  /\ flag_of Sample.face_off Sample.a0 = None
  /\ exists score s',
       grabput_flag 1 Sample.b0 Directions.left Sample.face_off = Ok (true, score, s')
       /\ flag_of s' Sample.b0 = None
       /\ match returned_flag
                 (handed Sample.b0 Sample.flagA (Sample.at_ 3 2) Sample.a0
                    Sample.face_off)
                 Sample.a0 (Sample.at_ 3 2) with
          | None =>
              score = None
              /\ s' = handed Sample.b0 Sample.flagA (Sample.at_ 3 2) Sample.a0
                        Sample.face_off
              /\ flag_of s' Sample.a0 = Some Sample.flagA
              /\ Dict.get (flags_coordinates s') Sample.flagA = Some (Sample.at_ 3 2)
          | Some g =>
              flag_team g = team Sample.a0
              /\ flag_of s' Sample.a0 = None
              /\ Dict.get (flags_coordinates s') g
                 = Dict.get (bases_coordinates Sample.face_off)
                     {| base_team := team Sample.a0 |}
          end.
Proof.
  assert (Hone : one_actor_per_cell Sample.face_off)
    by (apply one_actor_per_cell_nodup; reflexivity).
  split; [reflexivity|]. split; [exact Hone|]. split; [reflexivity|].
  split; [reflexivity|]. split; [reflexivity|]. split; [reflexivity|].
  exact (put_hands_flag_to_occupant Sample.face_off 1 Sample.b0 Directions.left
           (Sample.at_ 4 2) Sample.flagA Sample.a0
           eq_refl Hone eq_refl eq_refl eq_refl eq_refl eq_refl).
Defined.

Lemma check_flag_return_sound s a T s' :
  board_wf s -> bases_apart s ->
  _check_flag_return_conditions a s = Ok (Some T, s') ->
  exists f, scores_for s' f T.
Proof.
  intros Hwf Hapart H.
  destruct (Dict.get (actors_coordinates s) a) as [c|] eqn:Hc.
  - destruct (returned_flag s a c) as [g|] eqn:Er.
    + destruct (@check_flag_return_some s a c g (wf_teams_ok Hwf) Hc Er)
        as [home [_ [Hin [_ Heq]]]].
      rewrite Heq in H. injection H as Hscore <-.
      assert (Hkey : In g (Dict.keys (flags_coordinates s))).
      { unfold Dict.keys. change g with (fst (g, c)). now apply in_map. }
      destruct (wf_set_flags s g home Hwf Hkey) as [Hwf1 _].
      destruct (last_scoring_sound (set_flags_coordinates g home s) _ T
                  Hwf1 Hapart Hscore) as [f Hf].
      exists f. revert Hf.
      apply (scores_for_ext (set_flags_coordinates g home s)
               (after_return a g home s)).
      * rewrite flags_coordinates_after_return. reflexivity.
      * rewrite bases_coordinates_after_return. reflexivity.
      * unfold after_return. destruct (flag_of s a); reflexivity.
    + rewrite (@check_flag_return_none s a c Hc Er) in H. discriminate.
  - unfold _check_flag_return_conditions, bind, subscript in H.
    rewrite Hc in H. discriminate.
Qed.

Lemma bases_apart_relocate s a target :
  bases_apart s -> bases_apart (relocate a target s).
Proof. unfold bases_apart, relocate. destruct (flag_of s a); exact (fun H => H). Qed.

Lemma bases_apart_after_grab s a f own occupant :
  bases_apart s -> bases_apart (after_grab a f own occupant s).
Proof. unfold bases_apart, after_grab. destruct occupant; exact (fun H => H). Qed.

(** X14.  A reported score is a real one: when a move or a grab/put on
    a well-formed board whose Bases occupy distinct cells reports the
    team [T], then on the board it leaves some Flag of another team
    rests on the Base of [T], and the Flag of [T] is on that Base too
    unless the home-flag rule is off. *)
Theorem reported_team_scores s :
  board_wf s -> bases_apart s ->
  (forall a d moved T s',
     move a d s = Ok (moved, Some T, s') -> exists f, scores_for s' f T)
  /\ (forall r a d done T s',
        grabput_flag r a d s = Ok (done, Some T, s') ->
        exists f, scores_for s' f T).
Proof.
  intros Hwf Hapart. split.
  - intros a d moved T s' H.
    destruct (Dict.get (actors_coordinates s) a) as [c|] eqn:Hc.
    2:{ rewrite (move_raises_off_board s a d Hc) in H. discriminate. }
    unfold move in H.
    erewrite bind_ok in H by (apply calc_target_coordinates_ok; exact Hc).
    erewrite bind_ok in H by (apply try_put_actor_eq; exact Hc).
    set (target := step (map_size s) c d) in *.
    destruct (can_enter s c target); [|discriminate].
    apply bind_inv in H. destruct H as [t [s2 [H H2]]].
    unfold ret in H2. injection H2 as _ -> <-.
    destruct (wf_relocate s a target Hwf) as [Hwf1 _].
    exact (check_flag_return_sound _ a T s2 Hwf1
             (bases_apart_relocate s a target Hapart) H).
  - intros r a d done T s' H.
    destruct (Dict.get (actors_coordinates s) a) as [c|] eqn:Hc.
    2:{ rewrite (grabput_raises_off_board s r a d Hc) in H. discriminate. }
    destruct (flag_of s a) as [f|] eqn:Ef.
    + rewrite (@grabput_put_eq s r a d c f Hc Ef) in H. cbv zeta in H.
      pose proof (carried_in_keys s a f Hwf Ef) as Hin.
      set (target := step (map_size s) c d) in *.
      destruct (coordinates_actors s target) as [t|].
      * destruct (negb (truthy (grab t))); [discriminate|].
        destruct (flag_of s t); [discriminate|].
        apply bind_inv in H. destruct H as [ts [s2 [H H2]]].
        unfold ret in H2. injection H2 as _ -> <-.
        destruct (wf_handed s a f target t Hwf Hin) as [Hwf1 _].
        exact (check_flag_return_sound _ t T s2 Hwf1 Hapart H).
      * destruct (contains (walls_coordinates s) target); [discriminate|].
        apply bind_inv in H. destruct H as [ts [s2 [H H2]]].
        unfold ret in H2. injection H2 as _ -> <-.
        destruct (wf_put_down s a f target Hwf Hin) as [Hwf1 Hk1].
        pose proof (check_score_conditions_state _ _ _ _ H) as ->.
        rewrite (@check_score_conditions_one (put_down a f target s) f
                   (wf_teams_ok Hwf1)) in H by (rewrite Hk1; exact Hin).
        injection H as H.
        exact (last_scoring_sound _ [f] T Hwf1 Hapart H).
    + rewrite (@grabput_grab_eq s r a d c Hc Ef) in H. cbv zeta in H.
      set (target := step (map_size s) c d) in *.
      destruct (coordinates_flags s target) as [F|] eqn:EF; [|discriminate].
      destruct (Qlt_bool r (grab a)); [|discriminate].
      apply bind_inv in H. destruct H as [ts [s2 [H H2]]].
      unfold ret in H2. injection H2 as _ -> <-.
      assert (Hin : In F (Dict.keys (flags_coordinates s))).
      { apply DictFacts.inverse_get_Some in EF.
        unfold Dict.keys. change F with (fst (F, target)). now apply in_map. }
      destruct (wf_after_grab s a F c (coordinates_actors s target) Hwf Hin)
        as [Hwf1 _].
      exact (check_flag_return_sound _ a T s2 Hwf1
               (bases_apart_after_grab s a F c _ Hapart) H).
Qed.

Lemma reported_team_scores_witness :
  board_wf Sample.capture /\ bases_apart Sample.capture
  /\ (forall a d moved T s',
        move a d Sample.capture = Ok (moved, Some T, s') ->
        exists f, scores_for s' f T)
  /\ (forall r a d done T s',
        grabput_flag r a d Sample.capture = Ok (done, Some T, s') ->
        exists f, scores_for s' f T).
Proof.
  assert (Hapart : bases_apart Sample.capture).
  { apply nodupb_NoDup. reflexivity. }
  split; [reflexivity|]. split; [exact Hapart|].
  exact (reported_team_scores Sample.capture eq_refl Hapart).
Defined.

(** X15.  Moving onto the own Flag sends it home: an actor that carries
    no Flag and steps onto a free cell where its team's Flag rests, and
    no other Flag, has moved, and its team's Flag is on its team's Base
    afterwards.  The actor holds no Flag. *)
Theorem move_onto_own_flag_returns_it s a d c :
  board_wf s ->
  Dict.get (actors_coordinates s) a = Some c ->
  flag_of s a = None ->
  can_enter s c (step (map_size s) c d) = true ->
  Dict.get (flags_coordinates s) {| flag_team := team a |}
  = Some (step (map_size s) c d) ->
  (forall g, Dict.get (flags_coordinates s) g = Some (step (map_size s) c d) ->
             g = {| flag_team := team a |}) ->
  exists score home s',
    move a d s = Ok (true, score, s')
    /\ Dict.get (bases_coordinates s) {| base_team := team a |} = Some home
    /\ Dict.get (flags_coordinates s') {| flag_team := team a |} = Some home
    /\ Dict.get (actors_coordinates s') a = Some (step (map_size s) c d)
    /\ flag_of s' a = None.
Proof.
  intros Hwf Hc Hnone Hcan Hown Honly.
  set (target := step (map_size s) c d) in *.
  rewrite (@move_eq s a d c Hwf Hc). cbv zeta. fold target. rewrite Hcan.
  assert (Hs1 : relocate a target s = set_actors_coordinates a target s).
  { unfold relocate. now rewrite Hnone. }
  rewrite Hs1.
  assert (Er : returned_flag (set_actors_coordinates a target s) a target
               = Some {| flag_team := team a |}).
  { unfold returned_flag.
    change (coordinates_flags (set_actors_coordinates a target s) target)
      with (coordinates_flags s target).
    destruct (DictFacts.inverse_get_is_some (flags_coordinates s) target)
      as [g Hg].
    { eapply DictFacts.In_values. apply DictFacts.get_In. exact Hown. }
    unfold coordinates_flags. rewrite Hg.
    apply DictFacts.inverse_get_Some in Hg.
    apply (DictFacts.In_get_nodup _ _ _ (wf_flags Hwf)) in Hg.
    rewrite (Honly g Hg). cbn [flag_team]. now rewrite key_eqb_refl. }
  rewrite Er. cbn [flag_team].
  destruct (proj1 (wf_teams_ok Hwf) {| flag_team := team a |}
              (get_In_keys _ _ Hown)) as [home Hhome].
  cbn [flag_team] in Hhome. rewrite Hhome.
  eexists _, home, _. split; [reflexivity|]. split; [reflexivity|].
  split; [|split].
  - rewrite flags_coordinates_after_return. apply DictFacts.get_set_eq.
  - rewrite actors_coordinates_after_return.
    cbn [actors_coordinates set_actors_coordinates]. apply DictFacts.get_set_eq.
  - unfold after_return.
    change (flag_of (set_actors_coordinates a target s) a) with (flag_of s a).
    rewrite Hnone. exact Hnone.
Qed.

Lemma move_onto_own_flag_returns_it_witness :
  board_wf Sample.stray
  /\ flag_of Sample.stray Sample.a0 = None
  /\ Dict.get (flags_coordinates Sample.stray) Sample.flagA = Some (Sample.at_ 4 2)
  /\ exists score home s',
       move Sample.a0 Directions.right Sample.stray = Ok (true, score, s')
       /\ Dict.get (bases_coordinates Sample.stray) Sample.baseA = Some home
       /\ Dict.get (flags_coordinates s') Sample.flagA = Some home
       /\ Dict.get (actors_coordinates s') Sample.a0 = Some (Sample.at_ 4 2)
       /\ flag_of s' Sample.a0 = None.
Proof.
  split; [reflexivity|]. split; [reflexivity|]. split; [reflexivity|].
  refine (move_onto_own_flag_returns_it Sample.stray Sample.a0 Directions.right
            (Sample.at_ 3 2) eq_refl eq_refl eq_refl eq_refl eq_refl _).
  intros g Hg. apply DictFacts.get_In in Hg. simpl in Hg.
  destruct Hg as [E|[E|[]]]; [inversion E; reflexivity | discriminate E].
Defined.

(* ================================================================== *)
(** * The command queue *)

Lemma drain_to_sentinel {A : Type} (orders : list A) rest u :
  (List.length orders < u)%nat ->
  Main.drain (map Some orders ++ None :: rest) u
  = Some (orders, {| Main.entries := rest;
                     Main.unfinished := (u - S (List.length orders))%nat |}).
Proof.
  revert u. induction orders as [|o orders IH]; intros u Hu; simpl in Hu.
  - destruct u as [|u]; [lia|]. simpl. now rewrite Nat.sub_0_r.
  - destruct u as [|u]; [lia|]. cbn [map app Main.drain].
    unfold Main.task_done. cbn [Main.unfinished Main.entries].
    rewrite IH by lia. reflexivity.
Qed.

(** X16.  [get_all_queue_items] returns the orders in front of the
    first sentinel, in the order in which they were queued, and takes
    them and the sentinel off the queue; what was queued behind the
    sentinel stays.  Each entry taken is marked done, so the call needs
    as many unfinished tasks as it takes entries. *)
Theorem queue_items_up_to_sentinel {A : Type} (orders : list A) rest u :
  (List.length orders < u)%nat ->
  Main.get_all_queue_items
    {| Main.entries := map Some orders ++ None :: rest; Main.unfinished := u |}
  = Some (orders, {| Main.entries := rest;
                     Main.unfinished := (u - S (List.length orders))%nat |}).
Proof.
  intros Hu. unfold Main.get_all_queue_items. cbn [Main.entries Main.unfinished].
  exact (drain_to_sentinel orders rest u Hu).
Qed.

Lemma queue_items_up_to_sentinel_witness :
  (List.length [1; 2] < 4)%nat
  /\ Main.get_all_queue_items
       {| Main.entries := map Some [1; 2] ++ None :: [Some 3];
          Main.unfinished := 4 |}
     = Some ([1; 2], {| Main.entries := [Some 3];
                        Main.unfinished := (4 - S (List.length [1; 2]))%nat |}).
Proof.
  assert (H : (List.length [1; 2] < 4)%nat) by (simpl; lia).
  split; [exact H|].
  exact (queue_items_up_to_sentinel [1; 2] [Some 3] 4%nat H).
Defined.

(** X17.  Without a sentinel [get_all_queue_items] does not return:
    when every entry of the queue is an order, the loop takes them all
    and then waits in [queue.get()] (or [task_done] has raised before). *)
Theorem queue_without_sentinel_blocks {A : Type} (orders : list A) u :
  Main.get_all_queue_items
    {| Main.entries := map Some orders; Main.unfinished := u |} = None.
Proof.
  unfold Main.get_all_queue_items. cbn [Main.entries Main.unfinished].
  revert u. induction orders as [|o orders IH]; intros u; [reflexivity|].
  cbn [map Main.drain]. unfold Main.task_done. cbn [Main.unfinished Main.entries].
  destruct u as [|u]; [reflexivity|]. now rewrite IH.
Qed.

(** X18.  A tick collects everything: on a queue that holds orders only
    and counts at least one unfinished task per entry, putting the
    sentinel and calling [get_all_queue_items] returns all the orders
    in their order and leaves the queue empty, with the tasks of the
    collected orders done. *)
Theorem tick_collects_all_orders {A : Type} (orders : list A) u :
  (List.length orders <= u)%nat ->
  Main.collect_commands
    {| Main.entries := map Some orders; Main.unfinished := u |}
  = Some (orders, {| Main.entries := [];
                     Main.unfinished := (u - List.length orders)%nat |}).
Proof.
  intros Hu. unfold Main.collect_commands, Main.get_all_queue_items, Main.put_nowait.
  cbn [Main.entries Main.unfinished].
  rewrite (drain_to_sentinel orders [] (S u)) by lia. reflexivity.
Qed.

Lemma tick_collects_all_orders_witness :
  (List.length [1; 2] <= 2)%nat
  /\ Main.collect_commands
       {| Main.entries := map Some [1; 2]; Main.unfinished := 2 |}
     = Some ([1; 2], {| Main.entries := [];
                        Main.unfinished := (2 - List.length [1; 2])%nat |}).
Proof.
  assert (H : (List.length [1; 2] <= 2)%nat) by (simpl; lia).
  split; [exact H|].
  exact (tick_collects_all_orders [1; 2] 2%nat H).
Defined.

(* ================================================================== *)
(** * The map generator: actors and walls *)

Lemma nth_error_list_set_same {A : Type} (l : list A) i j b :
  nth_error l j = Some b -> nth_error (list_set l i b) j = Some b.
Proof.
  revert i j. induction l as [|a l IH]; intros i j H; [destruct j; discriminate|].
  destruct i, j; simpl in *; auto.
Qed.

Lemma list_set_perm {A : Type} (l : list A) i a v :
  nth_error l i = Some a -> Permutation (v :: l) (a :: list_set l i v).
Proof.
  revert i. induction l as [|b l IH]; intros i H; [destruct i; discriminate|].
  destruct i; simpl in *.
  - injection H as ->. apply perm_swap.
  - eapply perm_trans; [apply perm_swap|].
    eapply perm_trans; [apply perm_skip, (IH i H) | apply perm_swap].
Qed.

Lemma swap_perm {A : Type} (l : list A) i j : Permutation (swap l i j) l.
Proof.
  unfold swap. destruct (nth_error l i) as [a|] eqn:Ei; [|reflexivity].
  destruct (nth_error l j) as [b|] eqn:Ej; [|reflexivity].
  apply Permutation_cons_inv with (a := b). symmetry.
  eapply perm_trans.
  - apply list_set_perm. exact Ei.
  - apply list_set_perm. apply nth_error_list_set_same. exact Ej.
Qed.

Lemma shuffle_from_perm {A : Type} draws drawn i (l : list A) :
  Permutation (shuffle_from draws drawn i l) l.
Proof.
  revert drawn l. induction i as [|i IH]; intros drawn l; [reflexivity|].
  cbn [shuffle_from]. eapply perm_trans; [apply IH | apply swap_perm].
Qed.

Lemma shuffle_perm {A : Type} draws (l : list A) : Permutation (shuffle draws l) l.
Proof. apply shuffle_from_perm. Qed.

Lemma list_remove_perm {A : Type} {HA : Hashable A} {LA : LawfulHashable A}
  (a : A) l r :
  list_remove a l = Some r -> Permutation l (a :: r).
Proof.
  revert r. induction l as [|b l IH]; intros r H; [discriminate|].
  cbn [list_remove] in H. destruct (key_eqb_spec b a) as [->|Hne].
  - injection H as <-. reflexivity.
  - destruct (list_remove a l) as [r'|]; [|discriminate]. injection H as <-.
    eapply perm_trans; [apply perm_skip, (IH r' eq_refl) | apply perm_swap].
Qed.

Lemma list_remove_In {A : Type} {HA : Hashable A} {LA : LawfulHashable A}
  (a : A) l :
  In a l -> exists r, list_remove a l = Some r.
Proof.
  induction l as [|b l IH]; intros H; [destruct H|]. cbn [list_remove].
  destruct (key_eqb_spec b a) as [->|Hne]; [eauto|].
  destruct H as [->|H]; [congruence|].
  destruct (IH H) as [r ->]. eauto.
Qed.

Lemma NoDup_area n center d : NoDup (BoardSetup._get_area_positions n center d).
Proof.
  unfold BoardSetup._get_area_positions.
  assert (Hin : forall cx cy c,
             In c match mk_coordinates n cx cy with Some c => [c] | None => [] end ->
             x c = cx /\ y c = cy).
  { intros cx cy c H. destruct (mk_coordinates n cx cy) as [c'|] eqn:E; [|destruct H].
    destruct H as [<-|[]]. apply mk_coordinates_Some in E. destruct E as [-> _].
    split; reflexivity. }
  apply NoDup_flat_map.
  - apply NoDup_zrange.
  - intros cx. apply NoDup_flat_map.
    + apply NoDup_zrange.
    + intros cy. destruct (mk_coordinates n cx cy); repeat constructor. intros [].
    + intros cy1 cy2 c H1 H2. apply Hin in H1, H2. lia.
  - intros cx1 cx2 c H1 H2. apply in_flat_map in H1, H2.
    destruct H1 as [cy1 [_ H1]], H2 as [cy2 [_ H2]]. apply Hin in H1, H2. lia.
Qed.

Lemma length_flat_map_const_in {A B : Type} (f : A -> list B) (l : list A) (k : nat) :
  (forall a, In a l -> List.length (f a) = k) ->
  List.length (flat_map f l) = (List.length l * k)%nat.
Proof.
  intros Hf. induction l as [|a l IH]; simpl; [lia|].
  rewrite length_app, IH, Hf; [lia | now left | intros; apply Hf; now right].
Qed.

Lemma area_length_inside n center d :
  0 <= d ->
  d <= x center -> x center + d <= n ->
  d <= y center -> y center + d <= n ->
  List.length (BoardSetup._get_area_positions n center d) = window_cells d.
Proof.
  intros Hd Hx1 Hx2 Hy1 Hy2. unfold BoardSetup._get_area_positions, window_cells.
  rewrite length_flat_map_const_in with (k := Z.to_nat (2 * d)).
  - rewrite length_zrange. f_equal. lia.
  - intros cx Hcx. apply zrange_In in Hcx.
    rewrite length_flat_map_const_in with (k := 1%nat).
    + rewrite length_zrange. lia.
    + intros cy Hcy. apply zrange_In in Hcy.
      destruct (mk_coordinates n cx cy) as [c|] eqn:E; [reflexivity|].
      exfalso. unfold mk_coordinates in E.
      destruct (0 <=? cx) eqn:E1, (cx <=? n - 1) eqn:E2,
               (0 <=? cy) eqn:E3, (cy <=? n - 1) eqn:E4; simpl in E;
        try discriminate; rewrite ?Z.leb_gt in *; lia.
Qed.

Lemma In_firstn {A : Type} (k : nat) (l : list A) c : In c (firstn k l) -> In c l.
Proof.
  intros H. rewrite <- (firstn_skipn k l). apply in_or_app. now left.
Qed.

Lemma NoDup_firstn {A : Type} (k : nat) (l : list A) : NoDup l -> NoDup (firstn k l).
Proof.
  intros H. rewrite <- (firstn_skipn k l) in H. exact (NoDup_app_remove_r _ _ H).
Qed.

Lemma place_all_actors pairs bd :
  actors_coordinates (place_all pairs bd)
  = fold_left (fun d p => Dict.set d (fst p) (snd p)) pairs (actors_coordinates bd).
Proof.
  unfold place_all. revert bd. induction pairs as [|p pairs IH]; intros bd;
    [reflexivity|].
  cbn [fold_left]. rewrite IH. reflexivity.
Qed.

Lemma place_all_rest pairs bd :
  same_static bd (place_all pairs bd)
  /\ flags_coordinates (place_all pairs bd) = flags_coordinates bd
  /\ actors_flag (place_all pairs bd) = actors_flag bd.
Proof.
  unfold place_all. revert bd. induction pairs as [|p pairs IH]; intros bd.
  - split; [apply same_static_refl | split; reflexivity].
  - cbn [fold_left].
    destruct (IH (set_actors_coordinates (fst p) (snd p) bd)) as [Hs [Hf Ha]].
    split; [exact Hs | split; [exact Hf | exact Ha]].
Qed.

Lemma get_notin_keys {K V : Type} {HK : Hashable K} {LK : LawfulHashable K}
  (d : list (K * V)) (k : K) :
  ~ In k (Dict.keys d) -> Dict.get d k = None.
Proof.
  intros H. destruct (Dict.get d k) as [v|] eqn:E; [|reflexivity].
  exfalso. apply H. exact (get_In_keys _ _ E).
Qed.

Lemma get_fold_set {K V : Type} {HK : Hashable K} {LK : LawfulHashable K}
  (pairs d : list (K * V)) (k : K) :
  NoDup (Dict.keys pairs) ->
  Dict.get (fold_left (fun d p => Dict.set d (fst p) (snd p)) pairs d) k
  = match Dict.get pairs k with
    | Some v => Some v
    | None => Dict.get d k
    end.
Proof.
  revert d. induction pairs as [|[k0 v0] pairs IH]; intros d Hnd; [reflexivity|].
  inversion Hnd as [|? ? Hnotin Hnd']; subst.
  cbn [fold_left fst snd Dict.get]. rewrite (IH _ Hnd').
  destruct (key_eqb_spec k0 k) as [->|Hne].
  - rewrite (get_notin_keys pairs k Hnotin). apply DictFacts.get_set_eq.
  - rewrite DictFacts.get_set_ne by exact Hne. reflexivity.
Qed.

Lemma keys_combine_In {K V : Type} (ks : list K) (vs : list V) k :
  In k (Dict.keys (combine ks vs)) -> In k ks.
Proof.
  unfold Dict.keys. intros H. apply in_map_iff in H.
  destruct H as [[k' v] [<- H]]. exact (in_combine_l _ _ _ _ H).
Qed.

Lemma keys_combine_NoDup {K V : Type} (ks : list K) (vs : list V) :
  NoDup ks -> NoDup (Dict.keys (combine ks vs)).
Proof.
  intros H. revert vs. induction H as [|k ks Hnotin Hnd IH]; intros vs;
    [constructor|].
  destruct vs as [|v vs]; [constructor|]. cbn [combine Dict.keys map fst].
  constructor; [|apply IH].
  intros Hin. apply Hnotin. exact (keys_combine_In ks vs k Hin).
Qed.

Lemma get_combine {K V : Type} {HK : Hashable K} {LK : LawfulHashable K}
  (ks : list K) (vs : list V) i k :
  NoDup ks -> nth_error ks i = Some k ->
  Dict.get (combine ks vs) k = nth_error vs i.
Proof.
  intros Hnd. revert vs i. induction Hnd as [|k0 ks Hnotin Hnd IH]; intros vs i H;
    [destruct i; discriminate|].
  destruct vs as [|v vs].
  - destruct i; reflexivity.
  - cbn [combine Dict.get]. destruct i as [|i]; simpl in H.
    + injection H as ->. now rewrite key_eqb_refl.
    + destruct (key_eqb_spec k0 k) as [->|Hne].
      * exfalso. apply Hnotin. eapply nth_error_In. exact H.
      * exact (IH vs i H).
Qed.

Lemma place_actors_spec n draws actors base bd :
  on_board n base -> NoDup actors ->
  exists places,
    BoardSetup._place_actors n draws actors base bd
    = Some (place_all (combine actors places) bd)
    /\ NoDup places
    /\ (forall c, In c places -> starting_cell n base c)
    /\ List.length places
       = Nat.min (List.length actors)
                 (List.length (BoardSetup._get_area_positions n base 2) - 1)
    /\ forall i a,
         nth_error actors i = Some a ->
         Dict.get (actors_coordinates (place_all (combine actors places) bd)) a
         = match nth_error places i with
           | Some c => Some c
           | None => Dict.get (actors_coordinates bd) a
           end.
Proof.
  intros Hbase Hnd.
  assert (Hin : In base (BoardSetup._get_area_positions n base 2)).
  { apply setup_area_positions_In. split; [|exact Hbase]. unfold in_window. lia. }
  destruct (list_remove_In base _ Hin) as [r Hr].
  pose proof (list_remove_perm base _ r Hr) as Hperm.
  pose proof (Permutation_NoDup Hperm (NoDup_area n base 2)) as Hnd1.
  inversion Hnd1 as [|? ? Hnotin Hndr]; subst.
  exists (firstn (List.length actors) (shuffle draws r)).
  unfold BoardSetup._place_actors, BoardSetup.starting_places. rewrite Hr.
  split; [reflexivity|]. split; [|split; [|split]].
  - apply NoDup_firstn.
    exact (Permutation_NoDup (Permutation_sym (shuffle_perm draws r)) Hndr).
  - intros c Hc. apply In_firstn in Hc.
    apply (Permutation_in _ (shuffle_perm draws r)) in Hc.
    assert (Hc' : In c (BoardSetup._get_area_positions n base 2)).
    { apply (Permutation_in _ (Permutation_sym Hperm)). now right. }
    apply setup_area_positions_In in Hc'. destruct Hc' as [Hw Hb].
    split; [exact Hw|]. split; [exact Hb|]. intros ->. contradiction.
  - rewrite length_firstn, (Permutation_length (shuffle_perm draws r)),
      (Permutation_length Hperm).
    cbn [List.length]. now rewrite Nat.sub_1_r.
  - intros i a Ha. rewrite place_all_actors.
    rewrite get_fold_set by (apply keys_combine_NoDup; exact Hnd).
    rewrite (get_combine actors _ i a Hnd Ha). reflexivity.
Qed.

(** X19.  [_place_actors] for a base on the board and distinct actors
    does not raise.  The cells it hands out are pairwise distinct and
    lie in the window of distance 2 around the base, on the board and
    off the base itself; there are as many as there are actors, but not
    more than the window has cells besides the base.  The actor of
    index [i] gets the cell of index [i]; an actor beyond the cells is
    left as it was. *)
Theorem actors_placed_around_base n draws actors base bd :
  on_board n base -> NoDup actors ->
  exists places,
    BoardSetup._place_actors n draws actors base bd
    = Some (place_all (combine actors places) bd)
    /\ NoDup places
    /\ (forall c, In c places -> starting_cell n base c)
    /\ List.length places
       = Nat.min (List.length actors)
                 (List.length (BoardSetup._get_area_positions n base 2) - 1)
    /\ forall i a,
         nth_error actors i = Some a ->
         Dict.get (actors_coordinates (place_all (combine actors places) bd)) a
         = match nth_error places i with
           | Some c => Some c
           | None => Dict.get (actors_coordinates bd) a
           end.
Proof. exact (place_actors_spec n draws actors base bd). Qed.

Lemma actors_placed_around_base_witness :
  on_board 10 (Sample.at_ 2 2) /\ NoDup [Sample.a0; Sample.z0]
  /\ exists places,
       BoardSetup._place_actors 10 (fun _ => 1%nat) [Sample.a0; Sample.z0]
         (Sample.at_ 2 2) Sample.board
       = Some (place_all (combine [Sample.a0; Sample.z0] places) Sample.board)
       /\ NoDup places
       /\ (forall c, In c places -> starting_cell 10 (Sample.at_ 2 2) c)
       /\ List.length places
          = Nat.min (List.length [Sample.a0; Sample.z0])
              (List.length (BoardSetup._get_area_positions 10 (Sample.at_ 2 2) 2) - 1)
       /\ forall i a,
            nth_error [Sample.a0; Sample.z0] i = Some a ->
            Dict.get (actors_coordinates
                        (place_all (combine [Sample.a0; Sample.z0] places)
                           Sample.board)) a
            = match nth_error places i with
              | Some c => Some c
              | None => Dict.get (actors_coordinates Sample.board) a
              end.
Proof.
  assert (Hb : on_board 10 (Sample.at_ 2 2)) by (unfold on_board; simpl; lia).
  assert (Hnd : NoDup [Sample.a0; Sample.z0]) by (apply nodupb_NoDup; reflexivity).
  split; [exact Hb|]. split; [exact Hnd|].
  exact (actors_placed_around_base 10 (fun _ => 1%nat) [Sample.a0; Sample.z0]
           (Sample.at_ 2 2) Sample.board Hb Hnd).
Defined.

(** X20.  The window of a base that keeps two cells from the border has
    sixteen cells, so [_place_actors] places fifteen actors at most: an
    actor of index 15 or more that was not on the board is not on it
    afterwards, and an order for it raises KeyError. *)
Theorem surplus_actors_stay_off_the_board n draws actors base bd i a :
  2 <= x base <= n - 2 -> 2 <= y base <= n - 2 ->
  NoDup actors ->
  nth_error actors i = Some a -> (15 <= i)%nat ->
  Dict.get (actors_coordinates bd) a = None ->
  exists bd',
    BoardSetup._place_actors n draws actors base bd = Some bd'
    /\ Dict.get (actors_coordinates bd') a = None
    /\ forall r d, move a d bd' = Raise KeyError
                   /\ grabput_flag r a d bd' = Raise KeyError.
Proof.
  intros Hx Hy Hnd Ha Hi Hoff.
  assert (Hbase : on_board n base) by (unfold on_board; lia).
  destruct (place_actors_spec n draws actors base bd Hbase Hnd)
    as [places [Heq [_ [_ [Hlen Hget]]]]].
  rewrite (area_length_inside n base 2) in Hlen by lia.
  change (window_cells 2) with 16%nat in Hlen.
  assert (Hnone : nth_error places i = None) by (apply nth_error_None; lia).
  specialize (Hget i a Ha). rewrite Hnone, Hoff in Hget.
  eexists. split; [exact Heq|]. split; [exact Hget|].
  intros r d. split.
  - exact (move_raises_off_board _ a d Hget).
  - exact (grabput_raises_off_board _ r a d Hget).
Qed.

Lemma all_positions_In n c : In c (BoardSetup.all_positions n) <-> on_board n c.
Proof.
  unfold BoardSetup.all_positions, on_board. rewrite in_flat_map. split.
  - intros [i [Hi Hin]]. apply in_map_iff in Hin. destruct Hin as [j [<- Hj]].
    apply zrange_In in Hi. apply zrange_In in Hj. simpl. lia.
  - intros [Hx Hy]. exists (x c). split; [apply zrange_In; lia|].
    apply in_map_iff. exists (y c). split; [now destruct c | apply zrange_In; lia].
Qed.

Lemma NoDup_dedup {A : Type} {HA : Hashable A} {LA : LawfulHashable A} (l : list A) :
  NoDup (dedup l).
Proof.
  induction l as [|a l IH]; simpl; [constructor|].
  destruct (contains l a) eqn:E; [exact IH|].
  constructor; [|exact IH]. rewrite dedup_In. now apply contains_not_In.
Qed.

Lemma walls_forbidden_In n bd c :
  In c (BoardSetup.walls_forbidden n bd) <->
  exists cb, In cb (Dict.values (bases_coordinates bd))
             /\ in_window 3 cb c /\ on_board n c.
Proof.
  unfold BoardSetup.walls_forbidden. rewrite in_flat_map.
  split; intros [cb [Hcb H]]; exists cb; (split; [exact Hcb|]);
    now apply setup_area_positions_In.
Qed.

Lemma wall_candidates_In n bd c :
  In c (wall_candidates n bd) <->
  on_board n c
  /\ forall cb, In cb (Dict.values (bases_coordinates bd)) -> ~ in_window 3 cb c.
Proof.
  unfold wall_candidates.
  rewrite filter_In, dedup_In, all_positions_In, negb_true_iff, contains_not_In,
    walls_forbidden_In.
  split.
  - intros [Hb Hno]. split; [exact Hb|]. intros cb Hcb Hw. apply Hno. eauto.
  - intros [Hb Hno]. split; [exact Hb|]. intros [cb [Hcb [Hw _]]].
    exact (Hno cb Hcb Hw).
Qed.

Lemma NoDup_wall_candidates n bd : NoDup (wall_candidates n bd).
Proof. unfold wall_candidates. apply NoDup_filter, NoDup_dedup. Qed.

Lemma dedup_NoDup_id {A : Type} {HA : Hashable A} {LA : LawfulHashable A}
  (l : list A) : NoDup l -> dedup l = l.
Proof.
  induction 1 as [|a l Hnotin Hnd IH]; simpl; [reflexivity|].
  apply contains_not_In in Hnotin. now rewrite Hnotin, IH.
Qed.

Lemma slice_to_In {A : Type} (k : Z) (l : list A) c : In c (slice_to k l) -> In c l.
Proof. unfold slice_to. destruct (k <? 0); apply In_firstn. Qed.

Lemma NoDup_slice_to {A : Type} (k : Z) (l : list A) : NoDup l -> NoDup (slice_to k l).
Proof. unfold slice_to. destruct (k <? 0); apply NoDup_firstn. Qed.

Lemma place_walls_eq n walls draws bd :
  BoardSetup._place_walls n walls draws bd
  = set_walls_coordinates
      (slice_to walls (shuffle draws (wall_candidates n bd))) bd.
Proof.
  unfold BoardSetup._place_walls. cbv zeta. fold (wall_candidates n bd).
  rewrite dedup_NoDup_id; [reflexivity|].
  apply NoDup_slice_to.
  exact (Permutation_NoDup (Permutation_sym (shuffle_perm draws _))
           (NoDup_wall_candidates n bd)).
Qed.

Lemma place_walls_spec n walls draws bd c :
  In c (walls_coordinates (BoardSetup._place_walls n walls draws bd)) ->
  on_board n c
  /\ forall cb, In cb (Dict.values (bases_coordinates bd)) -> ~ in_window 3 cb c.
Proof.
  rewrite place_walls_eq. cbn [walls_coordinates set_walls_coordinates].
  intros H. apply slice_to_In in H.
  apply (Permutation_in _ (shuffle_perm draws _)) in H.
  now apply wall_candidates_In.
Qed.

(** X21.  [_place_walls] writes the walls only.  The walls are on the
    board and pairwise distinct, and no wall lies in the window of
    distance 3 around a base, so no wall is on a base.  A wall count
    from 0 up gives that many walls, or all the cells outside the
    windows when there are fewer; a negative wall count, as Python's
    slice reads it, gives all those cells but that many. *)
Theorem walls_keep_clear_of_bases n walls draws bd :
  NoDup (walls_coordinates (BoardSetup._place_walls n walls draws bd))
  /\ (forall c,
        In c (walls_coordinates (BoardSetup._place_walls n walls draws bd)) ->
        on_board n c
        /\ forall b cb, Dict.get (bases_coordinates bd) b = Some cb ->
                        ~ in_window 3 cb c /\ c <> cb)
  /\ List.length (walls_coordinates (BoardSetup._place_walls n walls draws bd))
     = (if (walls <? 0)%Z
        then List.length (wall_candidates n bd) - Z.to_nat (- walls)
        else Nat.min (Z.to_nat walls) (List.length (wall_candidates n bd)))%nat
  /\ BoardSetup._place_walls n walls draws bd
     = set_walls_coordinates
         (walls_coordinates (BoardSetup._place_walls n walls draws bd)) bd.
Proof.
  split; [|split; [|split]].
  - rewrite place_walls_eq. cbn [walls_coordinates set_walls_coordinates].
    apply NoDup_slice_to.
    exact (Permutation_NoDup (Permutation_sym (shuffle_perm draws _))
             (NoDup_wall_candidates n bd)).
  - intros c Hc. destruct (place_walls_spec n walls draws bd c Hc) as [Hb Hno].
    split; [exact Hb|]. intros b cb Hcb.
    assert (Hin : In cb (Dict.values (bases_coordinates bd))).
    { eapply DictFacts.In_values. apply DictFacts.get_In. exact Hcb. }
    split; [exact (Hno cb Hin)|].
    intros ->. apply (Hno cb Hin). unfold in_window. lia.
  - rewrite place_walls_eq. cbn [walls_coordinates set_walls_coordinates].
    unfold slice_to. destruct (walls <? 0); rewrite length_firstn,
      (Permutation_length (shuffle_perm draws _)); lia.
  - rewrite place_walls_eq. reflexivity.
Qed.

(* ------------------------------------------------------------------ *)
(** ** Where the bases are *)

Lemma In_keys_set {K V : Type} {HK : Hashable K} {LK : LawfulHashable K}
  (d : list (K * V)) k v k' :
  In k' (Dict.keys (Dict.set d k v)) -> k' = k \/ In k' (Dict.keys d).
Proof.
  destruct (DictFacts.keys_set d k v) as [E|E]; rewrite E; [auto|].
  intros H. apply in_app_or in H. destruct H as [H|[H|[]]]; auto.
Qed.

Lemma bases_inv_restart teams n d i available_places bd :
  bases_inv teams n d i available_places bd ->
  bases_inv teams n d 0 (BoardSetup.interior n) bd.
Proof.
  intros [_ _ _ Hbn Hbk Hfn Hfk]. constructor; auto; intros; lia.
Qed.

Lemma bases_inv_step teams n d i available_places bd team chosen :
  NoDup teams ->
  placement_inv teams n d i available_places bd ->
  bases_inv teams n d i available_places bd ->
  nth_error teams i = Some team ->
  In chosen available_places ->
  bases_inv teams n d (S i)
    (filter (fun c => negb (contains (BoardSetup._get_area_positions n chosen d) c))
            available_places)
    (set_flags_coordinates {| flag_team := team |} chosen
       (set_bases_coordinates {| base_team := team |} chosen bd)).
Proof.
  intros Hnd [_ _ Hpool _] [Hsep Hin Hinside Hbn Hbk Hfn Hfk] Hteam Hchosen.
  assert (Hother : forall j t, (j < i)%nat -> nth_error teams j = Some t ->
                               key_eqb team t = false).
  { intros j t Hj Ht. apply key_eqb_neq.
    eapply (@NoDup_nth_error_neq _ teams i j); eauto. lia. }
  constructor.
  - intros j1 j2 t1 t2 c1 c2 Hlt Hj2 Ht1 Ht2. rewrite !get_bases_placed.
    rewrite (Hother j1 t1) by (assumption || lia).
    destruct (Nat.eq_dec j2 i) as [->|Hne].
    + assert (t2 = team) by congruence. subst t2. rewrite key_eqb_refl.
      intros Hc1 [= <-]. apply (Hpool chosen j1 t1 c1); auto.
    + rewrite (Hother j2 t2) by (assumption || lia).
      apply (Hsep j1 j2); auto; lia.
  - intros c Hc. apply filter_In in Hc. apply Hin. tauto.
  - intros j t c Hj Ht. rewrite get_bases_placed.
    destruct (Nat.eq_dec j i) as [->|Hne].
    + assert (t = team) by congruence. subst t. rewrite key_eqb_refl.
      intros [= <-]. now apply Hin.
    + rewrite (Hother j t) by (assumption || lia).
      apply (Hinside j); auto; lia.
  - cbn [bases_coordinates set_flags_coordinates set_bases_coordinates].
    now apply DictFacts.NoDup_keys_set.
  - cbn [bases_coordinates set_flags_coordinates set_bases_coordinates].
    intros b Hb. apply In_keys_set in Hb. destruct Hb as [->|Hb]; [|auto].
    cbn [base_team]. eapply nth_error_In. exact Hteam.
  - cbn [flags_coordinates set_flags_coordinates set_bases_coordinates].
    now apply DictFacts.NoDup_keys_set.
  - cbn [flags_coordinates set_flags_coordinates set_bases_coordinates].
    intros f Hf. apply In_keys_set in Hf. destruct Hf as [->|Hf]; [|auto].
    cbn [flag_team]. eapply nth_error_In. exact Hteam.
Qed.

Lemma place_loop_bases_inv teams n d draws :
  NoDup teams ->
  forall fuel drawn i available_places bd bd',
    placement_inv teams n d i available_places bd ->
    bases_inv teams n d i available_places bd ->
    BoardSetup.place_loop fuel teams n d draws drawn i available_places bd = Some bd' ->
    exists i' pool,
      (List.length teams <= i')%nat
      /\ placement_inv teams n d i' pool bd'
      /\ bases_inv teams n d i' pool bd'.
Proof.
  intros Hnd. induction fuel as [|fuel IH]; intros drawn i avail bd bd' Hinv Hb H;
    cbn [BoardSetup.place_loop] in H; [discriminate|].
  destruct (nth_error teams i) as [team|] eqn:Hteam.
  - destruct avail as [|c0 rest].
    + eapply IH; [apply placement_inv_start | | exact H].
      eapply bases_inv_restart. exact Hb.
    + assert (Hch : In (nth (draws drawn mod List.length (c0 :: rest))
                            (c0 :: rest) c0) (c0 :: rest))
        by (apply nth_mod_In; discriminate).
      eapply IH; [| |exact H].
      * apply placement_inv_step; auto.
      * apply bases_inv_step; auto.
  - injection H as <-. apply nth_error_None in Hteam.
    exists i, avail. auto.
Qed.

Lemma place_loop_frame teams n d draws :
  forall fuel drawn i available_places bd bd',
    BoardSetup.place_loop fuel teams n d draws drawn i available_places bd = Some bd' ->
    same_but_bases_and_flags bd bd'.
Proof.
  induction fuel as [|fuel IH]; intros drawn i avail bd bd' H;
    cbn [BoardSetup.place_loop] in H; [discriminate|].
  destruct (nth_error teams i) as [team|].
  - destruct avail as [|c0 rest].
    + eapply IH. exact H.
    + apply IH in H. exact H.
  - injection H as <-. repeat split.
Qed.

Lemma bases_stage fuel teams n d draws bd bd' :
  NoDup teams ->
  BoardSetup.minimum_distance n (List.length teams) = Ok d ->
  bases_coordinates bd = [] -> flags_coordinates bd = [] ->
  BoardSetup._place_bases_and_flags fuel teams n draws bd = Ok (Some bd') ->
  (forall t, In t teams ->
     exists c, Dict.get (bases_coordinates bd') {| base_team := t |} = Some c
               /\ Dict.get (flags_coordinates bd') {| flag_team := t |} = Some c
               /\ In c (BoardSetup.interior n))
  /\ (forall j1 j2 t1 t2 c1 c2,
        (j1 < j2)%nat ->
        nth_error teams j1 = Some t1 -> nth_error teams j2 = Some t2 ->
        Dict.get (bases_coordinates bd') {| base_team := t1 |} = Some c1 ->
        Dict.get (bases_coordinates bd') {| base_team := t2 |} = Some c2 ->
        ~ in_window d c1 c2)
  /\ (NoDup (Dict.keys (bases_coordinates bd'))
      /\ forall b, In b (Dict.keys (bases_coordinates bd')) -> In (base_team b) teams)
  /\ (NoDup (Dict.keys (flags_coordinates bd'))
      /\ forall f, In f (Dict.keys (flags_coordinates bd')) -> In (flag_team f) teams)
  /\ same_but_bases_and_flags bd bd'.
Proof.
  intros Hnd Hd Hb0 Hf0 H. unfold BoardSetup._place_bases_and_flags in H.
  rewrite Hd in H. injection H as H.
  assert (Hstart : bases_inv teams n d 0 (BoardSetup.interior n) bd).
  { constructor; try (intros; lia); auto; rewrite ?Hb0, ?Hf0;
      try constructor; intros ? []. }
  destruct (place_loop_bases_inv teams n d draws Hnd _ _ _ _ _ _
              (placement_inv_start teams n d bd) Hstart H)
    as [i' [pool [Hi' [[Hass _ _ _] [Hsep _ Hinside Hbn Hbk Hfn Hfk]]]]].
  split; [|split; [|split; [|split]]].
  - intros t Hin. apply In_nth_error in Hin. destruct Hin as [j Hj].
    assert (Hlt : (j < i')%nat).
    { assert (j < List.length teams)%nat by (apply nth_error_Some; congruence). lia. }
    destruct (Hass j t Hlt Hj) as [c [Hc Hfc]].
    exists c. split; [exact Hc|]. split; [exact Hfc|].
    exact (Hinside j t c Hlt Hj Hc).
  - intros j1 j2 t1 t2 c1 c2 Hlt Ht1 Ht2. apply (Hsep j1 j2); auto.
    assert (j2 < List.length teams)%nat by (apply nth_error_Some; congruence). lia.
  - split; assumption.
  - split; assumption.
  - exact (place_loop_frame teams n d draws _ _ _ _ _ _ H).
Qed.

(** X22.  On a board without bases and flags, when the placement loop
    has finished for a list of distinct teams: every team has its Base,
    with its Flag on it, at least two cells from every border of the
    board; the Base of a later team is outside the window of distance
    [d] around the Base of an earlier team, [d] being the
    [minimum_distance] that the code computes in floats, so no two
    Bases share a cell; the teams are the only ones with a Base or a
    Flag; and nothing but the Bases and Flags was written. *)
Theorem bases_keep_off_the_border fuel teams n d draws bd bd' :
  NoDup teams ->
  BoardSetup.minimum_distance n (List.length teams) = Ok d ->
  bases_coordinates bd = [] -> flags_coordinates bd = [] ->
  BoardSetup._place_bases_and_flags fuel teams n draws bd = Ok (Some bd') ->
  (forall t, In t teams ->
     exists c, Dict.get (bases_coordinates bd') {| base_team := t |} = Some c
               /\ Dict.get (flags_coordinates bd') {| flag_team := t |} = Some c
               /\ 2 <= x c <= n - 3 /\ 2 <= y c <= n - 3)
  /\ (forall j1 j2 t1 t2 c1 c2,
        (j1 < j2)%nat ->
        nth_error teams j1 = Some t1 -> nth_error teams j2 = Some t2 ->
        Dict.get (bases_coordinates bd') {| base_team := t1 |} = Some c1 ->
        Dict.get (bases_coordinates bd') {| base_team := t2 |} = Some c2 ->
        ~ in_window d c1 c2)
  /\ (forall b, In b (Dict.keys (bases_coordinates bd')) -> In (base_team b) teams)
  /\ (forall f, In f (Dict.keys (flags_coordinates bd')) -> In (flag_team f) teams)
  /\ same_but_bases_and_flags bd bd'.
Proof.
  intros Hnd Hd Hb0 Hf0 H.
  destruct (bases_stage fuel teams n d draws bd bd' Hnd Hd Hb0 Hf0 H)
    as [Hass [Hsep [[_ Hbk] [[_ Hfk] Hframe]]]].
  split; [|split; [exact Hsep | split; [exact Hbk | split; [exact Hfk | exact Hframe]]]].
  intros t Hin. destruct (Hass t Hin) as [c [Hc [Hfc Hint]]].
  exists c. split; [exact Hc|]. split; [exact Hfc|].
  apply interior_In in Hint. lia.
Qed.

(* ------------------------------------------------------------------ *)
(** ** The actors of all teams *)

Lemma team_actors_team actor_classes t a :
  In a (BoardSetup.team_actors actor_classes t) -> team a = t.
Proof.
  unfold BoardSetup.team_actors. intros H. apply in_map_iff in H.
  destruct H as [p [<- _]]. reflexivity.
Qed.

Lemma team_actors_NoDup actor_classes t :
  NoDup (BoardSetup.team_actors actor_classes t).
Proof.
  unfold BoardSetup.team_actors. apply (NoDup_map_inv ident).
  rewrite map_map. cbn [ident new_actor].
  exact (keys_combine_NoDup _ actor_classes (seq_NoDup _ 0)).
Qed.

Lemma NoDup_keys_fold_set {K V : Type} {HK : Hashable K} {LK : LawfulHashable K}
  (pairs d : list (K * V)) :
  NoDup (Dict.keys d) ->
  NoDup (Dict.keys (fold_left (fun d p => Dict.set d (fst p) (snd p)) pairs d)).
Proof.
  revert d. induction pairs as [|p pairs IH]; intros d H; [exact H|].
  cbn [fold_left]. apply IH. now apply DictFacts.NoDup_keys_set.
Qed.

Lemma combine_NoDup_r {K V : Type} (ks : list K) (vs : list V) k1 k2 v :
  NoDup vs -> In (k1, v) (combine ks vs) -> In (k2, v) (combine ks vs) -> k1 = k2.
Proof.
  intros Hnd. revert ks. induction Hnd as [|v0 vs Hnotin Hnd IH]; intros ks H1 H2.
  - destruct ks; destruct H1.
  - destruct ks as [|k0 ks]; [destruct H1|]. cbn [combine] in H1, H2.
    destruct H1 as [E1|H1], H2 as [E2|H2].
    + congruence.
    + injection E1 as -> ->. exfalso. apply Hnotin. exact (in_combine_r _ _ _ _ H2).
    + injection E2 as -> ->. exfalso. apply Hnotin. exact (in_combine_r _ _ _ _ H1).
    + exact (IH ks H1 H2).
Qed.

Lemma same_but_actors_bases bd1 bd :
  same_but_actors bd1 bd -> bases_coordinates bd = bases_coordinates bd1.
Proof. intros [[_ [H _]] _]. exact H. Qed.

Lemma same_but_actors_trans bd1 bd2 bd3 :
  same_but_actors bd1 bd2 -> same_but_actors bd2 bd3 -> same_but_actors bd1 bd3.
Proof.
  intros [Hs1 [Hf1 Ha1]] [Hs2 [Hf2 Ha2]]. split; [|split; congruence].
  exact (same_static_trans _ _ _ Hs1 Hs2).
Qed.

Lemma teams_inv_step teams done n actor_classes draws t cb bd1 ta bd :
  windows_disjoint teams bd1 ->
  In t teams -> ~ In t done ->
  Dict.get (bases_coordinates bd1) {| base_team := t |} = Some cb ->
  on_board n cb ->
  teams_inv teams done n bd1 bd ->
  exists ta' bd',
    BoardSetup.place_team n actor_classes draws t (ta, bd) = Some (ta', bd')
    /\ teams_inv teams (t :: done) n bd1 bd'.
Proof.
  intros Hdisj Hin Hnew Hcb Hon [Hnd Hone Hhome Hdone Hrest].
  pose proof (same_but_actors_bases bd1 bd Hrest) as Hbases.
  set (actors := BoardSetup.team_actors actor_classes t).
  destruct (place_actors_spec n draws actors cb bd Hon
              (team_actors_NoDup actor_classes t))
    as [places [Heq [Hndp [Hcells _]]]].
  unfold BoardSetup.place_team. cbn [fst snd]. fold actors.
  rewrite Hbases, Hcb, Heq.
  set (pairs := combine actors places) in *.
  eexists _, _. split; [reflexivity|].
  destruct (place_all_rest pairs bd) as [Hs [Hf Haf]].
  assert (Hb' : bases_coordinates (place_all pairs bd) = bases_coordinates bd1).
  { destruct Hs as [_ [Hb _]]. congruence. }
  assert (Hget : forall a,
             Dict.get (actors_coordinates (place_all pairs bd)) a
             = match Dict.get pairs a with
               | Some c => Some c
               | None => Dict.get (actors_coordinates bd) a
               end).
  { intros a. rewrite place_all_actors. apply get_fold_set.
    apply keys_combine_NoDup. apply team_actors_NoDup. }
  assert (Hnewa : forall a c, Dict.get pairs a = Some c ->
                              In (a, c) pairs /\ team a = t /\ starting_cell n cb c).
  { intros a c H. apply DictFacts.get_In in H. split; [exact H|]. split.
    - apply (team_actors_team actor_classes). exact (in_combine_l _ _ _ _ H).
    - apply Hcells. exact (in_combine_r _ _ _ _ H). }
  constructor.
  - rewrite place_all_actors. now apply NoDup_keys_fold_set.
  - intros a1 a2 c. rewrite !Hget.
    destruct (Dict.get pairs a1) as [c1|] eqn:E1;
      destruct (Dict.get pairs a2) as [c2|] eqn:E2.
    + intros [= ->] [= ->].
      destruct (Hnewa _ _ E1) as [H1 _], (Hnewa _ _ E2) as [H2 _].
      exact (combine_NoDup_r actors places a1 a2 c Hndp H1 H2).
    + intros [= ->] H2. exfalso.
      destruct (Hnewa _ _ E1) as [_ [_ [Hw1 _]]].
      destruct (Hhome a2 c H2) as [Ht2 [cb2 [Hcb2 [Hw2 _]]]].
      rewrite Hbases in Hcb2.
      apply (Hdisj t (team a2) cb cb2 c); auto.
      intros ->. apply Hnew. exact (Hdone a2 c H2).
    + intros H1 [= ->]. exfalso.
      destruct (Hnewa _ _ E2) as [_ [_ [Hw2 _]]].
      destruct (Hhome a1 c H1) as [Ht1 [cb1 [Hcb1 [Hw1 _]]]].
      rewrite Hbases in Hcb1.
      apply (Hdisj t (team a1) cb cb1 c); auto.
      intros ->. apply Hnew. exact (Hdone a1 c H1).
    + apply Hone.
  - intros a c. rewrite Hget, Hb'.
    destruct (Dict.get pairs a) as [c1|] eqn:E1.
    + intros [= ->]. destruct (Hnewa _ _ E1) as [_ [-> Hsc]].
      split; [exact Hin|]. exists cb. split; assumption.
    + intros H. rewrite <- Hbases. exact (Hhome a c H).
  - intros a c. rewrite Hget.
    destruct (Dict.get pairs a) as [c1|] eqn:E1.
    + intros _. destruct (Hnewa _ _ E1) as [_ [-> _]]. now left.
    + intros H. right. exact (Hdone a c H).
  - apply (same_but_actors_trans bd1 bd); [exact Hrest|].
    split; [exact Hs | split; assumption].
Qed.

Lemma place_teams_inv teams n actor_classes draws bd1 :
  windows_disjoint teams bd1 ->
  (forall t, In t teams ->
     exists cb, Dict.get (bases_coordinates bd1) {| base_team := t |} = Some cb
                /\ on_board n cb) ->
  forall rest done i ta bd,
    (forall t, In t rest -> In t teams) ->
    NoDup rest ->
    (forall t, In t rest -> ~ In t done) ->
    teams_inv teams done n bd1 bd ->
    exists ta' bd' done',
      BoardSetup.place_teams n actor_classes draws i rest (ta, bd) = Some (ta', bd')
      /\ teams_inv teams done' n bd1 bd'.
Proof.
  intros Hdisj Hbase. induction rest as [|t rest IH];
    intros done i ta bd Hsub Hnd Hfresh Hinv.
  - exists ta, bd, done. split; [reflexivity | exact Hinv].
  - inversion Hnd as [|? ? Hnotin Hnd']; subst.
    destruct (Hbase t (Hsub t (or_introl eq_refl))) as [cb [Hcb Hon]].
    destruct (teams_inv_step teams done n actor_classes (draws i) t cb bd1 ta bd
                Hdisj (Hsub t (or_introl eq_refl)) (Hfresh t (or_introl eq_refl))
                Hcb Hon Hinv) as [ta1 [bd2 [Heq Hinv2]]].
    cbn [BoardSetup.place_teams]. rewrite Heq.
    apply (IH (t :: done) (S i) ta1 bd2).
    + intros t' Ht'. apply Hsub. now right.
    + exact Hnd'.
    + intros t' Ht' [<-|Hd]; [contradiction|].
      exact (Hfresh t' (or_intror Ht') Hd).
    + exact Hinv2.
Qed.

(* ------------------------------------------------------------------ *)
(** ** The generated board *)

Lemma windows_disjoint_of_sep teams d bd :
  4 <= d ->
  (forall j1 j2 t1 t2 c1 c2,
     (j1 < j2)%nat ->
     nth_error teams j1 = Some t1 -> nth_error teams j2 = Some t2 ->
     Dict.get (bases_coordinates bd) {| base_team := t1 |} = Some c1 ->
     Dict.get (bases_coordinates bd) {| base_team := t2 |} = Some c2 ->
     ~ in_window d c1 c2) ->
  windows_disjoint teams bd.
Proof.
  intros Hd Hsep t1 t2 c1 c2 p H1 H2 Hne Hc1 Hc2 Hw1 Hw2.
  apply In_nth_error in H1, H2. destruct H1 as [j1 Hj1], H2 as [j2 Hj2].
  assert (Hj : j1 <> j2) by (intros ->; congruence).
  destruct (Nat.lt_ge_cases j1 j2) as [Hlt|Hge].
  - apply (Hsep j1 j2 t1 t2 c1 c2 Hlt Hj1 Hj2 Hc1 Hc2).
    unfold in_window in *. lia.
  - assert (Hlt : (j2 < j1)%nat) by lia.
    apply (Hsep j2 j1 t2 t1 c2 c1 Hlt Hj2 Hj1 Hc2 Hc1).
    unfold in_window in *. lia.
Qed.

Lemma NoDup_values_of_keys {K V : Type} (d : list (K * V)) :
  NoDup (Dict.keys d) ->
  (forall k1 k2 v, In (k1, v) d -> In (k2, v) d -> k1 = k2) ->
  NoDup (Dict.values d).
Proof.
  induction d as [|[k v] d IH]; intros Hnd Hinj; [constructor|].
  inversion Hnd as [|? ? Hnotin Hnd']; subst. cbn [Dict.values map snd].
  constructor.
  - intros Hin. apply in_map_iff in Hin. destruct Hin as [[k' v'] [E Hin]].
    simpl in E. subst v'. apply Hnotin.
    rewrite (Hinj k k' v (or_introl eq_refl) (or_intror Hin)).
    unfold Dict.keys. change k' with (fst (k', v)). now apply in_map.
  - apply IH; [exact Hnd'|]. intros k1 k2 v0 H1 H2.
    apply (Hinj k1 k2 v0); now right.
Qed.

Lemma in_window_center d c : 0 < d -> in_window d c c.
Proof. unfold in_window. lia. Qed.

Lemma bases_apart_of_windows teams bd :
  windows_disjoint teams bd ->
  NoDup (Dict.keys (bases_coordinates bd)) ->
  (forall b, In b (Dict.keys (bases_coordinates bd)) -> In (base_team b) teams) ->
  bases_apart bd.
Proof.
  intros Hdisj Hnd Hkeys. apply NoDup_values_of_keys; [exact Hnd|].
  intros [t1] [t2] c H1 H2.
  destruct (key_eqb_spec t1 t2) as [->|Hne]; [reflexivity|]. exfalso.
  assert (K1 : In {| base_team := t1 |} (Dict.keys (bases_coordinates bd))).
  { unfold Dict.keys. change {| base_team := t1 |} with (fst ({| base_team := t1 |}, c)).
    now apply in_map. }
  assert (K2 : In {| base_team := t2 |} (Dict.keys (bases_coordinates bd))).
  { unfold Dict.keys. change {| base_team := t2 |} with (fst ({| base_team := t2 |}, c)).
    now apply in_map. }
  apply (DictFacts.In_get_nodup _ _ _ Hnd) in H1, H2.
  apply (Hdisj t1 t2 c c c (Hkeys _ K1) (Hkeys _ K2) Hne H1 H2);
    apply in_window_center; lia.
Qed.

(** X23.  The generated board is a legal start.  On an empty board, for
    distinct teams and a computed [minimum_distance] of 4 or more, once the
    placement of the bases has finished the rest of [initialize_map]
    does not raise, and the board it leaves has the map size of the
    setup, is well formed, has its Bases on distinct cells, its Flags on
    the Bases, one actor per cell at most, every actor on a starting
    cell of its own team's Base, no actor on a Base or on a Wall, no
    Wall on a Base, and no Flag held. *)
Theorem generated_board_is_playable
  fuel teams actor_classes n d walls draws_bases draws_actors draws_walls ta0 bd0 bd1 :
  NoDup teams ->
  BoardSetup.minimum_distance n (List.length teams) = Ok d ->
  4 <= d ->
  empty_board bd0 ->
  BoardSetup._place_bases_and_flags fuel teams n draws_bases (set_map_size n bd0)
  = Ok (Some bd1) ->
  exists ta bd',
    BoardSetup.initialize_map fuel teams actor_classes n walls
      draws_bases draws_actors draws_walls (ta0, bd0) = Some (ta, bd')
    /\ map_size bd' = n
    /\ board_wf bd' /\ bases_apart bd' /\ one_actor_per_cell bd'
    /\ (forall t, In t teams -> assigned bd' t)
    /\ actors_at_home teams n bd'
    /\ (forall a c, Dict.get (actors_coordinates bd') a = Some c ->
                    ~ is_base bd' c /\ ~ is_wall bd' c)
    /\ (forall c, is_base bd' c -> ~ is_wall bd' c)
    /\ actors_flag bd' = [].
Proof.
  intros Hnd Hmd Hd [Ha0 [Hf0 [Hb0 Haf0]]] Hstage.
  destruct (bases_stage fuel teams n d draws_bases (set_map_size n bd0) bd1
              Hnd Hmd Hb0 Hf0 Hstage)
    as [Hass [Hsep [[Hbn Hbk] [[Hfn Hfk] [Hact1 [_ [Haf1 [Hsize1 _]]]]]]]].
  cbn [actors_coordinates actors_flag map_size set_map_size] in Hact1, Haf1, Hsize1.
  rewrite Ha0 in Hact1. rewrite Haf0 in Haf1.
  pose proof (windows_disjoint_of_sep teams _ bd1 Hd Hsep) as Hdisj.
  assert (Hbase : forall t, In t teams ->
            exists cb, Dict.get (bases_coordinates bd1) {| base_team := t |} = Some cb
                       /\ on_board n cb).
  { intros t Ht. destruct (Hass t Ht) as [cb [Hcb [_ Hint]]].
    exists cb. split; [exact Hcb | now apply interior_on_board]. }
  assert (Hinv0 : teams_inv teams [] n bd1 bd1).
  { constructor.
    - rewrite Hact1. constructor.
    - intros a1 a2 c H. rewrite Hact1 in H. discriminate.
    - intros a c H. rewrite Hact1 in H. discriminate.
    - intros a c H. rewrite Hact1 in H. discriminate.
    - split; [apply same_static_refl | split; reflexivity]. }
  destruct (place_teams_inv teams n actor_classes draws_actors bd1 Hdisj Hbase
              teams [] 0%nat ta0 bd1 (fun t H => H) Hnd (fun t _ H => H) Hinv0)
    as [ta [bd2 [done [Hteams [Hnda Hone Hhome _ [[Hsize2 [Hb2 _]] [Hf2 Haf2]]]]]]].
  exists ta, (BoardSetup._place_walls n walls draws_walls bd2).
  split.
  { unfold BoardSetup.initialize_map, BoardSetup._place_board_objects.
    cbn [fst snd]. rewrite Hstage, Hteams. reflexivity. }
  pose proof (place_walls_spec n walls draws_walls bd2) as Hwalls.
  rewrite place_walls_eq in *.
  set (W := slice_to walls (shuffle draws_walls (wall_candidates n bd2))) in *.
  cbn [walls_coordinates set_walls_coordinates] in Hwalls.
  assert (Hassigned : forall t, In t teams -> assigned (set_walls_coordinates W bd2) t).
  { intros t Ht. destruct (Hass t Ht) as [cb [Hcb [Hfc _]]]. exists cb.
    cbn [bases_coordinates flags_coordinates set_walls_coordinates].
    rewrite Hb2, Hf2. split; assumption. }
  assert (Hnobase : forall a c,
            Dict.get (actors_coordinates bd2) a = Some c ->
            forall b, Dict.get (bases_coordinates bd1) b = Some c -> False).
  { intros a c Hc [tb] Hb.
    destruct (Hhome a c Hc) as [Hta [cb [Hcb [Hw [_ Hne]]]]]. rewrite Hb2 in Hcb.
    destruct (key_eqb_spec (team a) tb) as [E|Hnt].
    - subst tb. congruence.
    - apply (Hdisj (team a) tb cb c c Hta); auto.
      + apply (Hbk {| base_team := tb |}). exact (get_In_keys _ _ Hb).
      + apply in_window_center. lia. }
  split; [cbn [map_size set_walls_coordinates]; congruence|].
  split; [|split; [|split; [|split; [|split; [|split; [|split]]]]]].
  - apply board_wf_iff.
    cbn [actors_coordinates flags_coordinates bases_coordinates actors_flag
         set_walls_coordinates].
    rewrite Hb2, Hf2, Haf2, Haf1.
    split; [exact Hnda|]. split; [exact Hfn|]. split; [exact Hbn|]. split.
    + unfold teams_ok.
      cbn [flags_coordinates bases_coordinates set_walls_coordinates].
      rewrite Hb2, Hf2. split.
      * intros f Hf. destruct (Hass _ (Hfk f Hf)) as [cb [Hcb _]]. eauto.
      * intros b Hb. destruct (Hass _ (Hbk b Hb)) as [cb [_ [Hfc _]]]. eauto.
    + intros a f [].
  - unfold bases_apart. cbn [bases_coordinates set_walls_coordinates]. rewrite Hb2.
    exact (bases_apart_of_windows teams bd1 Hdisj Hbn Hbk).
  - exact Hone.
  - exact Hassigned.
  - exact Hhome.
  - intros a c Hc. cbn [actors_coordinates set_walls_coordinates] in Hc. split.
    + intros [b Hb]. cbn [bases_coordinates set_walls_coordinates] in Hb.
      rewrite Hb2 in Hb. exact (Hnobase a c Hc b Hb).
    + intros Hw. unfold is_wall in Hw.
      cbn [walls_coordinates set_walls_coordinates] in Hw.
      destruct (Hwalls c Hw) as [_ Hno].
      destruct (Hhome a c Hc) as [_ [cb [Hcb [Hin _]]]].
      apply (Hno cb).
      * eapply DictFacts.In_values. apply DictFacts.get_In. exact Hcb.
      * unfold in_window in *. lia.
  - intros c [b Hb] Hw. unfold is_wall in Hw.
    cbn [walls_coordinates bases_coordinates set_walls_coordinates] in Hw, Hb.
    destruct (Hwalls c Hw) as [_ Hno]. apply (Hno c).
    + eapply DictFacts.In_values. apply DictFacts.get_In. exact Hb.
    + apply in_window_center. lia.
  - cbn [actors_flag set_walls_coordinates]. congruence.
Qed.

Lemma generated_board_is_playable_witness :
  NoDup [Sample.A; Sample.B]
  /\ BoardSetup.minimum_distance 10 (List.length [Sample.A; Sample.B]) = Ok 4
  /\ 4 <= 4
  /\ empty_board Sample.fresh
  /\ exists bd1,
       BoardSetup._place_bases_and_flags 3 [Sample.A; Sample.B] 10 (fun _ => 7%nat)
         (set_map_size 10 Sample.fresh) = Ok (Some bd1)
       /\ exists ta bd',
            BoardSetup.initialize_map 3 [Sample.A; Sample.B]
              [Sample.generalist; Sample.blocker] 10 5
              (fun _ => 7%nat) (fun _ _ => 3%nat) (fun _ => 11%nat)
              ([], Sample.fresh) = Some (ta, bd')
            /\ map_size bd' = 10
            /\ board_wf bd' /\ bases_apart bd' /\ one_actor_per_cell bd'
            /\ (forall t, In t [Sample.A; Sample.B] -> assigned bd' t)
            /\ actors_at_home [Sample.A; Sample.B] 10 bd'
            /\ (forall a c, Dict.get (actors_coordinates bd') a = Some c ->
                            ~ is_base bd' c /\ ~ is_wall bd' c)
            /\ (forall c, is_base bd' c -> ~ is_wall bd' c)
            /\ actors_flag bd' = [].
Proof.
  assert (Hnd : NoDup [Sample.A; Sample.B]) by (apply nodupb_NoDup; reflexivity).
  assert (Hmd : BoardSetup.minimum_distance 10 (List.length [Sample.A; Sample.B]) = Ok 4)
    by (vm_compute; reflexivity).
  assert (Hd : 4 <= 4) by lia.
  assert (He : empty_board Sample.fresh) by (repeat split).
  split; [exact Hnd|]. split; [exact Hmd|]. split; [exact Hd|]. split; [exact He|].
  destruct (BoardSetup._place_bases_and_flags 3 [Sample.A; Sample.B] 10
              (fun _ => 7%nat) (set_map_size 10 Sample.fresh)) as [[bd1|]|e] eqn:E.
  - exists bd1. split; [reflexivity|].
    exact (generated_board_is_playable 3 [Sample.A; Sample.B]
             [Sample.generalist; Sample.blocker] 10 4 5
             (fun _ => 7%nat) (fun _ _ => 3%nat) (fun _ => 11%nat)
             [] Sample.fresh bd1 Hnd Hmd Hd He E).
  - vm_compute in E. discriminate E.
  - vm_compute in E. discriminate E.
Defined.

Lemma bases_keep_off_the_border_witness :
  NoDup [Sample.A; Sample.B]
  /\ BoardSetup.minimum_distance 10 (List.length [Sample.A; Sample.B]) = Ok 4
  /\ bases_coordinates Sample.fresh = [] /\ flags_coordinates Sample.fresh = []
  /\ exists bd',
       BoardSetup._place_bases_and_flags 3 [Sample.A; Sample.B] 10 (fun _ => 7%nat)
         Sample.fresh = Ok (Some bd')
       /\ (forall t, In t [Sample.A; Sample.B] ->
             exists c,
               Dict.get (bases_coordinates bd') {| base_team := t |} = Some c
               /\ Dict.get (flags_coordinates bd') {| flag_team := t |} = Some c
               /\ 2 <= x c <= 10 - 3 /\ 2 <= y c <= 10 - 3)
       /\ (forall j1 j2 t1 t2 c1 c2,
             (j1 < j2)%nat ->
             nth_error [Sample.A; Sample.B] j1 = Some t1 ->
             nth_error [Sample.A; Sample.B] j2 = Some t2 ->
             Dict.get (bases_coordinates bd') {| base_team := t1 |} = Some c1 ->
             Dict.get (bases_coordinates bd') {| base_team := t2 |} = Some c2 ->
             ~ in_window 4 c1 c2)
       /\ (forall b, In b (Dict.keys (bases_coordinates bd')) ->
                     In (base_team b) [Sample.A; Sample.B])
       /\ (forall f, In f (Dict.keys (flags_coordinates bd')) ->
                     In (flag_team f) [Sample.A; Sample.B])
       /\ same_but_bases_and_flags Sample.fresh bd'.
Proof.
  assert (Hnd : NoDup [Sample.A; Sample.B]) by (apply nodupb_NoDup; reflexivity).
  assert (Hmd : BoardSetup.minimum_distance 10 (List.length [Sample.A; Sample.B]) = Ok 4)
    by (vm_compute; reflexivity).
  split; [exact Hnd|]. split; [exact Hmd|]. split; [reflexivity|]. split; [reflexivity|].
  destruct (BoardSetup._place_bases_and_flags 3 [Sample.A; Sample.B] 10
              (fun _ => 7%nat) Sample.fresh) as [[bd'|]|e] eqn:E.
  - exists bd'. split; [reflexivity|].
    exact (bases_keep_off_the_border 3 [Sample.A; Sample.B] 10 4 (fun _ => 7%nat)
             Sample.fresh bd' Hnd Hmd eq_refl eq_refl E).
  - vm_compute in E. discriminate E.
  - vm_compute in E. discriminate E.
Defined.

Lemma surplus_actors_stay_off_the_board_witness :
  2 <= x (Sample.at_ 2 2) <= 10 - 2 /\ 2 <= y (Sample.at_ 2 2) <= 10 - 2
  /\ NoDup (BoardSetup.team_actors (repeat Sample.generalist 16) Sample.A)
  /\ nth_error (BoardSetup.team_actors (repeat Sample.generalist 16) Sample.A) 15
     = Some (new_actor Sample.generalist 15 Sample.A)
  /\ (15 <= 15)%nat
  /\ Dict.get (actors_coordinates Sample.fresh) (new_actor Sample.generalist 15 Sample.A)
     = None
  /\ exists bd',
       BoardSetup._place_actors 10 (fun _ => 0%nat)
         (BoardSetup.team_actors (repeat Sample.generalist 16) Sample.A)
         (Sample.at_ 2 2) Sample.fresh = Some bd'
       /\ Dict.get (actors_coordinates bd') (new_actor Sample.generalist 15 Sample.A)
          = None
       /\ forall r d,
            move (new_actor Sample.generalist 15 Sample.A) d bd' = Raise KeyError
            /\ grabput_flag r (new_actor Sample.generalist 15 Sample.A) d bd'
               = Raise KeyError.
Proof.
  assert (Hx : 2 <= x (Sample.at_ 2 2) <= 10 - 2) by (simpl; lia).
  assert (Hy : 2 <= y (Sample.at_ 2 2) <= 10 - 2) by (simpl; lia).
  pose proof (team_actors_NoDup (repeat Sample.generalist 16) Sample.A) as Hnd.
  assert (Hi : (15 <= 15)%nat) by lia.
  split; [exact Hx|]. split; [exact Hy|]. split; [exact Hnd|].
  split; [reflexivity|]. split; [exact Hi|]. split; [reflexivity|].
  exact (surplus_actors_stay_off_the_board 10 (fun _ => 0%nat)
           (BoardSetup.team_actors (repeat Sample.generalist 16) Sample.A)
           (Sample.at_ 2 2) Sample.fresh 15%nat
           (new_actor Sample.generalist 15 Sample.A) Hx Hy Hnd eq_refl Hi eq_refl).
Defined.

(** The hypothesis on [minimum_distance] is needed: three teams on a
    board of size 10 have a [minimum_distance] of 3, the windows of
    distance 2 around two Bases that are 3 apart share a column, and
    the first actors of the teams A and B can both start on (3,1). *)
Example close_bases_share_a_starting_cell :
  BoardSetup.minimum_distance 10 3 = Ok 3
  /\ exists ta bd',
       BoardSetup.initialize_map 4 ["A"; "B"; "C"]%string [Sample.generalist] 10 0
         (fun k => match k with 1 => 9 | _ => 0 end%nat)
         (fun i _ => match i with 0 => 13 | _ => 0 end%nat)
         (fun _ => 0%nat) ([], Sample.fresh) = Some (ta, bd')
       /\ Dict.get (actors_coordinates bd') Sample.a0 = Some (Sample.at_ 3 1)
       /\ Dict.get (actors_coordinates bd') Sample.b0 = Some (Sample.at_ 3 1)
       /\ ~ one_actor_per_cell bd'.
Proof.
  split; [reflexivity|].
  eexists _, _. split; [vm_compute; reflexivity|].
  split; [reflexivity|]. split; [reflexivity|].
  intros H. specialize (H Sample.a0 Sample.b0 (Sample.at_ 3 1) eq_refl eq_refl).
  discriminate H.
Qed.

(* ------------------------------------------------------------------ *)
(** ** Every actor gets its cell *)

#[export] Instance Lawful_nat : LawfulHashable nat.
Proof. exact Nat.eqb_eq. Qed.

#[export] Instance Lawful_pair {A B : Type} {HA : Hashable A} {HB : Hashable B}
  {LA : LawfulHashable A} {LB : LawfulHashable B} : LawfulHashable (A * B).
Proof.
  intros [a1 b1] [a2 b2]. unfold key_eqb at 1. cbn [Hashable_pair fst snd].
  rewrite andb_true_iff, !key_eqb_eq. split; [intros [-> ->] | intros [= -> ->]]; auto.
Qed.

Lemma team_actors_nth actor_classes t k cls :
  nth_error actor_classes k = Some cls ->
  nth_error (BoardSetup.team_actors actor_classes t) k = Some (new_actor cls k t).
Proof.
  intros H. unfold BoardSetup.team_actors.
  assert (Hk : (k < List.length actor_classes)%nat)
    by (apply nth_error_Some; congruence).
  assert (E : forall start,
             nth_error (combine (seq start (List.length actor_classes)) actor_classes) k
             = Some ((start + k)%nat, cls)).
  { clear Hk. revert k H.
    induction actor_classes as [|c0 l IH]; intros k H start;
      [destruct k; discriminate|].
    destruct k as [|k]; simpl in H |- *.
    - injection H as ->. now rewrite Nat.add_0_r.
    - rewrite (IH k H (S start)). f_equal. f_equal. lia. }
  rewrite nth_error_map, (E 0%nat). reflexivity.
Qed.

Lemma team_actors_length actor_classes t :
  List.length (BoardSetup.team_actors actor_classes t) = List.length actor_classes.
Proof.
  unfold BoardSetup.team_actors.
  rewrite length_map, length_combine, length_seq. lia.
Qed.

Lemma team_actors_idents actor_classes t :
  NoDup (map ident (BoardSetup.team_actors actor_classes t)).
Proof.
  unfold BoardSetup.team_actors. rewrite map_map. cbn [ident new_actor].
  exact (keys_combine_NoDup _ actor_classes (seq_NoDup _ 0)).
Qed.

Lemma fold_left_map_set {A K : Type} {HK : Hashable K} (f : A -> K) (l : list A)
  (d : list (K * A)) :
  fold_left (fun d a => Dict.set d (f a) a) l d
  = fold_left (fun d p => Dict.set d (fst p) (snd p)) (map (fun a => (f a, a)) l) d.
Proof.
  revert d. induction l as [|a l IH]; intros d; [reflexivity|].
  cbn [fold_left map fst snd]. apply IH.
Qed.

Lemma place_team_complete n actor_classes draws t cb ta bd :
  Dict.get (bases_coordinates bd) {| base_team := t |} = Some cb ->
  2 <= x cb <= n - 2 -> 2 <= y cb <= n - 2 ->
  exists ta' bd',
    BoardSetup.place_team n actor_classes draws t (ta, bd) = Some (ta', bd')
    /\ (forall k cls,
          nth_error actor_classes k = Some cls ->
          Dict.get ta' (t, k) = Some (new_actor cls k t)
          /\ ((k < 15)%nat ->
              exists c, Dict.get (actors_coordinates bd') (new_actor cls k t) = Some c))
    /\ (forall a c, Dict.get (actors_coordinates bd) a = Some c ->
                    exists c', Dict.get (actors_coordinates bd') a = Some c')
    /\ (forall key v, Dict.get ta key = Some v -> fst key <> t ->
                      Dict.get ta' key = Some v)
    /\ bases_coordinates bd' = bases_coordinates bd.
Proof.
  intros Hcb Hx Hy.
  assert (Hon : on_board n cb) by (unfold on_board; lia).
  set (actors := BoardSetup.team_actors actor_classes t).
  destruct (place_actors_spec n draws actors cb bd Hon
              (team_actors_NoDup actor_classes t))
    as [places [Heq [_ [_ [Hlen Hidx]]]]].
  rewrite (area_length_inside n cb 2) in Hlen by lia.
  change (window_cells 2) with 16%nat in Hlen.
  unfold actors in Hlen. rewrite team_actors_length in Hlen. fold actors in Hlen.
  unfold BoardSetup.place_team. cbn [fst snd]. fold actors. rewrite Hcb, Heq.
  eexists _, _. split; [reflexivity|].
  set (pairs := map (fun a => ((t, ident a), a)) actors).
  assert (Hkeys : Dict.keys pairs = map (fun a => (t, ident a)) actors).
  { unfold pairs, Dict.keys. rewrite map_map. reflexivity. }
  assert (Hndk : NoDup (Dict.keys pairs)).
  { rewrite Hkeys. apply (NoDup_map_inv snd). rewrite map_map.
    exact (team_actors_idents actor_classes t). }
  assert (Hta : forall key,
             Dict.get (fold_left (fun d a => Dict.set d (t, ident a) a) actors ta) key
             = match Dict.get pairs key with
               | Some v => Some v
               | None => Dict.get ta key
               end).
  { intros key. rewrite (fold_left_map_set (fun a => (t, ident a))).
    exact (get_fold_set pairs ta key Hndk). }
  split; [|split; [|split]].
  - intros k cls Hk.
    pose proof (team_actors_nth actor_classes t k cls Hk) as Hnth.
    fold actors in Hnth. split.
    + rewrite Hta.
      assert (Hin : In ((t, k), new_actor cls k t) pairs).
      { unfold pairs. apply in_map_iff. exists (new_actor cls k t).
        split; [reflexivity|]. eapply nth_error_In. exact Hnth. }
      now rewrite (DictFacts.In_get_nodup _ _ _ Hndk Hin).
    + intros Hlt. rewrite (Hidx k _ Hnth).
      assert (Hk' : (k < List.length actor_classes)%nat)
        by (apply nth_error_Some; congruence).
      destruct (nth_error places k) as [c|] eqn:E; [eauto|].
      apply nth_error_None in E. lia.
  - intros a c Ha. rewrite place_all_actors.
    rewrite get_fold_set
      by (apply keys_combine_NoDup; apply team_actors_NoDup).
    destruct (Dict.get (combine actors places) a); eauto.
  - intros key v Hv Hne. rewrite Hta.
    rewrite (get_notin_keys pairs key); [exact Hv|].
    rewrite Hkeys. intros Hin. apply in_map_iff in Hin.
    destruct Hin as [a [<- _]]. apply Hne. reflexivity.
  - destruct (place_all_rest (combine actors places) bd) as [[_ [Hb _]] _].
    exact Hb.
Qed.

Lemma place_teams_complete n actor_classes draws :
  forall rest i ta bd,
    NoDup rest ->
    (forall t, In t rest ->
       exists cb, Dict.get (bases_coordinates bd) {| base_team := t |} = Some cb
                  /\ 2 <= x cb <= n - 2 /\ 2 <= y cb <= n - 2) ->
    exists ta' bd',
      BoardSetup.place_teams n actor_classes draws i rest (ta, bd) = Some (ta', bd')
      /\ (forall t k cls,
            In t rest -> nth_error actor_classes k = Some cls ->
            Dict.get ta' (t, k) = Some (new_actor cls k t)
            /\ ((k < 15)%nat ->
                exists c,
                  Dict.get (actors_coordinates bd') (new_actor cls k t) = Some c))
      /\ (forall a c, Dict.get (actors_coordinates bd) a = Some c ->
                      exists c', Dict.get (actors_coordinates bd') a = Some c')
      /\ (forall key v, Dict.get ta key = Some v -> ~ In (fst key) rest ->
                        Dict.get ta' key = Some v)
      /\ bases_coordinates bd' = bases_coordinates bd.
Proof.
  induction rest as [|t rest IH]; intros i ta bd Hnd Hbase.
  - exists ta, bd. split; [reflexivity|]. split; [intros ? ? ? []|]. eauto.
  - inversion Hnd as [|? ? Hnotin Hnd']; subst.
    destruct (Hbase t (or_introl eq_refl)) as [cb [Hcb [Hx Hy]]].
    destruct (place_team_complete n actor_classes (draws i) t cb ta bd Hcb Hx Hy)
      as [ta1 [bd1 [Heq [Hnew [Hkeep [Hold Hb1]]]]]].
    assert (Hbase1 : forall t', In t' rest ->
              exists cb', Dict.get (bases_coordinates bd1) {| base_team := t' |}
                          = Some cb'
                          /\ 2 <= x cb' <= n - 2 /\ 2 <= y cb' <= n - 2).
    { intros t' Ht'. rewrite Hb1. apply Hbase. now right. }
    destruct (IH (S i) ta1 bd1 Hnd' Hbase1)
      as [ta' [bd' [Heq' [Hnew' [Hkeep' [Hold' Hb']]]]]].
    exists ta', bd'. cbn [BoardSetup.place_teams]. rewrite Heq.
    split; [exact Heq'|]. split; [|split; [|split]].
    + intros t' k cls [<-|Ht'] Hk.
      * destruct (Hnew k cls Hk) as [Hta Hcell]. split.
        -- apply Hold'; [exact Hta | exact Hnotin].
        -- intros Hlt. destruct (Hcell Hlt) as [c Hc]. exact (Hkeep' _ _ Hc).
      * exact (Hnew' t' k cls Ht' Hk).
    + intros a c Ha. destruct (Hkeep a c Ha) as [c1 Hc1]. exact (Hkeep' _ _ Hc1).
    + intros key v Hv Hout. apply Hold'.
      * apply Hold; [exact Hv|]. intros E. apply Hout. now left.
      * intros Hin. apply Hout. now right.
    + congruence.
Qed.

(** X24.  Every actor gets its cell.  On a board without bases and
    flags, for distinct teams, once the placement of the bases has
    finished [initialize_map] returns; [teams_actors] then holds, for
    every team and every index [k] of an actor class, the actor of that
    class with [ident = k] and that team, and each such actor with
    [k < 15] has its coordinates on the board. *)
Theorem every_actor_is_placed
  fuel teams actor_classes n walls draws_bases draws_actors draws_walls ta0 bd0 bd1 :
  NoDup teams ->
  bases_coordinates bd0 = [] -> flags_coordinates bd0 = [] ->
  BoardSetup._place_bases_and_flags fuel teams n draws_bases (set_map_size n bd0)
  = Ok (Some bd1) ->
  exists ta bd',
    BoardSetup.initialize_map fuel teams actor_classes n walls
      draws_bases draws_actors draws_walls (ta0, bd0) = Some (ta, bd')
    /\ forall t k cls,
         In t teams -> nth_error actor_classes k = Some cls ->
         Dict.get ta (t, k) = Some (new_actor cls k t)
         /\ ((k < 15)%nat ->
             exists c, Dict.get (actors_coordinates bd') (new_actor cls k t) = Some c).
Proof.
  intros Hnd Hb0 Hf0 Hstage.
  assert (Hmd : exists d, BoardSetup.minimum_distance n (List.length teams) = Ok d).
  { unfold BoardSetup._place_bases_and_flags in Hstage.
    destruct (BoardSetup.minimum_distance n (List.length teams)) as [d|e];
      [eauto | discriminate Hstage]. }
  destruct Hmd as [d Hmd].
  destruct (bases_stage fuel teams n d draws_bases (set_map_size n bd0) bd1
              Hnd Hmd Hb0 Hf0 Hstage) as [Hass _].
  assert (Hbase : forall t, In t teams ->
            exists cb, Dict.get (bases_coordinates bd1) {| base_team := t |} = Some cb
                       /\ 2 <= x cb <= n - 2 /\ 2 <= y cb <= n - 2).
  { intros t Ht. destruct (Hass t Ht) as [cb [Hcb [_ Hint]]].
    exists cb. split; [exact Hcb|]. apply interior_In in Hint. lia. }
  destruct (place_teams_complete n actor_classes draws_actors teams 0%nat ta0 bd1
              Hnd Hbase) as [ta [bd2 [Heq [Hnew _]]]].
  exists ta, (BoardSetup._place_walls n walls draws_walls bd2). split.
  - unfold BoardSetup.initialize_map, BoardSetup._place_board_objects.
    cbn [fst snd]. rewrite Hstage, Heq. reflexivity.
  - intros t k cls Ht Hk. rewrite place_walls_eq.
    cbn [actors_coordinates set_walls_coordinates].
    exact (Hnew t k cls Ht Hk).
Qed.

Lemma every_actor_is_placed_witness :
  NoDup [Sample.A; Sample.B]
  /\ bases_coordinates Sample.fresh = [] /\ flags_coordinates Sample.fresh = []
  /\ exists bd1,
       BoardSetup._place_bases_and_flags 3 [Sample.A; Sample.B] 10 (fun _ => 7%nat)
         (set_map_size 10 Sample.fresh) = Ok (Some bd1)
       /\ exists ta bd',
            BoardSetup.initialize_map 3 [Sample.A; Sample.B]
              [Sample.generalist; Sample.blocker] 10 5
              (fun _ => 7%nat) (fun _ _ => 3%nat) (fun _ => 11%nat)
              ([], Sample.fresh) = Some (ta, bd')
            /\ forall t k cls,
                 In t [Sample.A; Sample.B] ->
                 nth_error [Sample.generalist; Sample.blocker] k = Some cls ->
                 Dict.get ta (t, k) = Some (new_actor cls k t)
                 /\ ((k < 15)%nat ->
                     exists c,
                       Dict.get (actors_coordinates bd') (new_actor cls k t) = Some c).
Proof.
  assert (Hnd : NoDup [Sample.A; Sample.B]) by (apply nodupb_NoDup; reflexivity).
  split; [exact Hnd|]. split; [reflexivity|]. split; [reflexivity|].
  destruct (BoardSetup._place_bases_and_flags 3 [Sample.A; Sample.B] 10
              (fun _ => 7%nat) (set_map_size 10 Sample.fresh)) as [[bd1|]|e] eqn:E.
  - exists bd1. split; [reflexivity|].
    exact (every_actor_is_placed 3 [Sample.A; Sample.B]
             [Sample.generalist; Sample.blocker] 10 5
             (fun _ => 7%nat) (fun _ _ => 3%nat) (fun _ => 11%nat)
             [] Sample.fresh bd1 Hnd eq_refl eq_refl E).
  - vm_compute in E. discriminate E.
  - vm_compute in E. discriminate E.
Defined.
